(** * KCS-MEET frontend: session coordination layer

    A shallow embedding of the client's session coordinator:
    - [Api]    : [src/api/meeting.ts]   (persisted authentication token, REST result shapes)
    - [WebRTC] : [src/hooks/useWebRTC.ts] (the media hook: producers, consumers, transports)
    - [App]    : [src/App.tsx]          (call lifecycle, admission gate, auto-join effect)

    JavaScript runs the coordinator on one event loop: a handler body runs
    to its end, or to the [await] of a request to the server, without other
    handlers in between.  Such a turn is embedded as a function from the
    state before to the state after; whatever the outside world decides (the
    value a promise settles with, the payload of a signaling event) is an
    argument of that function.  An [await] of a call that is answered inside
    the browser ([getUserMedia], [device.load], [recvTransport.consume],
    [consumer.resume]) does not end the turn: the turn starts where the
    first of them settles and takes their outcomes as arguments.  What a
    turn does to the outside world (socket emissions, [close()] and [stop()]
    calls) is appended to an effect log carried in the state. *)

From Stdlib Require Import ZArith.
From stdpp Require Import base option list strings gmap sets.

Local Open Scope string_scope.

(** ** JavaScript [Map<string, V>] with its iteration order

    A JS [Map] iterates in insertion order and [set] on a present key keeps
    the key's position.  [producersRef] and [consumersRef] are iterated
    ([forEach], [for ... of] with [break]), so they are kept as ordered
    association lists. *)
Module JsMap.
Section Ops.
Context {V : Type}.

Fixpoint get (k : string) (m : list (string * V)) : option V :=
    match m with
    | [] => None
    | (k', v) :: rest => if String.eqb k k' then Some v else get k rest
    end.

Fixpoint set (k : string) (v : V) (m : list (string * V)) : list (string * V) :=
    match m with
    | [] => [(k, v)]
    | (k', v') :: rest =>
        if String.eqb k k' then (k, v) :: rest else (k', v') :: set k v rest
    end.

Fixpoint delete (k : string) (m : list (string * V)) : list (string * V) :=
    match m with
    | [] => []
    | (k', v') :: rest =>
        if String.eqb k k' then rest else (k', v') :: delete k rest
    end.

Definition keys (m : list (string * V)) : list string := map fst m.
Definition values (m : list (string * V)) : list V := map snd m.

(** Number of entries stored under key [k]. *)
Definition occurrences (k : string) (m : list (string * V)) : nat :=
    length (filter (fun kv => String.eqb k (fst kv) = true) m).
End Ops.
End JsMap.

(** ** [src/api/meeting.ts] *)
Module Api.

(** [Meeting.settings] *)
Record MeetingSettings := {
    allow_screen_share : bool;
    allow_chat : bool;
    mute_on_entry : bool;
    allow_anonymous_join : bool;
    waiting_room_enabled : option bool;
    auto_admit : option bool
}.

Record Meeting := {
    id : string;
    title : string;
    meeting_code : string;
    meeting_link : string;
    meeting_type : string;
    meeting_status : string;
    creator_id : string;
    campus_id : string;
    max_participants : Z;
    settings : MeetingSettings
}.

(** [WebRTCConfig]: ICE servers and RTP capabilities are opaque payloads. *)
Record WebRTCConfig := {
    iceServers : list string;
    rtpCapabilities : option string;
    routerError : option string
}.

(** The common shape [{ success: boolean; data?: T; error?: string }].
    It is whatever JSON the backend sent, so the three fields are
    independent of each other. *)
Record Result (T : Type) := {
    success : bool;
    data : option T;
    error : option string
}.
Arguments success {T} _.
Arguments data {T} _.
Arguments error {T} _.

(** [JoinMeetingResponse.data] *)
Record JoinData := {
    jd_meeting : Meeting;
    canJoin : bool;
    joinError : option string;
    webrtcConfig : WebRTCConfig
}.

(** Result of [initiateCall]: [{ callId, meetingId }]. *)
Record CallRef := { cr_callId : string; cr_meetingId : string }.

(** [Call.status] *)
Inductive CallStatus := cs_ringing | cs_accepted | cs_rejected | cs_missed | cs_ended.

Definition status_name (st : CallStatus) : string :=
    match st with
    | cs_ringing => "ringing"
    | cs_accepted => "accepted"
    | cs_rejected => "rejected"
    | cs_missed => "missed"
    | cs_ended => "ended"
    end.

(** [Call], the result of [getActiveCall], as far as the component reads
    it. *)
Record Call := { call_callId : string; call_meetingId : string; call_status : CallStatus }.

(** Result of [checkAdmissionRequired]: [{ required: boolean }]. *)
Record AdmissionCheck := { required : bool }.

(** Result of [requestAdmission]: [{ success; position?; error? }]. *)
Record AdmissionRequest := {
    ar_success : bool;
    position : option Z;
    ar_error : option string
}.

(** The module-level variable [authToken] and the browser's
    [localStorage]. *)
Record Store := {
    authToken : string;
    localStorage : gmap string string
}.

(** JavaScript truthiness of a string. *)
Definition truthy (s : string) : bool := negb (String.eqb s "").

(** [a || b] on a possibly absent string. *)
Definition or_else (a : option string) (b : string) : string :=
    match a with
    | Some s => if truthy s then s else b
    | None => b
    end.

(** [setAuthToken(token)] *)
Definition setAuthToken (token : string) (st : Store) : Store :=
    {| authToken := token;
       localStorage := <["authToken" := token]> (localStorage st) |}.

(** [getAuthToken()]: returns the token and the store, whose in-memory
    variable may have been filled from [localStorage]. *)
Definition getAuthToken (st : Store) : string * Store :=
    let st' :=
      if truthy (authToken st) then st
      else {| authToken := or_else (localStorage st !! "authToken") "";
              localStorage := localStorage st |} in
    (authToken st', st').

End Api.

(** ** [src/hooks/useWebRTC.ts] *)
Module WebRTC.

(** *** Media objects *)

Inductive MediaKind := audio | video.

#[global] Instance MediaKind_eq_dec : EqDecision MediaKind.
Proof. solve_decision. Defined.

(** [appData?: { type?: string }], the discriminator of a published track. *)
Record AppData := { ad_type : option string }.

(** A [MediaStreamTrack] object; two tracks are the same object exactly when
    they have the same identifier. *)
Record MediaStreamTrack := { track_id : string; track_kind : MediaKind }.

#[global] Instance MediaStreamTrack_eq_dec : EqDecision MediaStreamTrack.
Proof. solve_decision. Defined.

(** A [MediaStream] is its track set, listed in the order of insertion (the
    order in which browsers enumerate it). *)
Definition getTracks (ms : list MediaStreamTrack) : list MediaStreamTrack := ms.

Definition getVideoTracks (ms : list MediaStreamTrack) : list MediaStreamTrack :=
  filter (fun t => track_kind t = video) ms.

Definition getAudioTracks (ms : list MediaStreamTrack) : list MediaStreamTrack :=
  filter (fun t => track_kind t = audio) ms.

(** [stream.addTrack(t)]: no effect when [t] is already in the stream. *)
Definition addTrack (t : MediaStreamTrack) (ms : list MediaStreamTrack)
  : list MediaStreamTrack :=
  if decide (t ∈ ms) then ms else ms ++ [t].

Definition removeTrack (t : MediaStreamTrack) (ms : list MediaStreamTrack)
  : list MediaStreamTrack :=
  filter (fun t' => t' ≠ t) ms.

(** A mediasoup [Producer], as far as the hook reads it. *)
Record Producer := {
  producer_id : string;
  producer_track : MediaStreamTrack;
  producer_appData : AppData
}.

(** A mediasoup [Consumer]. *)
Record Consumer := {
  consumer_id : string;
  consumer_producerId : string;
  consumer_track : MediaStreamTrack
}.

(** A mediasoup [Transport]; the ICE and DTLS parameters it was built from
    are not read again by the hook. *)
Record Transport := { transport_id : string }.

(** The keys of [producersRef]. *)
Inductive Slot := camera | microphone | screenVideo | screenAudio.

Definition slot_key (sl : Slot) : string :=
  match sl with
  | camera => "video"
  | microphone => "audio"
  | screenVideo => "screen"
  | screenAudio => "screenAudio"
  end.

(** The [appData] that [sendTransport.produce] receives for a slot; mediasoup
    passes the empty object when the caller gives none. *)
Definition slot_appData (sl : Slot) : AppData :=
  match sl with
  | camera | microphone => {| ad_type := None |}
  | screenVideo => {| ad_type := Some "screen" |}
  | screenAudio => {| ad_type := Some "screenAudio" |}
  end.

(** *** Signaling messages *)

(** Client to server ([socket.emit]).  The DTLS and RTP parameters, which
    the hook forwards unread between mediasoup and the server, are left out. *)
Inductive ClientMsg :=
| join_meeting (meetingId : string)
| create_transport (meetingId direction : string)
| connect_transport (transportId : string)
| produce (meetingId : string) (kind : MediaKind) (requestId : string)
    (appData : AppData)
| consume (meetingId producerParticipantId producerId : string) (kind : MediaKind)
    (rtpCapabilities : string) (appData : option AppData)
| resume_consumer (consumerId : string)
| close_producer (meetingId producerId : string) (kind : MediaKind)
    (appData : option AppData).

(** What a turn does to the world outside the hook. *)
Inductive Effect :=
| Emit (m : ClientMsg)                       (* socket.emit(...) *)
| ProducerClose (producerId : string)        (* producer.close() *)
| ConsumerClose (consumerId : string)        (* consumer.close() *)
| TransportClose (transportId : string)      (* transport.close() *)
| TrackStop (t : MediaStreamTrack)           (* track.stop() *)
| SocketDisconnect                           (* socket.disconnect() *)
| ConnectCallback (transportId : string)     (* callback() of 'connect' *)
| ProduceCallback (requestId producerId : string). (* callback({ id }) of 'produce' *)

(** Entries of [meeting-joined]'s [existingProducers]. *)
Record PendingProducer := {
  pp_participantId : string;
  pp_producerId : string;
  pp_kind : MediaKind
}.

(** A handler registered on ['produced'] by the send transport's ['produce']
    callback, together with what resumes when it calls [callback({ id })]:
    [sendTransport.produce] resolves and the caller stores the producer under
    [pw_slot]; [startScreenShare] then goes on to publish [pw_then], the
    screen's audio track. *)
Record ProduceWait := {
  pw_requestId : string;
  pw_slot : Slot;
  pw_track : MediaStreamTrack;
  pw_then : option MediaStreamTrack
}.

(** The socket created by [joinMeeting], with what its closure holds. *)
Record Socket := {
  sk_meetingId : string;                        (* meeting.id of the join *)
  sk_pendingProducers : list PendingProducer;   (* let pendingProducers *)
  sk_transportConnected : list string;  (* 'transport-connected' handlers, by transport id *)
  sk_produced : list ProduceWait                (* 'produced' handlers *)
}.

(** A loaded mediasoup [Device]. *)
Record Device := { device_rtpCapabilities : string }.

(** *** Remote participants *)

(** Remote [MediaStream] objects are shared between [remoteStreamsRef] and
    the React state, so they live in a heap and are named by reference. *)
Record Streams := {
  st_camera : option nat;
  st_screen : option nat;
  st_audio : option nat
}.

(** [RemoteParticipant]; its [_updateTs], the time of the last update, is
    left out. *)
Record RemoteParticipant := {
  odId : string;
  userName : string;
  cameraStream : option nat;
  screenStream : option nat;
  audioStream : option nat
}.

(** *** Optimization profile *)

Inductive MeetingTier := SMALL | MEDIUM | LARGE | MASSIVE.

(** [DynamicMeetingConfig] as it arrives: the hook reads [tier] and logs
    fields of the [video], [audio] and [features] objects, which a payload
    may lack; [cfg_video], [cfg_audio] and [cfg_features] tell whether the
    object is there. *)
Record DynamicMeetingConfig := {
  tier : MeetingTier;
  participantCount : Z;
  cfg_video : bool;
  cfg_audio : bool;
  cfg_features : bool
}.

Record OptimizationData := { config : option DynamicMeetingConfig }.

Inductive ConnectionStatus := disconnected | connecting | connected | fallback.

(** *** The hook's state *)

Record Hook := {
  meeting : option Api.Meeting;                 (* the hook's argument *)
  socketRef : option Socket;
  deviceRef : option Device;
  localStreamRef : option (list MediaStreamTrack);
  screenStreamRef : option (list MediaStreamTrack);
  sendTransportRef : option Transport;
  recvTransportRef : option Transport;
  producersRef : list (string * Producer);
  consumersRef : list (string * Consumer);
  consumedProducersRef : gset string;
  producerAppDataRef : gmap string AppData;
  remoteStreamsRef : gmap string Streams;
  remoteParticipants : gmap string RemoteParticipant;
  isConnected : bool;
  isAudioEnabled : bool;
  isVideoEnabled : bool;
  isScreenSharing : bool;
  connectionStatus : ConnectionStatus;
  optimization : option OptimizationData;
  meetingTier : option MeetingTier;
  error : option string;
  heap : gmap nat (list MediaStreamTrack);      (* remote MediaStream objects *)
  effects : list Effect                         (* oldest first *)
}.

Definition set_meeting v (s : Hook) : Hook :=
    Build_Hook v (socketRef s) (deviceRef s) (localStreamRef s) (screenStreamRef s)
      (sendTransportRef s) (recvTransportRef s) (producersRef s) (consumersRef s)
      (consumedProducersRef s) (producerAppDataRef s) (remoteStreamsRef s)
      (remoteParticipants s) (isConnected s) (isAudioEnabled s) (isVideoEnabled s)
      (isScreenSharing s) (connectionStatus s) (optimization s) (meetingTier s) (error s)
      (heap s) (effects s).
Definition set_socketRef v (s : Hook) : Hook :=
    Build_Hook (meeting s) v (deviceRef s) (localStreamRef s) (screenStreamRef s)
      (sendTransportRef s) (recvTransportRef s) (producersRef s) (consumersRef s)
      (consumedProducersRef s) (producerAppDataRef s) (remoteStreamsRef s)
      (remoteParticipants s) (isConnected s) (isAudioEnabled s) (isVideoEnabled s)
      (isScreenSharing s) (connectionStatus s) (optimization s) (meetingTier s) (error s)
      (heap s) (effects s).
Definition set_deviceRef v (s : Hook) : Hook :=
    Build_Hook (meeting s) (socketRef s) v (localStreamRef s) (screenStreamRef s)
      (sendTransportRef s) (recvTransportRef s) (producersRef s) (consumersRef s)
      (consumedProducersRef s) (producerAppDataRef s) (remoteStreamsRef s)
      (remoteParticipants s) (isConnected s) (isAudioEnabled s) (isVideoEnabled s)
      (isScreenSharing s) (connectionStatus s) (optimization s) (meetingTier s) (error s)
      (heap s) (effects s).
Definition set_localStreamRef v (s : Hook) : Hook :=
    Build_Hook (meeting s) (socketRef s) (deviceRef s) v (screenStreamRef s)
      (sendTransportRef s) (recvTransportRef s) (producersRef s) (consumersRef s)
      (consumedProducersRef s) (producerAppDataRef s) (remoteStreamsRef s)
      (remoteParticipants s) (isConnected s) (isAudioEnabled s) (isVideoEnabled s)
      (isScreenSharing s) (connectionStatus s) (optimization s) (meetingTier s) (error s)
      (heap s) (effects s).
Definition set_screenStreamRef v (s : Hook) : Hook :=
    Build_Hook (meeting s) (socketRef s) (deviceRef s) (localStreamRef s) v
      (sendTransportRef s) (recvTransportRef s) (producersRef s) (consumersRef s)
      (consumedProducersRef s) (producerAppDataRef s) (remoteStreamsRef s)
      (remoteParticipants s) (isConnected s) (isAudioEnabled s) (isVideoEnabled s)
      (isScreenSharing s) (connectionStatus s) (optimization s) (meetingTier s) (error s)
      (heap s) (effects s).
Definition set_sendTransportRef v (s : Hook) : Hook :=
    Build_Hook (meeting s) (socketRef s) (deviceRef s) (localStreamRef s)
      (screenStreamRef s) v (recvTransportRef s) (producersRef s) (consumersRef s)
      (consumedProducersRef s) (producerAppDataRef s) (remoteStreamsRef s)
      (remoteParticipants s) (isConnected s) (isAudioEnabled s) (isVideoEnabled s)
      (isScreenSharing s) (connectionStatus s) (optimization s) (meetingTier s) (error s)
      (heap s) (effects s).
Definition set_recvTransportRef v (s : Hook) : Hook :=
    Build_Hook (meeting s) (socketRef s) (deviceRef s) (localStreamRef s)
      (screenStreamRef s) (sendTransportRef s) v (producersRef s) (consumersRef s)
      (consumedProducersRef s) (producerAppDataRef s) (remoteStreamsRef s)
      (remoteParticipants s) (isConnected s) (isAudioEnabled s) (isVideoEnabled s)
      (isScreenSharing s) (connectionStatus s) (optimization s) (meetingTier s) (error s)
      (heap s) (effects s).
Definition set_producersRef v (s : Hook) : Hook :=
    Build_Hook (meeting s) (socketRef s) (deviceRef s) (localStreamRef s)
      (screenStreamRef s) (sendTransportRef s) (recvTransportRef s) v (consumersRef s)
      (consumedProducersRef s) (producerAppDataRef s) (remoteStreamsRef s)
      (remoteParticipants s) (isConnected s) (isAudioEnabled s) (isVideoEnabled s)
      (isScreenSharing s) (connectionStatus s) (optimization s) (meetingTier s) (error s)
      (heap s) (effects s).
Definition set_consumersRef v (s : Hook) : Hook :=
    Build_Hook (meeting s) (socketRef s) (deviceRef s) (localStreamRef s)
      (screenStreamRef s) (sendTransportRef s) (recvTransportRef s) (producersRef s) v
      (consumedProducersRef s) (producerAppDataRef s) (remoteStreamsRef s)
      (remoteParticipants s) (isConnected s) (isAudioEnabled s) (isVideoEnabled s)
      (isScreenSharing s) (connectionStatus s) (optimization s) (meetingTier s) (error s)
      (heap s) (effects s).
Definition set_consumedProducersRef v (s : Hook) : Hook :=
    Build_Hook (meeting s) (socketRef s) (deviceRef s) (localStreamRef s)
      (screenStreamRef s) (sendTransportRef s) (recvTransportRef s) (producersRef s)
      (consumersRef s) v (producerAppDataRef s) (remoteStreamsRef s) (remoteParticipants
      s) (isConnected s) (isAudioEnabled s) (isVideoEnabled s) (isScreenSharing s)
      (connectionStatus s) (optimization s) (meetingTier s) (error s) (heap s) (effects
      s).
Definition set_producerAppDataRef v (s : Hook) : Hook :=
    Build_Hook (meeting s) (socketRef s) (deviceRef s) (localStreamRef s)
      (screenStreamRef s) (sendTransportRef s) (recvTransportRef s) (producersRef s)
      (consumersRef s) (consumedProducersRef s) v (remoteStreamsRef s) (remoteParticipants
      s) (isConnected s) (isAudioEnabled s) (isVideoEnabled s) (isScreenSharing s)
      (connectionStatus s) (optimization s) (meetingTier s) (error s) (heap s) (effects
      s).
Definition set_remoteStreamsRef v (s : Hook) : Hook :=
    Build_Hook (meeting s) (socketRef s) (deviceRef s) (localStreamRef s)
      (screenStreamRef s) (sendTransportRef s) (recvTransportRef s) (producersRef s)
      (consumersRef s) (consumedProducersRef s) (producerAppDataRef s) v
      (remoteParticipants s) (isConnected s) (isAudioEnabled s) (isVideoEnabled s)
      (isScreenSharing s) (connectionStatus s) (optimization s) (meetingTier s) (error s)
      (heap s) (effects s).
Definition set_remoteParticipants v (s : Hook) : Hook :=
    Build_Hook (meeting s) (socketRef s) (deviceRef s) (localStreamRef s)
      (screenStreamRef s) (sendTransportRef s) (recvTransportRef s) (producersRef s)
      (consumersRef s) (consumedProducersRef s) (producerAppDataRef s) (remoteStreamsRef
      s) v (isConnected s) (isAudioEnabled s) (isVideoEnabled s) (isScreenSharing s)
      (connectionStatus s) (optimization s) (meetingTier s) (error s) (heap s) (effects
      s).
Definition set_isConnected v (s : Hook) : Hook :=
    Build_Hook (meeting s) (socketRef s) (deviceRef s) (localStreamRef s)
      (screenStreamRef s) (sendTransportRef s) (recvTransportRef s) (producersRef s)
      (consumersRef s) (consumedProducersRef s) (producerAppDataRef s) (remoteStreamsRef
      s) (remoteParticipants s) v (isAudioEnabled s) (isVideoEnabled s) (isScreenSharing
      s) (connectionStatus s) (optimization s) (meetingTier s) (error s) (heap s) (effects
      s).
Definition set_isAudioEnabled v (s : Hook) : Hook :=
    Build_Hook (meeting s) (socketRef s) (deviceRef s) (localStreamRef s)
      (screenStreamRef s) (sendTransportRef s) (recvTransportRef s) (producersRef s)
      (consumersRef s) (consumedProducersRef s) (producerAppDataRef s) (remoteStreamsRef
      s) (remoteParticipants s) (isConnected s) v (isVideoEnabled s) (isScreenSharing s)
      (connectionStatus s) (optimization s) (meetingTier s) (error s) (heap s) (effects
      s).
Definition set_isVideoEnabled v (s : Hook) : Hook :=
    Build_Hook (meeting s) (socketRef s) (deviceRef s) (localStreamRef s)
      (screenStreamRef s) (sendTransportRef s) (recvTransportRef s) (producersRef s)
      (consumersRef s) (consumedProducersRef s) (producerAppDataRef s) (remoteStreamsRef
      s) (remoteParticipants s) (isConnected s) (isAudioEnabled s) v (isScreenSharing s)
      (connectionStatus s) (optimization s) (meetingTier s) (error s) (heap s) (effects
      s).
Definition set_isScreenSharing v (s : Hook) : Hook :=
    Build_Hook (meeting s) (socketRef s) (deviceRef s) (localStreamRef s)
      (screenStreamRef s) (sendTransportRef s) (recvTransportRef s) (producersRef s)
      (consumersRef s) (consumedProducersRef s) (producerAppDataRef s) (remoteStreamsRef
      s) (remoteParticipants s) (isConnected s) (isAudioEnabled s) (isVideoEnabled s) v
      (connectionStatus s) (optimization s) (meetingTier s) (error s) (heap s) (effects
      s).
Definition set_connectionStatus v (s : Hook) : Hook :=
    Build_Hook (meeting s) (socketRef s) (deviceRef s) (localStreamRef s)
      (screenStreamRef s) (sendTransportRef s) (recvTransportRef s) (producersRef s)
      (consumersRef s) (consumedProducersRef s) (producerAppDataRef s) (remoteStreamsRef
      s) (remoteParticipants s) (isConnected s) (isAudioEnabled s) (isVideoEnabled s)
      (isScreenSharing s) v (optimization s) (meetingTier s) (error s) (heap s) (effects
      s).
Definition set_optimization v (s : Hook) : Hook :=
    Build_Hook (meeting s) (socketRef s) (deviceRef s) (localStreamRef s)
      (screenStreamRef s) (sendTransportRef s) (recvTransportRef s) (producersRef s)
      (consumersRef s) (consumedProducersRef s) (producerAppDataRef s) (remoteStreamsRef
      s) (remoteParticipants s) (isConnected s) (isAudioEnabled s) (isVideoEnabled s)
      (isScreenSharing s) (connectionStatus s) v (meetingTier s) (error s) (heap s)
      (effects s).
Definition set_meetingTier v (s : Hook) : Hook :=
    Build_Hook (meeting s) (socketRef s) (deviceRef s) (localStreamRef s)
      (screenStreamRef s) (sendTransportRef s) (recvTransportRef s) (producersRef s)
      (consumersRef s) (consumedProducersRef s) (producerAppDataRef s) (remoteStreamsRef
      s) (remoteParticipants s) (isConnected s) (isAudioEnabled s) (isVideoEnabled s)
      (isScreenSharing s) (connectionStatus s) (optimization s) v (error s) (heap s)
      (effects s).
Definition set_error v (s : Hook) : Hook :=
    Build_Hook (meeting s) (socketRef s) (deviceRef s) (localStreamRef s)
      (screenStreamRef s) (sendTransportRef s) (recvTransportRef s) (producersRef s)
      (consumersRef s) (consumedProducersRef s) (producerAppDataRef s) (remoteStreamsRef
      s) (remoteParticipants s) (isConnected s) (isAudioEnabled s) (isVideoEnabled s)
      (isScreenSharing s) (connectionStatus s) (optimization s) (meetingTier s) v (heap s)
      (effects s).
Definition set_heap v (s : Hook) : Hook :=
    Build_Hook (meeting s) (socketRef s) (deviceRef s) (localStreamRef s)
      (screenStreamRef s) (sendTransportRef s) (recvTransportRef s) (producersRef s)
      (consumersRef s) (consumedProducersRef s) (producerAppDataRef s) (remoteStreamsRef
      s) (remoteParticipants s) (isConnected s) (isAudioEnabled s) (isVideoEnabled s)
      (isScreenSharing s) (connectionStatus s) (optimization s) (meetingTier s) (error s)
      v (effects s).
Definition set_effects v (s : Hook) : Hook :=
    Build_Hook (meeting s) (socketRef s) (deviceRef s) (localStreamRef s)
      (screenStreamRef s) (sendTransportRef s) (recvTransportRef s) (producersRef s)
      (consumersRef s) (consumedProducersRef s) (producerAppDataRef s) (remoteStreamsRef
      s) (remoteParticipants s) (isConnected s) (isAudioEnabled s) (isVideoEnabled s)
      (isScreenSharing s) (connectionStatus s) (optimization s) (meetingTier s) (error s)
      (heap s) v.


Definition sk_set_pendingProducers (v : list PendingProducer) (sk : Socket) : Socket :=
  Build_Socket (sk_meetingId sk) v (sk_transportConnected sk) (sk_produced sk).
Definition sk_set_transportConnected (v : list string) (sk : Socket) : Socket :=
  Build_Socket (sk_meetingId sk) (sk_pendingProducers sk) v (sk_produced sk).
Definition sk_set_produced (v : list ProduceWait) (sk : Socket) : Socket :=
  Build_Socket (sk_meetingId sk) (sk_pendingProducers sk) (sk_transportConnected sk) v.

(** The state a fresh mount of the hook starts from. *)
Definition initial (m : option Api.Meeting) : Hook :=
  {| meeting := m; socketRef := None; deviceRef := None;
     localStreamRef := None; screenStreamRef := None;
     sendTransportRef := None; recvTransportRef := None;
     producersRef := []; consumersRef := [];
     consumedProducersRef := ∅; producerAppDataRef := ∅;
     remoteStreamsRef := ∅; remoteParticipants := ∅;
     isConnected := false; isAudioEnabled := false; isVideoEnabled := false;
     isScreenSharing := false; connectionStatus := disconnected;
     optimization := None; meetingTier := None; error := None;
     heap := ∅; effects := [] |}.

(** Append to the effect log. *)
Definition perform (es : list Effect) (s : Hook) : Hook :=
  set_effects (effects s ++ es) s.

Definition emit (m : ClientMsg) (s : Hook) : Hook := perform [Emit m] s.

(** A JavaScript [Error]. *)
Record JsError := { err_name : string; err_message : string }.

(** [String(err)], that is [Error.prototype.toString]: the name alone when
    the message is empty, the message alone when the name is empty, and
    [name: message] otherwise. *)
Definition String_of_error (e : JsError) : string :=
  if String.eqb (err_name e) "" then err_message e
  else if String.eqb (err_message e) "" then err_name e
  else err_name e ++ ": " ++ err_message e.

(** How an awaited promise settles. *)
Inductive Settled (A : Type) :=
| resolved (a : A)
| rejected (e : JsError).
Arguments resolved {A} _.
Arguments rejected {A} _.

(** The [TypeError] of [addTrack(undefined)] and of assigning a property on
    [undefined]. *)
Definition type_error : JsError :=
  {| err_name := "TypeError"; err_message := "undefined is not an object" |}.

(** *** Publishing *)

(** [transport.on('produce', ...)], run when [sendTransport.produce] is
    called for track [t] of slot [sl]: emits ['produce'] with the fresh
    [requestId] and registers the ['produced'] handler.  [requestId] is what
    the template over [Date.now()] and [Math.random()] evaluates to in this
    turn. *)
Definition transport_on_produce (sl : Slot) (t : MediaStreamTrack)
    (next : option MediaStreamTrack) (requestId : string) (s : Hook) : Hook :=
  match socketRef s with
  | Some sk =>
      let w := {| pw_requestId := requestId; pw_slot := sl; pw_track := t;
                  pw_then := next |} in
      set_socketRef (Some (sk_set_produced (sk_produced sk ++ [w]) sk))
        (emit (produce (sk_meetingId sk) (track_kind t) requestId (slot_appData sl)) s)
  | None => s
  end.

(** [startCamera], from the point where [getUserMedia] settles. *)
Definition startCamera (gum : Settled (list MediaStreamTrack)) (requestId : string)
    (s : Hook) : Hook :=
  match gum with
  | rejected e => set_error (Some ("Camera error: " ++ String_of_error e)) s
  | resolved stream =>
      let merged :=
        match localStreamRef s with
        | Some ls => (fun videoTrack => addTrack videoTrack ls) <$> head (getVideoTracks stream)
        | None => Some stream
        end in
      match merged with
      | None => set_error (Some ("Camera error: " ++ String_of_error type_error)) s
      | Some ls' =>
          let s1 := set_isVideoEnabled true (set_localStreamRef (Some ls') s) in
          match sendTransportRef s1, meeting s1, head (getVideoTracks ls') with
          | Some _, Some _, Some track =>
              transport_on_produce camera track None requestId s1
          | _, _, _ => s1
          end
      end
  end.

(** [startMicrophone], from the point where [getUserMedia] settles. *)
Definition startMicrophone (gum : Settled (list MediaStreamTrack)) (requestId : string)
    (s : Hook) : Hook :=
  match gum with
  | rejected e => set_error (Some ("Microphone error: " ++ String_of_error e)) s
  | resolved stream =>
      let merged :=
        match localStreamRef s with
        | Some ls => (fun audioTrack => addTrack audioTrack ls) <$> head (getAudioTracks stream)
        | None => Some stream
        end in
      match merged with
      | None => set_error (Some ("Microphone error: " ++ String_of_error type_error)) s
      | Some ls' =>
          let s1 := set_isAudioEnabled true (set_localStreamRef (Some ls') s) in
          match sendTransportRef s1, meeting s1, head (getAudioTracks ls') with
          | Some _, Some _, Some track =>
              transport_on_produce microphone track None requestId s1
          | _, _, _ => s1
          end
      end
  end.

(** [startScreenShare], from the point where [getDisplayMedia] settles.  The
    audio track is published by the continuation of the video publish, see
    [produced]. *)
Definition startScreenShare (gdm : Settled (list MediaStreamTrack)) (requestId : string)
    (s : Hook) : Hook :=
  match gdm with
  | rejected e =>
      if String.eqb (err_name e) "NotAllowedError" then s
      else set_error (Some ("Screen share error: " ++ String_of_error e)) s
  | resolved stream =>
      let s1 := set_isScreenSharing true (set_screenStreamRef (Some stream) s) in
      match head (getVideoTracks stream) with
      | None =>
          set_error (Some ("Screen share error: " ++ String_of_error type_error)) s1
      | Some videoTrack =>
          match sendTransportRef s1, meeting s1 with
          | Some _, Some _ =>
              transport_on_produce screenVideo videoTrack
                (head (getAudioTracks stream)) requestId s1
          | _, _ => s1
          end
      end
  end.

(** [tracks.forEach(track => { track.stop(); stream.removeTrack(track) })] *)
Definition stop_and_remove (tracks : list MediaStreamTrack) (s : Hook) : Hook :=
  set_localStreamRef
    ((fun ls => foldl (fun acc t => removeTrack t acc) ls tracks) <$> localStreamRef s)
    (perform (TrackStop <$> tracks) s).

(** The common tail of the stop functions: notify the server, close the
    producer, free the slot. *)
Definition unpublish (sl : Slot) (kind : MediaKind) (appData : option AppData)
    (s : Hook) : Hook :=
  match JsMap.get (slot_key sl) (producersRef s), socketRef s, meeting s with
  | Some p, Some _, Some m =>
      set_producersRef (JsMap.delete (slot_key sl) (producersRef s))
        (perform [Emit (close_producer (Api.id m) (producer_id p) kind appData);
                  ProducerClose (producer_id p)] s)
  | _, _, _ => s
  end.

(** [stopCamera] *)
Definition stopCamera (s : Hook) : Hook :=
  let s1 :=
    match localStreamRef s with
    | Some ls => set_isVideoEnabled false (stop_and_remove (getVideoTracks ls) s)
    | None => s
    end in
  unpublish camera video None s1.

(** [stopMicrophone] *)
Definition stopMicrophone (s : Hook) : Hook :=
  let s1 :=
    match localStreamRef s with
    | Some ls => set_isAudioEnabled false (stop_and_remove (getAudioTracks ls) s)
    | None => s
    end in
  unpublish microphone audio None s1.

(** [stopScreenShare] *)
Definition stopScreenShare (s : Hook) : Hook :=
  let s1 :=
    match screenStreamRef s with
    | Some ss =>
        set_isScreenSharing false
          (set_screenStreamRef None (perform (TrackStop <$> getTracks ss) s))
    | None => s
    end in
  unpublish screenAudio audio (Some (slot_appData screenAudio))
    (unpublish screenVideo video (Some (slot_appData screenVideo)) s1).

(** [toggleVideo], [toggleAudio], [toggleScreenShare] *)
Definition toggleVideo (gum : Settled (list MediaStreamTrack)) (requestId : string)
    (s : Hook) : Hook :=
  if isVideoEnabled s then stopCamera s else startCamera gum requestId s.

Definition toggleAudio (gum : Settled (list MediaStreamTrack)) (requestId : string)
    (s : Hook) : Hook :=
  if isAudioEnabled s then stopMicrophone s else startMicrophone gum requestId s.

Definition toggleScreenShare (gdm : Settled (list MediaStreamTrack))
    (requestId : string) (s : Hook) : Hook :=
  if isScreenSharing s then stopScreenShare s else startScreenShare gdm requestId s.

(** *** Joining *)

(** [joinMeeting] up to its first [await]: without a meeting it reports
    that and returns; otherwise the status becomes [connecting], the error
    is cleared and the configuration is requested for the selected meeting,
    which the call's closure keeps. *)
Definition joinMeeting_called (s : Hook) : Hook :=
  match meeting s with
  | None => set_error (Some "No meeting selected") s
  | Some _ => set_error None (set_connectionStatus connecting s)
  end.

(** The rest of the [joinMeeting] call that was made while meeting [m] was
    selected, from the point where [getWebRTCConfig] and then [device.load]
    settle.  On success the socket is created and all its handlers (the
    definitions below) are registered.  The state holds the socket of
    [socketRef] only: a socket that a second [joinMeeting] replaces there
    is no longer followed. *)
Definition joinMeeting_settled (m : Api.Meeting)
    (configResponse : Api.Result Api.WebRTCConfig) (load : Settled unit)
    (s : Hook) : Hook :=
  let catch (e : JsError) :=
    set_connectionStatus fallback (set_error (Some (String_of_error e)) s) in
  match (if Api.success configResponse then Api.data configResponse else None) with
  | None =>
      catch {| err_name := "Error";
               err_message := Api.or_else (Api.error configResponse)
                                "Failed to get WebRTC config" |}
  | Some config =>
      let routerFailed := from_option Api.truthy false (Api.routerError config) in
      match Api.rtpCapabilities config with
      | Some caps =>
          if routerFailed || negb (Api.truthy caps) then set_connectionStatus fallback s
          else
            match load with
            | rejected err => catch err
            | resolved _ =>
                set_socketRef
                  (Some {| sk_meetingId := Api.id m; sk_pendingProducers := [];
                           sk_transportConnected := []; sk_produced := [] |})
                  (set_deviceRef (Some {| device_rtpCapabilities := caps |}) s)
            end
      | None => set_connectionStatus fallback s
      end
  end.

(** A [joinMeeting] call whose requests settle before anything else
    happens. *)
Definition joinMeeting (configResponse : Api.Result Api.WebRTCConfig)
    (load : Settled unit) (s : Hook) : Hook :=
  match meeting s with
  | None => joinMeeting_called s
  | Some m => joinMeeting_settled m configResponse load (joinMeeting_called s)
  end.

(** The handlers followed are those of the socket that [socketRef] holds:
    a handler runs with that socket, and not at all once [leaveMeeting] has
    disconnected it.  In the source a socket that a later [joinMeeting]
    replaced in [socketRef] stays connected; the events of such a socket
    are not turns of this model. *)
Definition on_socket (handler : Socket -> Hook -> Hook) (s : Hook) : Hook :=
  match socketRef s with
  | Some sk => handler sk s
  | None => s
  end.

(** [socket.on('connect')] *)
Definition socket_connect : Hook -> Hook :=
  on_socket (fun sk s => emit (join_meeting (sk_meetingId sk)) s).

(** [socket.on('connect_error')] *)
Definition socket_connect_error (err : JsError) : Hook -> Hook :=
  on_socket (fun _ s =>
    set_connectionStatus fallback
      (set_error (Some ("Socket connection failed: " ++ err_message err)) s)).

Record MeetingJoined := {
  mj_optimization : option OptimizationData;
  mj_existingProducers : option (list PendingProducer)
}.

(** The logging of the profile reads [config.video], [config.audio] and
    [config.features]: it goes through when there is no profile or no
    [config], or when the three objects are there. *)
Definition describable (o : option OptimizationData) : bool :=
  match o with
  | Some {| config := Some cfg |} => cfg_video cfg && cfg_audio cfg && cfg_features cfg
  | _ => true
  end.

(** [socket.on('meeting-joined')].  When the logging of the profile throws,
    the handler stops there: the flags and the profile are set, the existing
    producers are not stored and no transport is asked for. *)
Definition meeting_joined (data : MeetingJoined) : Hook -> Hook :=
  on_socket (fun sk s =>
    let s1 := set_connectionStatus connected (set_isConnected true s) in
    let s2 :=
      match mj_optimization data with
      | Some o => set_meetingTier (tier <$> config o) (set_optimization (Some o) s1)
      | None => s1
      end in
    if describable (mj_optimization data) then
      let sk' :=
        match mj_existingProducers data with
        | Some (p :: ps) => sk_set_pendingProducers (p :: ps) sk
        | _ => sk
        end in
      emit (create_transport (sk_meetingId sk) "recv")
        (emit (create_transport (sk_meetingId sk) "send")
           (set_socketRef (Some sk') s2))
    else s2).

(** Payload of ['transport-created'] with [params] that the device
    accepts.  Without [params], or with [params] that
    [createSendTransport] or [createRecvTransport] rejects, the handler
    throws before it writes anything: such an event is no turn. *)
Record TransportCreated := { tc_direction : string; tc_id : string }.

(** The [consume] request sent for an entry of [pendingProducers]. *)
Definition consume_pending (sk : Socket) (d : Device) (p : PendingProducer) : Effect :=
  Emit (consume (sk_meetingId sk) (pp_participantId p) (pp_producerId p) (pp_kind p)
          (device_rtpCapabilities d) None).

(** [socket.on('transport-created')] *)
Definition transport_created (data : TransportCreated) : Hook -> Hook :=
  on_socket (fun sk s =>
    if String.eqb (tc_direction data) "send" then
      set_sendTransportRef (Some {| transport_id := tc_id data |}) s
    else
      let s1 := set_recvTransportRef (Some {| transport_id := tc_id data |}) s in
      match sk_pendingProducers sk, deviceRef s1 with
      | p :: ps, Some d =>
          set_socketRef (Some (sk_set_pendingProducers [] sk))
            (perform (consume_pending sk d <$> (p :: ps)) s1)
      | _, _ => s1
      end).

(** [transport.on('connect', ...)] of the transport with identifier
    [transportId], fired by mediasoup before the transport is first used. *)
Definition transport_on_connect (transportId : string) : Hook -> Hook :=
  on_socket (fun sk s =>
    set_socketRef
      (Some (sk_set_transportConnected (sk_transportConnected sk ++ [transportId]) sk))
      (emit (connect_transport transportId) s)).

(** ['transport-connected']: each registered handler compares the
    acknowledged identifier with its own transport's; a handler that matches
    removes itself and calls [callback()]. *)
Definition transport_connected (transportId : string) : Hook -> Hook :=
  on_socket (fun sk s =>
    let matching := filter (fun h => h = transportId) (sk_transportConnected sk) in
    let others := filter (fun h => h ≠ transportId) (sk_transportConnected sk) in
    set_socketRef (Some (sk_set_transportConnected others sk))
      (perform (ConnectCallback <$> matching) s)).

Record Produced := { pr_producerId : string; pr_requestId : option string }.

(** The test of the ['produced'] handler,
    [!response.requestId || response.requestId === requestId]. *)
Definition produced_accepts (response : Produced) (w : ProduceWait) : bool :=
  match pr_requestId response with
  | None => true
  | Some r => negb (Api.truthy r) || String.eqb r (pw_requestId w)
  end.

(** What resumes after [callback({ id })]: the awaited
    [sendTransport.produce] yields the producer, the caller stores it under
    its slot, and [startScreenShare] goes on to publish the screen's audio
    track. *)
Definition produce_resumes (producerId requestId : string) (s : Hook)
    (w : ProduceWait) : Hook :=
  let producer := {| producer_id := producerId; producer_track := pw_track w;
                     producer_appData := slot_appData (pw_slot w) |} in
  let s1 := set_producersRef
              (JsMap.set (slot_key (pw_slot w)) producer (producersRef s)) s in
  match pw_then w, sendTransportRef s1 with
  | Some audioTrack, Some _ =>
      transport_on_produce screenAudio audioTrack None requestId s1
  | _, _ => s1
  end.

(** ['produced']: every registered handler that accepts the response removes
    itself and calls [callback]; then the awaiting publishers resume.
    [requestId] is the identifier generated by a publish started in this
    turn. *)
Definition produced (response : Produced) (requestId : string) : Hook -> Hook :=
  on_socket (fun sk s =>
    let accepting := filter (fun w => produced_accepts response w = true)
                       (sk_produced sk) in
    let others := filter (fun w => produced_accepts response w = false)
                    (sk_produced sk) in
    let s1 :=
      perform ((fun w => ProduceCallback (pw_requestId w) (pr_producerId response))
                 <$> accepting)
        (set_socketRef (Some (sk_set_produced others sk)) s) in
    foldl (produce_resumes (pr_producerId response) requestId) s1 accepting).

(** The [setTimeout] of the ['produce'] callback: after ten seconds the
    handler waiting for [requestId] is removed. *)
Definition produce_timeout (requestId : string) : Hook -> Hook :=
  on_socket (fun sk s =>
    set_socketRef
      (Some (sk_set_produced
               (filter (fun w => pw_requestId w ≠ requestId) (sk_produced sk)) sk))
      s).

(** *** Consuming *)

Record NewProducer := {
  np_participantId : string;
  np_producerId : string;
  np_kind : MediaKind;
  np_appData : option AppData
}.

(** [socket.on('new-producer')] *)
Definition new_producer (data : NewProducer) : Hook -> Hook :=
  on_socket (fun sk s =>
    if decide (np_producerId data ∈ consumedProducersRef s) then s
    else
      match recvTransportRef s, deviceRef s with
      | Some _, Some d =>
          let s1 :=
            match np_appData data with
            | Some a =>
                set_producerAppDataRef
                  (<[np_producerId data := a]> (producerAppDataRef s)) s
            | None => s
            end in
          let s2 :=
            set_consumedProducersRef
              ({[np_producerId data]} ∪ consumedProducersRef s1) s1 in
          emit (consume (sk_meetingId sk) (np_participantId data) (np_producerId data)
                  (np_kind data) (device_rtpCapabilities d) (np_appData data)) s2
      | _, _ => s
      end).

Record Consumed := {
  cd_id : string;
  cd_producerId : string;
  cd_kind : MediaKind;
  cd_producerParticipantId : string;
  cd_appData : option AppData
}.

(** [appData?.type === 'screen'] *)
Definition is_type (ty : string) (appData : option AppData) : bool :=
  match appData with
  | Some {| ad_type := Some t |} => String.eqb t ty
  | _ => false
  end.

(** [data.appData || storedAppData] *)
Definition effective_appData (given : option AppData) (producerId : string)
    (s : Hook) : option AppData :=
  match given with
  | Some a => Some a
  | None => producerAppDataRef s !! producerId
  end.

(** [if (!slot) slot = new MediaStream(); slot.addTrack(track)] on the heap
    of remote streams; returns the slot's reference. *)
Definition attach (slot : option nat) (track : MediaStreamTrack)
    (h : gmap nat (list MediaStreamTrack)) : nat * gmap nat (list MediaStreamTrack) :=
  match slot with
  | Some r => (r, alter (addTrack track) r h)
  | None => let r := fresh (dom h) in (r, <[r := [track]]> h)
  end.

Definition empty_streams : Streams :=
  {| st_camera := None; st_screen := None; st_audio := None |}.

(** [socket.on('consumed')], from the point where [recvTransport.consume]
    settles with the consumer's track; [resumed] tells whether the awaited
    [consumer.resume()] then resolves. *)
Definition consumed (data : Consumed) (consumer : Settled MediaStreamTrack)
    (resumed : bool) : Hook -> Hook :=
  on_socket (fun sk s =>
    match recvTransportRef s, consumer with
    | None, _ => s
    | Some _, rejected _ => s
    | Some _, resolved track =>
        let c := {| consumer_id := cd_id data; consumer_producerId := cd_producerId data;
                    consumer_track := track |} in
        let s1 := emit (resume_consumer (cd_id data))
                    (set_consumersRef (JsMap.set (cd_id data) c (consumersRef s)) s) in
        if negb resumed then s1
        else
          let participantId := cd_producerParticipantId data in
          let appData := effective_appData (cd_appData data) (cd_producerId data) s1 in
          let isScreen := is_type "screen" appData in
          let streams := default empty_streams (remoteStreamsRef s1 !! participantId) in
          let '(streams', h') :=
            match cd_kind data with
            | video =>
                if isScreen then
                  let '(r, h) := attach (st_screen streams) track (heap s1) in
                  ({| st_camera := st_camera streams; st_screen := Some r;
                      st_audio := st_audio streams |}, h)
                else
                  let '(r, h) := attach (st_camera streams) track (heap s1) in
                  ({| st_camera := Some r; st_screen := st_screen streams;
                      st_audio := st_audio streams |}, h)
            | audio =>
                let '(r, h) := attach (st_audio streams) track (heap s1) in
                ({| st_camera := st_camera streams; st_screen := st_screen streams;
                    st_audio := Some r |}, h)
            end in
          let existing := remoteParticipants s1 !! participantId in
          let name := Api.or_else (userName <$> existing) "Participant" in
          set_remoteParticipants
            (<[participantId :=
                 {| odId := participantId; userName := name;
                    cameraStream := st_camera streams';
                    screenStream := st_screen streams';
                    audioStream := st_audio streams' |}]> (remoteParticipants s1))
            (set_remoteStreamsRef (<[participantId := streams']> (remoteStreamsRef s1))
               (set_heap h' s1))
    end).

(** [socket.on('participant-joined')] only logs. *)
Definition participant_joined : Hook -> Hook := on_socket (fun _ s => s).

(** [socket.on('participant-left')] *)
Definition participant_left (participantId : string) : Hook -> Hook :=
  on_socket (fun _ s =>
    set_remoteStreamsRef (delete participantId (remoteStreamsRef s))
      (set_remoteParticipants (delete participantId (remoteParticipants s)) s)).

Record ProducerClosed := {
  pc_participantId : string;
  pc_producerId : string;
  pc_kind : MediaKind;
  pc_appData : option AppData
}.

(** The [for ... of] loop of ['producer-closed']: the first consumer, in
    iteration order, of the closed producer is closed and removed. *)
Definition close_consumer_of (producerId : string) (s : Hook) : Hook :=
  match List.find (fun kc => String.eqb (consumer_producerId (snd kc)) producerId)
          (consumersRef s) with
  | Some (consumerId, c) =>
      set_consumersRef (JsMap.delete consumerId (consumersRef s))
        (perform [ConsumerClose (consumer_id c)] s)
  | None => s
  end.

(** [stream.getTracks().forEach(track => { stream.removeTrack(track);
    track.stop() })] on the remote stream at reference [r]. *)
Definition drain_stream (r : nat) (s : Hook) : Hook :=
  let tracks := default [] (heap s !! r) in
  set_heap (alter (fun ms => foldl (fun acc t => removeTrack t acc) ms tracks) r (heap s))
    (perform (TrackStop <$> tracks) s).

(** [socket.on('producer-closed')] *)
Definition producer_closed (data : ProducerClosed) : Hook -> Hook :=
  on_socket (fun _ s =>
    let s1 := set_consumedProducersRef
                (consumedProducersRef s ∖ {[pc_producerId data]}) s in
    let appData := effective_appData (pc_appData data) (pc_producerId data) s1 in
    let isScreen := is_type "screen" appData in
    let s2 := set_producerAppDataRef
                (delete (pc_producerId data) (producerAppDataRef s1)) s1 in
    let s3 := close_consumer_of (pc_producerId data) s2 in
    match remoteStreamsRef s3 !! pc_participantId data with
    | None => s3
    | Some streams =>
        let '(streams', s4) :=
          match pc_kind data, isScreen, streams with
          | video, true, {| st_screen := Some r |} =>
              ({| st_camera := st_camera streams; st_screen := None;
                  st_audio := st_audio streams |}, drain_stream r s3)
          | video, false, {| st_camera := Some r |} =>
              ({| st_camera := None; st_screen := st_screen streams;
                  st_audio := st_audio streams |}, drain_stream r s3)
          | audio, _, {| st_audio := Some r |} =>
              ({| st_camera := st_camera streams; st_screen := st_screen streams;
                  st_audio := None |}, drain_stream r s3)
          | _, _, _ => (streams, s3)
          end in
        let s5 := set_remoteStreamsRef
                    (<[pc_participantId data := streams']> (remoteStreamsRef s4)) s4 in
        match remoteParticipants s5 !! pc_participantId data with
        | Some existing =>
            set_remoteParticipants
              (<[pc_participantId data :=
                   {| odId := odId existing; userName := userName existing;
                      cameraStream := st_camera streams';
                      screenStream := st_screen streams';
                      audioStream := st_audio streams' |}]> (remoteParticipants s5))
              s5
        | None => s5
        end
    end).

(** Payload of ['meeting:config-updated']; [cu_bandwidthEstimate] tells
    whether the payload has a [bandwidthEstimate] object. *)
Record ConfigUpdated := {
  cu_config : option DynamicMeetingConfig;
  cu_bandwidthEstimate : bool
}.

(** [socket.on('meeting:config-updated')] replaces the profile, after
    logging [config.tier], fields of [config.video] and fields of
    [bandwidthEstimate]: when one of them is missing the handler throws
    before it writes. *)
Definition config_updated (data : ConfigUpdated) : Hook -> Hook :=
  on_socket (fun _ s =>
    match cu_config data with
    | Some cfg =>
        if cfg_video cfg && cu_bandwidthEstimate data
        then set_meetingTier (Some (tier cfg))
               (set_optimization (Some {| config := Some cfg |}) s)
        else s
    | None => s
    end).

(** [socket.on('error')] *)
Definition socket_error (message : option string) : Hook -> Hook :=
  on_socket (fun _ s => set_error (Some (Api.or_else message "Socket error")) s).

(** [socket.on('disconnect')] *)
Definition socket_disconnect : Hook -> Hook :=
  on_socket (fun _ s => set_connectionStatus disconnected (set_isConnected false s)).

(** *** Leaving *)

(** [ref.current?.close(); ref.current = null] and its likes: the effect is
    performed only when the reference holds an object. *)
Definition when_some {A : Type} (o : option A) (f : A -> list Effect) : list Effect :=
  match o with
  | Some a => f a
  | None => []
  end.

(** [leaveMeeting] *)
Definition leaveMeeting (s : Hook) : Hook :=
  let s1 := set_consumersRef []
              (perform ((fun c => ConsumerClose (consumer_id c))
                          <$> JsMap.values (consumersRef s)) s) in
  let s2 := set_producersRef []
              (perform ((fun p => ProducerClose (producer_id p))
                          <$> JsMap.values (producersRef s1)) s1) in
  let s3 := set_remoteStreamsRef ∅ (set_consumedProducersRef ∅ s2) in
  let s4 := set_sendTransportRef None
              (perform (when_some (sendTransportRef s3)
                          (fun t => [TransportClose (transport_id t)])) s3) in
  let s5 := set_recvTransportRef None
              (perform (when_some (recvTransportRef s4)
                          (fun t => [TransportClose (transport_id t)])) s4) in
  let s6 := set_localStreamRef None
              (perform (when_some (localStreamRef s5)
                          (fun ls => TrackStop <$> getTracks ls)) s5) in
  let s7 := set_screenStreamRef None
              (perform (when_some (screenStreamRef s6)
                          (fun ss => TrackStop <$> getTracks ss)) s6) in
  let s8 := set_deviceRef None
              (set_socketRef None
                 (perform (when_some (socketRef s7) (fun _ => [SocketDisconnect])) s7)) in
  set_remoteParticipants ∅
    (set_connectionStatus disconnected
       (set_isScreenSharing false
          (set_isAudioEnabled false
             (set_isVideoEnabled false
                (set_isConnected false s8))))).

(** Everything [leaveMeeting] does to the outside world from state [s], in
    order. *)
Definition teardown_effects (s : Hook) : list Effect :=
  ((fun c => ConsumerClose (consumer_id c)) <$> JsMap.values (consumersRef s))
  ++ ((fun p => ProducerClose (producer_id p)) <$> JsMap.values (producersRef s))
  ++ when_some (sendTransportRef s) (fun t => [TransportClose (transport_id t)])
  ++ when_some (recvTransportRef s) (fun t => [TransportClose (transport_id t)])
  ++ when_some (localStreamRef s) (fun ls => TrackStop <$> ls)
  ++ when_some (screenStreamRef s) (fun ss => TrackStop <$> ss)
  ++ when_some (socketRef s) (fun _ => [SocketDisconnect]).

(** *** Observations on the effect log *)

(** The effects of a turn that took [before] to [after]. *)
Definition performed (before after : Hook) : list Effect :=
  drop (length (effects before)) (effects after).

(** Whether an effect is a [consume] request for producer [p]. *)
Definition is_consume_for (p : string) (e : Effect) : bool :=
  match e with
  | Emit (consume _ _ q _ _ _) => String.eqb q p
  | _ => false
  end.

(** Number of [consume] requests for [p] in an effect log. *)
Definition consume_requests (p : string) (es : list Effect) : nat :=
  length (filter (fun e => is_consume_for p e = true) es).

(** The request that ['new-producer'] emits for an announcement. *)
Definition request_of (sk : Socket) (d : Device) (data : NewProducer) : ClientMsg :=
  consume (sk_meetingId sk) (np_participantId data) (np_producerId data)
    (np_kind data) (device_rtpCapabilities d) (np_appData data).

(** A ['produce'] request. *)
Definition is_produce_request (e : Effect) : Prop :=
  match e with
  | Emit (produce _ _ _ _) => True
  | _ => False
  end.

(** Closing a consumer. *)
Definition is_consumer_close (e : Effect) : Prop :=
  match e with
  | ConsumerClose _ => True
  | _ => False
  end.

(** Closing a producer, or telling the server so. *)
Definition is_close (e : Effect) : Prop :=
  match e with
  | Emit (close_producer _ _ _ _) => True
  | ProducerClose _ => True
  | _ => False
  end.

(** Signaling traffic: anything sent on the socket. *)
Definition is_traffic (e : Effect) : Prop :=
  match e with
  | Emit _ => True
  | _ => False
  end.

(** The tracks of the stream in a bundle slot. *)
Definition slot_tracks (slot : option nat) (s : Hook) : list MediaStreamTrack :=
  match slot with
  | Some r => default [] (heap s !! r)
  | None => []
  end.

(** Whether a bundle has a populated slot. *)
Definition populated (b : Streams) : bool :=
  bool_decide (is_Some (st_camera b)) || bool_decide (is_Some (st_screen b))
  || bool_decide (is_Some (st_audio b)).

(** *** Publishing, from start to acknowledgment *)

(** The server's acknowledgment of the ['produce'] request [requestId];
    [next] is the identifier generated by a publish that resumes in the same
    turn. *)
Definition acknowledge (requestId producerId next : string) : Hook -> Hook :=
  produced {| pr_producerId := producerId; pr_requestId := Some requestId |} next.

(** The identifiers of one publish: the request and producer identifiers of
    the track, and those of the screen's audio track. *)
Record Tokens := {
  tk_request : string;
  tk_producer : string;
  tk_audioRequest : string;
  tk_audioProducer : string
}.

(** [publish(slot, stream)]: the start function that fills the slot, run
    from the point where the capture resolves with [stream], followed by
    the acknowledgments of its ['produce'] requests.  The two screen slots
    are filled by one [startScreenShare]. *)
Definition publish (sl : Slot) (stream : list MediaStreamTrack) (k : Tokens)
    (s : Hook) : Hook :=
  match sl with
  | camera =>
      acknowledge (tk_request k) (tk_producer k) (tk_audioRequest k)
        (startCamera (resolved stream) (tk_request k) s)
  | microphone =>
      acknowledge (tk_request k) (tk_producer k) (tk_audioRequest k)
        (startMicrophone (resolved stream) (tk_request k) s)
  | screenVideo | screenAudio =>
      let s1 := acknowledge (tk_request k) (tk_producer k) (tk_audioRequest k)
                  (startScreenShare (resolved stream) (tk_request k) s) in
      match head (getAudioTracks stream) with
      | Some _ =>
          acknowledge (tk_audioRequest k) (tk_audioProducer k) (tk_audioRequest k) s1
      | None => s1
      end
  end.

(** The track that a capture offers to a slot. *)
Definition captured (sl : Slot) (stream : list MediaStreamTrack)
  : option MediaStreamTrack :=
  match sl with
  | camera | screenVideo => head (getVideoTracks stream)
  | microphone | screenAudio => head (getAudioTracks stream)
  end.

(** A capture serves a slot when it has a track for it; a screen capture
    always has a video track. *)
Definition captures (sl : Slot) (stream : list MediaStreamTrack) : Prop :=
  is_Some (captured sl stream)
  /\ (sl = screenAudio -> is_Some (captured screenVideo stream)).

(** The producer identifier that a publish assigns to a slot. *)
Definition slot_producer (sl : Slot) (k : Tokens) : string :=
  match sl with
  | screenAudio => tk_audioProducer k
  | _ => tk_producer k
  end.

(** The hook can publish: it is joined through socket [sk], no publish is
    in flight, the send transport exists and a meeting is selected. *)
Definition can_publish (sk : Socket) (s : Hook) : Prop :=
  socketRef s = Some sk /\ sk_produced sk = []
  /\ is_Some (sendTransportRef s) /\ is_Some (meeting s).

(** What one accepted publish does: it stores the producer under the slot's
    key, and neither closes a producer nor tells the server to. *)
Definition stores (sl : Slot) (p : Producer) (sk : Socket) (s s' : Hook) : Prop :=
  socketRef s' = Some sk
  /\ sendTransportRef s' = sendTransportRef s
  /\ meeting s' = meeting s
  /\ producersRef s' = JsMap.set (slot_key sl) p (producersRef s)
  /\ exists es,
       effects s' = (effects s ++ es)%list /\ Forall (fun e => ~ is_close e) es.

(** *** The user's media controls *)

Inductive MediaAction :=
| ToggleVideo (gum : Settled (list MediaStreamTrack)) (requestId : string)
| ToggleAudio (gum : Settled (list MediaStreamTrack)) (requestId : string)
| ToggleScreenShare (gdm : Settled (list MediaStreamTrack)) (requestId : string)
| StartCamera (gum : Settled (list MediaStreamTrack)) (requestId : string)
| StartMicrophone (gum : Settled (list MediaStreamTrack)) (requestId : string)
| StartScreenShare (gdm : Settled (list MediaStreamTrack)) (requestId : string)
| StopCamera
| StopMicrophone
| StopScreenShare.

(** The turn of a control. *)
Definition act (s : Hook) (a : MediaAction) : Hook :=
  match a with
  | ToggleVideo gum requestId => toggleVideo gum requestId s
  | ToggleAudio gum requestId => toggleAudio gum requestId s
  | ToggleScreenShare gdm requestId => toggleScreenShare gdm requestId s
  | StartCamera gum requestId => startCamera gum requestId s
  | StartMicrophone gum requestId => startMicrophone gum requestId s
  | StartScreenShare gdm requestId => startScreenShare gdm requestId s
  | StopCamera => stopCamera s
  | StopMicrophone => stopMicrophone s
  | StopScreenShare => stopScreenShare s
  end.


(** *** Turns of the hook *)

(** Everything that can happen to a mounted hook: a render with another
    meeting, the user's controls, [joinMeeting] and [leaveMeeting], the
    events of the socket, of the transports and of the timers.  A
    [joinMeeting] call is either one turn ([Join]) or two, the call
    ([JoinCalled]) and, after other turns, its continuation ([JoinSettled])
    with the meeting that was selected at the call. *)
Inductive Event :=
| Render (m : option Api.Meeting)
| Media (a : MediaAction)
| Join (configResponse : Api.Result Api.WebRTCConfig) (load : Settled unit)
| JoinCalled
| JoinSettled (m : Api.Meeting) (configResponse : Api.Result Api.WebRTCConfig)
    (load : Settled unit)
| Leave
| SocketConnected
| SocketConnectError (err : JsError)
| OnMeetingJoined (data : MeetingJoined)
| OnTransportCreated (data : TransportCreated)
| TransportOnConnect (transportId : string)
| OnTransportConnected (transportId : string)
| OnProduced (response : Produced) (requestId : string)
| ProduceTimeout (requestId : string)
| OnNewProducer (data : NewProducer)
| OnConsumed (data : Consumed) (consumer : Settled MediaStreamTrack) (resumed : bool)
| OnParticipantJoined
| OnParticipantLeft (participantId : string)
| OnProducerClosed (data : ProducerClosed)
| OnConfigUpdated (data : ConfigUpdated)
| OnSocketError (message : option string)
| SocketDisconnected.

(** The turn of an event. *)
Definition step (s : Hook) (e : Event) : Hook :=
  match e with
  | Render m => set_meeting m s
  | Media a => act s a
  | Join configResponse load => joinMeeting configResponse load s
  | JoinCalled => joinMeeting_called s
  | JoinSettled m configResponse load => joinMeeting_settled m configResponse load s
  | Leave => leaveMeeting s
  | SocketConnected => socket_connect s
  | SocketConnectError err => socket_connect_error err s
  | OnMeetingJoined data => meeting_joined data s
  | OnTransportCreated data => transport_created data s
  | TransportOnConnect transportId => transport_on_connect transportId s
  | OnTransportConnected transportId => transport_connected transportId s
  | OnProduced response requestId => produced response requestId s
  | ProduceTimeout requestId => produce_timeout requestId s
  | OnNewProducer data => new_producer data s
  | OnConsumed data consumer resumed => consumed data consumer resumed s
  | OnParticipantJoined => participant_joined s
  | OnParticipantLeft participantId => participant_left participantId s
  | OnProducerClosed data => producer_closed data s
  | OnConfigUpdated data => config_updated data s
  | OnSocketError message => socket_error message s
  | SocketDisconnected => socket_disconnect s
  end.

(** The states a hook can be in: those that turns lead to from a mount. *)
Definition reachable (s : Hook) : Prop :=
  exists m es, s = foldl step (initial m) es.

(** The turns after which a producer may be consumed anew:
    ['producer-closed'] for it, and [leaveMeeting]. *)
Definition forgets (p : string) (e : Event) : bool :=
  match e with
  | OnProducerClosed data => String.eqb (pc_producerId data) p
  | Leave => true
  | _ => false
  end.

(** A turn that leaves the remote streams alone. *)
Definition keeps_streams (s s' : Hook) : Prop :=
  remoteStreamsRef s' = remoteStreamsRef s /\ heap s' = heap s.

(** The stream references held by a bundle. *)
Definition slot_refs (b : Streams) : list nat :=
  omap id [st_camera b; st_screen b; st_audio b].

(** A bundle holds distinct streams, all of them allocated in heap [h]. *)
Definition bundle_ok (b : Streams) (h : gmap nat (list MediaStreamTrack)) : Prop :=
  NoDup (slot_refs b) /\ forall r, r ∈ slot_refs b -> is_Some (h !! r).

(** Every bundle of the registry does. *)
Definition streams_wf (s : Hook) : Prop :=
  forall participantId b,
    remoteStreamsRef s !! participantId = Some b -> bundle_ok b (heap s).

(** *** Readings of the specification *)

(** The reading of "publishing [t2] into the slot that holds [t1]'s producer
    leaves one producer, bound to [t2], and sends a close notification for
    [t1]'s producer", for the slot [sl]. *)
Definition republish_closes_previous (sl : Slot)
    (stream1 stream2 : list MediaStreamTrack) (k1 k2 : Tokens) (s : Hook) : Prop :=
  let s2 := publish sl stream2 k2 (publish sl stream1 k1 s) in
  JsMap.occurrences (slot_key sl) (producersRef s2) = 1
  /\ (producer_track <$> JsMap.get (slot_key sl) (producersRef s2))
     = captured sl stream2
  /\ exists meetingId kind appData,
       Emit (close_producer meetingId (slot_producer sl k1) kind appData)
       ∈ performed s s2.

(** The reading of "a produce negotiation completes only for an
    acknowledgment whose correlation token matches the outstanding request":
    whenever the turn of a ['produced'] acknowledgment calls the callback of
    the request [req], the acknowledgment carries the token [req]. *)
Definition completes_only_matching (response : Produced) (requestId : string)
    (s : Hook) : Prop :=
  forall req producerId,
    ProduceCallback req producerId ∈ performed s (produced response requestId s) ->
    pr_requestId response = Some req.



(** The reading of "a producer-closed event that leaves no slot populated
    removes the participant's bundle": after the event, a bundle that the
    registry still holds for the participant has a populated slot. *)
Definition emptied_bundle_removed (data : ProducerClosed) (s : Hook) : Prop :=
  forall b,
    remoteStreamsRef (producer_closed data s) !! pc_participantId data = Some b ->
    populated b = true.

(** *** A sample session *)

Definition sample_meeting : Api.Meeting :=
  {| Api.id := "m1"; Api.title := "Standup"; Api.meeting_code := "abc-defg";
     Api.meeting_link := "https://meet/abc-defg"; Api.meeting_type := "instant";
     Api.meeting_status := "active"; Api.creator_id := "u1"; Api.campus_id := "c1";
     Api.max_participants := 50%Z;
     Api.settings :=
       {| Api.allow_screen_share := true; Api.allow_chat := true;
          Api.mute_on_entry := false; Api.allow_anonymous_join := true;
          Api.waiting_room_enabled := Some false; Api.auto_admit := Some true |} |}.

Definition sample_config : Api.Result Api.WebRTCConfig :=
  {| Api.success := true;
     Api.data := Some {| Api.iceServers := []; Api.rtpCapabilities := Some "caps";
                         Api.routerError := None |};
     Api.error := None |}.

(** The hook after [joinMeeting], ['connect'] and ['meeting-joined'] with
    no existing producers: the server has been asked for both transports,
    none has been created yet. *)
Definition sample_joined : Hook :=
  meeting_joined {| mj_optimization := None; mj_existingProducers := None |}
    (socket_connect
       (joinMeeting sample_config (resolved ()) (initial (Some sample_meeting)))).

(** ... after the send transport was created. *)
Definition sample_sending : Hook :=
  transport_created {| tc_direction := "send"; tc_id := "T-send" |} sample_joined.

(** ... after both transports were created. *)
Definition sample_ready : Hook :=
  transport_created {| tc_direction := "recv"; tc_id := "T-recv" |} sample_sending.

(** Two announcements of the same producer. *)
Definition dup_first : NewProducer :=
  {| np_participantId := "alice"; np_producerId := "P1"; np_kind := video;
     np_appData := None |}.

Definition dup_second : NewProducer :=
  {| np_participantId := "alice"; np_producerId := "P1"; np_kind := video;
     np_appData := Some {| ad_type := Some "screen" |} |}.

Definition sample_track : MediaStreamTrack :=
  {| track_id := "track-1"; track_kind := video |}.

(** ... after alice's camera producer [P1] was announced and consumed. *)
Definition sample_viewing : Hook :=
  consumed {| cd_id := "C1"; cd_producerId := "P1"; cd_kind := video;
              cd_producerParticipantId := "alice"; cd_appData := None |}
    (resolved sample_track) true
    (new_producer dup_first sample_ready).

(** The server's notice that alice closed [P1]. *)
Definition sample_closed : ProducerClosed :=
  {| pc_participantId := "alice"; pc_producerId := "P1"; pc_kind := video;
     pc_appData := None |}.

Definition sample_screen_track : MediaStreamTrack :=
  {| track_id := "track-2"; track_kind := video |}.

(** ... after alice's screen producer [P2] was announced and consumed as
    well. *)
Definition sample_sharing : Hook :=
  consumed {| cd_id := "C2"; cd_producerId := "P2"; cd_kind := video;
              cd_producerParticipantId := "alice";
              cd_appData := Some {| ad_type := Some "screen" |} |}
    (resolved sample_screen_track) true
    (new_producer {| np_participantId := "alice"; np_producerId := "P2";
                     np_kind := video;
                     np_appData := Some {| ad_type := Some "screen" |} |}
       sample_viewing).

(** The server's notice that alice closed her screen producer [P2]. *)
Definition sample_screen_closed : ProducerClosed :=
  {| pc_participantId := "alice"; pc_producerId := "P2"; pc_kind := video;
     pc_appData := Some {| ad_type := Some "screen" |} |}.

(** Two camera tracks of the local user. *)
Definition sample_camera_track : MediaStreamTrack :=
  {| track_id := "cam-1"; track_kind := video |}.

Definition sample_camera_track' : MediaStreamTrack :=
  {| track_id := "cam-2"; track_kind := video |}.

(** The sample session with a camera publish in flight: ['produce'] was
    emitted with the token [req-1] and its acknowledgment is awaited. *)
Definition sample_publishing : Hook :=
  startCamera (resolved [sample_camera_track]) "req-1" sample_ready.

(** An acknowledgment that carries no request identifier. *)
Definition untagged_ack : Produced :=
  {| pr_producerId := "PX"; pr_requestId := None |}.

(** The identifiers of two publishes. *)
Definition sample_tokens : Tokens :=
  {| tk_request := "req-1"; tk_producer := "P-1";
     tk_audioRequest := "req-1a"; tk_audioProducer := "P-1a" |}.

Definition sample_tokens' : Tokens :=
  {| tk_request := "req-2"; tk_producer := "P-2";
     tk_audioRequest := "req-2a"; tk_audioProducer := "P-2a" |}.


(** *** Invariants of the registries *)

(** A registry of producers that holds at most one producer per slot, each
    under its slot's key and with its slot's discriminator. *)
Definition producers_ok (m : list (string * Producer)) : Prop :=
  NoDup (JsMap.keys m)
  /\ forall k p, (k, p) ∈ m ->
       exists sl, k = slot_key sl /\ producer_appData p = slot_appData sl.

(** A registry of consumers whose keys are distinct and are the consumers'
    own identifiers. *)
Definition consumers_ok (m : list (string * Consumer)) : Prop :=
  NoDup (JsMap.keys m) /\ forall k c, (k, c) ∈ m -> consumer_id c = k.

(** The streams of a participant as displayed. *)
Definition shown (e : RemoteParticipant) : Streams :=
  {| st_camera := cameraStream e; st_screen := screenStream e;
     st_audio := audioStream e |}.

(** The participants displayed are those of the registry, with the streams
    of their bundles. *)
Definition display_in_sync (s : Hook) : Prop :=
  forall participantId,
    (shown <$> remoteParticipants s !! participantId)
    = remoteStreamsRef s !! participantId.

(** *** More of the sample session *)

(** The turns that lead to [sample_sharing]. *)
Definition sample_turns : list Event :=
  [ Join sample_config (resolved ());
    SocketConnected;
    OnMeetingJoined {| mj_optimization := None; mj_existingProducers := None |};
    OnTransportCreated {| tc_direction := "send"; tc_id := "T-send" |};
    OnTransportCreated {| tc_direction := "recv"; tc_id := "T-recv" |};
    OnNewProducer dup_first;
    OnConsumed {| cd_id := "C1"; cd_producerId := "P1"; cd_kind := video;
                  cd_producerParticipantId := "alice"; cd_appData := None |}
      (resolved sample_track) true;
    OnNewProducer {| np_participantId := "alice"; np_producerId := "P2";
                     np_kind := video;
                     np_appData := Some {| ad_type := Some "screen" |} |};
    OnConsumed {| cd_id := "C2"; cd_producerId := "P2"; cd_kind := video;
                  cd_producerParticipantId := "alice";
                  cd_appData := Some {| ad_type := Some "screen" |} |}
      (resolved sample_screen_track) true ].

(** ... and on to a state in which the local camera is published too. *)
Definition sample_published : Hook :=
  publish camera [sample_camera_track] sample_tokens sample_sharing.

Definition sample_published_turns : list Event :=
  sample_turns
  ++ [ Media (StartCamera (resolved [sample_camera_track]) "req-1");
       OnProduced {| pr_producerId := "P-1"; pr_requestId := Some "req-1" |}
         "req-1a" ].

(** *** Unpublishing *)

(** The stop function that frees a slot; the two screen slots are freed by
    one [stopScreenShare]. *)
Definition stop (sl : Slot) : Hook -> Hook :=
  match sl with
  | camera => stopCamera
  | microphone => stopMicrophone
  | screenVideo | screenAudio => stopScreenShare
  end.

(** Whether the stop function of slot [sl] also frees slot [sl']. *)
Definition stops (sl sl' : Slot) : bool :=
  match sl, sl' with
  | camera, camera | microphone, microphone => true
  | (screenVideo | screenAudio), (screenVideo | screenAudio) => true
  | _, _ => false
  end.

(** The [kind] and the [appData] of a slot's ['close-producer'] message. *)
Definition slot_kind (sl : Slot) : MediaKind :=
  match sl with
  | camera | screenVideo => video
  | microphone | screenAudio => audio
  end.

Definition close_appData (sl : Slot) : option AppData :=
  match sl with
  | camera | microphone => None
  | screenVideo | screenAudio => Some (slot_appData sl)
  end.

(** The notification and the close that free a slot. *)
Definition unpublishing (m : Api.Meeting) (sl : Slot) (p : Producer) : list Effect :=
  [Emit (close_producer (Api.id m) (producer_id p) (slot_kind sl) (close_appData sl));
   ProducerClose (producer_id p)].

(** Stopping a local track. *)
Definition is_track_stop (e : Effect) : Prop :=
  match e with
  | TrackStop _ => True
  | _ => False
  end.

(** The state in which a stop function reaches its tail: the local tracks
    are stopped, the producers not yet looked at. *)
Definition tracks_stopped (sl : Slot) (s : Hook) : Hook :=
  match sl with
  | camera =>
      match localStreamRef s with
      | Some ls => set_isVideoEnabled false (stop_and_remove (getVideoTracks ls) s)
      | None => s
      end
  | microphone =>
      match localStreamRef s with
      | Some ls => set_isAudioEnabled false (stop_and_remove (getAudioTracks ls) s)
      | None => s
      end
  | screenVideo | screenAudio =>
      match screenStreamRef s with
      | Some ss =>
          set_isScreenSharing false
            (set_screenStreamRef None (perform (TrackStop <$> getTracks ss) s))
      | None => s
      end
  end.


(** *** The flags the hook returns *)

(** The media flags agree with the references behind them: the screen is
    marked shared exactly while a screen stream is held, camera and
    microphone are marked enabled only while a local stream is held. *)
Definition flags_ok (s : Hook) : Prop :=
  (isScreenSharing s = true <-> is_Some (screenStreamRef s))
  /\ (isVideoEnabled s = true -> is_Some (localStreamRef s))
  /\ (isAudioEnabled s = true -> is_Some (localStreamRef s)).

(** The local media of the hook and their flags. *)
Definition local_media (s : Hook)
  : bool * bool * bool * option (list MediaStreamTrack)
    * option (list MediaStreamTrack) :=
  (isVideoEnabled s, isAudioEnabled s, isScreenSharing s, localStreamRef s,
   screenStreamRef s).

(** *** Where a consumed track goes *)

(** The three streams of a remote participant's bundle. *)
Inductive RemoteSlot := remoteCamera | remoteScreen | remoteAudio.

Definition slot_of (sl : RemoteSlot) (b : Streams) : option nat :=
  match sl with
  | remoteCamera => st_camera b
  | remoteScreen => st_screen b
  | remoteAudio => st_audio b
  end.

(** The stream that ['consumed'] adds the track to: by the kind and, for
    video, by the type in the event's [appData] or else in the [appData]
    stored with the announcement. *)
Definition routed (data : Consumed) (s : Hook) : RemoteSlot :=
  match cd_kind data with
  | video =>
      if is_type "screen" (effective_appData (cd_appData data) (cd_producerId data) s)
      then remoteScreen else remoteCamera
  | audio => remoteAudio
  end.

(** The stream that ['producer-closed'] clears: chosen like [routed], from
    the event's kind and [appData] or else the [appData] stored with the
    announcement. *)
Definition closed_slot (data : ProducerClosed) (s : Hook) : RemoteSlot :=
  match pc_kind data with
  | video =>
      if is_type "screen" (effective_appData (pc_appData data) (pc_producerId data) s)
      then remoteScreen else remoteCamera
  | audio => remoteAudio
  end.

(** *** The sample session before ['meeting-joined'] *)

Definition sample_socket : Socket :=
  {| sk_meetingId := "m1"; sk_pendingProducers := []; sk_transportConnected := [];
     sk_produced := [] |}.

Definition sample_device : Device := {| device_rtpCapabilities := "caps" |}.

(** The hook after [joinMeeting] and ['connect']. *)
Definition sample_connected : Hook :=
  socket_connect (joinMeeting sample_config (resolved ()) (initial (Some sample_meeting))).

(** ['meeting-joined'] that lists alice's camera producer. *)
Definition sample_existing : MeetingJoined :=
  {| mj_optimization := None;
     mj_existingProducers :=
       Some [{| pp_participantId := "alice"; pp_producerId := "P1"; pp_kind := video |}] |}.
End WebRTC.

(** ** [src/App.tsx]: call lifecycle and admission gate *)
Module App.

Inductive CallType := audio_call | video_call.

(** Payload of ['incoming-call']. *)
Record IncomingCall := {
  ic_callId : string;
  ic_meetingId : string;
  ic_callerId : string;
  ic_callerName : string;
  ic_callType : CallType
}.

(** Calls from the component into the media hook. *)
Inductive HookCall :=
| webRTCJoin (m : Api.Meeting)   (* joinMeeting of the hook mounted with [m] *)
| webRTCLeave.

(** The component's React state for meetings, calls and the waiting room,
    and the log of its calls into the hook.  Chat, reactions, recordings and
    the participant list do not take part in joining and are left out. *)
Record State := {
  currentMeeting : option Api.Meeting;
  meetingCode : string;
  showJoinDialog : bool;
  shouldAutoJoin : bool;
  calleeId : string;
  activeCallId : option string;
  incomingCall : option IncomingCall;
  isInCall : bool;
  callStatus : string;
  waitingRoom : list string;           (* user ids of the waiting entries *)
  isWaiting : bool;
  waitingPosition : option Z;
  isHost : bool;
  calls : list HookCall                (* oldest first *)
}.

Definition set_currentMeeting v (a : State) : State :=
  Build_State v (meetingCode a) (showJoinDialog a) (shouldAutoJoin a) (calleeId a)
    (activeCallId a) (incomingCall a) (isInCall a) (callStatus a) (waitingRoom a)
    (isWaiting a) (waitingPosition a) (isHost a) (calls a).
Definition set_showJoinDialog v (a : State) : State :=
  Build_State (currentMeeting a) (meetingCode a) v (shouldAutoJoin a) (calleeId a)
    (activeCallId a) (incomingCall a) (isInCall a) (callStatus a) (waitingRoom a)
    (isWaiting a) (waitingPosition a) (isHost a) (calls a).
Definition set_shouldAutoJoin v (a : State) : State :=
  Build_State (currentMeeting a) (meetingCode a) (showJoinDialog a) v (calleeId a)
    (activeCallId a) (incomingCall a) (isInCall a) (callStatus a) (waitingRoom a)
    (isWaiting a) (waitingPosition a) (isHost a) (calls a).
Definition set_activeCallId v (a : State) : State :=
  Build_State (currentMeeting a) (meetingCode a) (showJoinDialog a) (shouldAutoJoin a)
    (calleeId a) v (incomingCall a) (isInCall a) (callStatus a) (waitingRoom a)
    (isWaiting a) (waitingPosition a) (isHost a) (calls a).
Definition set_incomingCall v (a : State) : State :=
  Build_State (currentMeeting a) (meetingCode a) (showJoinDialog a) (shouldAutoJoin a)
    (calleeId a) (activeCallId a) v (isInCall a) (callStatus a) (waitingRoom a)
    (isWaiting a) (waitingPosition a) (isHost a) (calls a).
Definition set_isInCall v (a : State) : State :=
  Build_State (currentMeeting a) (meetingCode a) (showJoinDialog a) (shouldAutoJoin a)
    (calleeId a) (activeCallId a) (incomingCall a) v (callStatus a) (waitingRoom a)
    (isWaiting a) (waitingPosition a) (isHost a) (calls a).
Definition set_callStatus v (a : State) : State :=
  Build_State (currentMeeting a) (meetingCode a) (showJoinDialog a) (shouldAutoJoin a)
    (calleeId a) (activeCallId a) (incomingCall a) (isInCall a) v (waitingRoom a)
    (isWaiting a) (waitingPosition a) (isHost a) (calls a).
Definition set_waitingRoom v (a : State) : State :=
  Build_State (currentMeeting a) (meetingCode a) (showJoinDialog a) (shouldAutoJoin a)
    (calleeId a) (activeCallId a) (incomingCall a) (isInCall a) (callStatus a) v
    (isWaiting a) (waitingPosition a) (isHost a) (calls a).
Definition set_isWaiting v (a : State) : State :=
  Build_State (currentMeeting a) (meetingCode a) (showJoinDialog a) (shouldAutoJoin a)
    (calleeId a) (activeCallId a) (incomingCall a) (isInCall a) (callStatus a)
    (waitingRoom a) v (waitingPosition a) (isHost a) (calls a).
Definition set_waitingPosition v (a : State) : State :=
  Build_State (currentMeeting a) (meetingCode a) (showJoinDialog a) (shouldAutoJoin a)
    (calleeId a) (activeCallId a) (incomingCall a) (isInCall a) (callStatus a)
    (waitingRoom a) (isWaiting a) v (isHost a) (calls a).
Definition set_isHost v (a : State) : State :=
  Build_State (currentMeeting a) (meetingCode a) (showJoinDialog a) (shouldAutoJoin a)
    (calleeId a) (activeCallId a) (incomingCall a) (isInCall a) (callStatus a)
    (waitingRoom a) (isWaiting a) (waitingPosition a) v (calls a).
Definition set_calls v (a : State) : State :=
  Build_State (currentMeeting a) (meetingCode a) (showJoinDialog a) (shouldAutoJoin a)
    (calleeId a) (activeCallId a) (incomingCall a) (isInCall a) (callStatus a)
    (waitingRoom a) (isWaiting a) (waitingPosition a) (isHost a) v.

(** Strings are sequences of bytes, text in UTF-8.  The characters that
    [String.prototype.trim] strips are the white space and the line
    terminators of ECMAScript: in one byte U+0009 to U+000D and U+0020; in
    two bytes U+00A0; in three bytes U+1680, U+2000 to U+200A, U+2028,
    U+2029, U+202F, U+205F, U+3000 and U+FEFF. *)
Definition is_space (c : Ascii.ascii) : bool :=
  let n := Ascii.nat_of_ascii c in
  (Nat.leb 9 n && Nat.leb n 13) || Nat.eqb n 32.

Definition is_space2 (c1 c2 : Ascii.ascii) : bool :=
  Nat.eqb (Ascii.nat_of_ascii c1) 194 && Nat.eqb (Ascii.nat_of_ascii c2) 160.

Definition is_space3 (c1 c2 c3 : Ascii.ascii) : bool :=
  let n1 := Ascii.nat_of_ascii c1 in
  let n2 := Ascii.nat_of_ascii c2 in
  let n3 := Ascii.nat_of_ascii c3 in
  (Nat.eqb n1 225 && Nat.eqb n2 154 && Nat.eqb n3 128)
  || (Nat.eqb n1 226 && Nat.eqb n2 128
      && ((Nat.leb 128 n3 && Nat.leb n3 138)
          || Nat.eqb n3 168 || Nat.eqb n3 169 || Nat.eqb n3 175))
  || (Nat.eqb n1 226 && Nat.eqb n2 129 && Nat.eqb n3 159)
  || (Nat.eqb n1 227 && Nat.eqb n2 128 && Nat.eqb n3 128)
  || (Nat.eqb n1 239 && Nat.eqb n2 187 && Nat.eqb n3 191).

(** [!s.trim()]: the string consists of such characters only. *)
Fixpoint blank (s : string) : bool :=
  match s with
  | EmptyString => true
  | String c1 rest1 =>
      if is_space c1 then blank rest1
      else
        match rest1 with
        | EmptyString => false
        | String c2 rest2 =>
            if is_space2 c1 c2 then blank rest2
            else
              match rest2 with
              | EmptyString => false
              | String c3 rest3 => is_space3 c1 c2 c3 && blank rest3
              end
        end
  end.

(** The effect "auto-join WebRTC when meeting is set", run after a render. *)
Definition autoJoinEffect (a : State) : State :=
  match currentMeeting a with
  | Some m =>
      if shouldAutoJoin a && negb (isWaiting a)
      then set_shouldAutoJoin false (set_calls (calls a ++ [webRTCJoin m]) a)
      else a
  | None => a
  end.

(** *** Call events and actions *)

(** [socket.on('incoming-call')] *)
Definition incoming_call (data : IncomingCall) (a : State) : State :=
  set_incomingCall (Some data) a.

(** [socket.on('call-accepted')]; [meetingResult] is what [getMeetingById]
    answers when the event names a meeting.  The component renders while
    the answer is awaited. *)
Definition call_accepted (meetingId : string) (meetingResult : Api.Result Api.Meeting)
    (a : State) : State :=
  let a1 := set_isInCall true (set_callStatus "In call" a) in
  if Api.truthy meetingId then
    let a2 := autoJoinEffect a1 in
    match (if Api.success meetingResult then Api.data meetingResult else None) with
    | Some m => set_shouldAutoJoin true (set_currentMeeting (Some m) a2)
    | None => a2
    end
  else a1.

(** [socket.on('call-rejected')] *)
Definition call_rejected (a : State) : State :=
  set_currentMeeting None
    (set_isInCall false (set_activeCallId None (set_callStatus "Call declined" a))).

(** [socket.on('call-missed')] *)
Definition call_missed (a : State) : State :=
  set_incomingCall None
    (set_currentMeeting None
       (set_isInCall false (set_activeCallId None (set_callStatus "Call missed" a)))).

(** [socket.on('call-ended')] *)
Definition call_ended (a : State) : State :=
  set_currentMeeting None
    (set_isInCall false (set_activeCallId None (set_callStatus "Call ended" a))).

(** [socket.on('call-cancelled')] *)
Definition call_cancelled (a : State) : State := set_incomingCall None a.

(** The [setTimeout(() => setCallStatus(''), 2000)] of the terminations. *)
Definition clear_call_status (a : State) : State := set_callStatus "" a.

(** [handleInitiateCall(type)]; [result] is what [initiateCall] answers.
    The component renders while the answer is awaited. *)
Definition handleInitiateCall (type : CallType) (result : Api.Result Api.CallRef)
    (a : State) : State :=
  if blank (calleeId a) then a
  else
    let a1 := autoJoinEffect (set_callStatus "Calling..." a) in
    match (if Api.success result then Api.data result else None) with
    | Some d => set_activeCallId (Some (Api.cr_callId d)) a1
    | None => set_callStatus "" a1
    end.

(** [handleCancelCall] *)
Definition handleCancelCall (a : State) : State :=
  match activeCallId a with
  | Some _ => set_callStatus "" (set_activeCallId None a)
  | None => a
  end.

(** [handleLeaveMeeting] *)
Definition handleLeaveMeeting (a : State) : State :=
  set_isHost false
    (set_waitingRoom []
       (set_isInCall false
          (set_currentMeeting None (set_calls (calls a ++ [webRTCLeave]) a)))).

(** [handleEndCall] *)
Definition handleEndCall (a : State) : State :=
  match activeCallId a with
  | Some _ => handleLeaveMeeting a
  | None => a
  end.

(** [handleAnswerCall]; [result] is what [answerCall] answers and
    [meetingResult] what [getMeetingById] answers.  The component renders
    while the second answer is awaited. *)
Definition handleAnswerCall (result : Api.Result unit)
    (meetingResult : Api.Result Api.Meeting) (a : State) : State :=
  match incomingCall a with
  | None => a
  | Some ic =>
      if Api.success result then
        let a1 := autoJoinEffect
                    (set_callStatus "In call"
                       (set_isInCall true (set_activeCallId (Some (ic_callId ic)) a))) in
        let a2 :=
          match (if Api.success meetingResult then Api.data meetingResult else None) with
          | Some m => set_shouldAutoJoin true (set_currentMeeting (Some m) a1)
          | None => a1
          end in
        set_incomingCall None a2
      else set_incomingCall None a
  end.

(** [handleRejectCall] *)
Definition handleRejectCall (a : State) : State :=
  match incomingCall a with
  | Some _ => set_incomingCall None a
  | None => a
  end.

(** [handleTestConnection]; [result], [activeCallResult] and
    [meetingResult] are the answers of [testConnection], [getActiveCall] and
    [getMeetingById].  Whatever the status of the call that [getActiveCall]
    returns, the component takes it for the call it is in.  The connection
    flag and the list of the user's meetings, which it also writes, are not
    part of this state.  The component renders while [getMeetingById] is
    awaited. *)
Definition handleTestConnection (result : Api.Result unit)
    (activeCallResult : Api.Result Api.Call)
    (meetingResult : Api.Result Api.Meeting) (a : State) : State :=
  if Api.success result then
    match (if Api.success activeCallResult then Api.data activeCallResult else None) with
    | Some call =>
        let a1 := autoJoinEffect
                    (set_callStatus ("In call - " ++ Api.status_name (Api.call_status call))
                       (set_isInCall true
                          (set_activeCallId (Some (Api.call_callId call)) a))) in
        match (if Api.success meetingResult then Api.data meetingResult else None) with
        | Some m => set_shouldAutoJoin true (set_currentMeeting (Some m) a1)
        | None => a1
        end
    | None => a
    end
  else a.

(** *** Admission gate *)

(** [socket.on('admission-granted')] *)
Definition admission_granted (a : State) : State :=
  set_shouldAutoJoin true (set_waitingPosition None (set_isWaiting false a)).

(** [socket.on('admission-rejected')] *)
Definition admission_rejected (a : State) : State :=
  set_currentMeeting None (set_waitingPosition None (set_isWaiting false a)).

(** [socket.on('waiting-room-update')] *)
Definition waiting_room_update (waiting : option (list string)) (a : State) : State :=
  set_waitingRoom (default [] waiting) a.

(** [admissionResult.position || 1] *)
Definition position_or_1 (p : option Z) : Z :=
  match p with
  | Some z => if Z.eqb z 0 then 1%Z else z
  | None => 1%Z
  end.

(** [handleJoinMeeting] from the answer of [joinMeeting] to the [await] of
    the admission check: the meeting is selected and the dialog closed. *)
Definition join_answered (d : Api.JoinData) (a : State) : State :=
  set_showJoinDialog false (set_currentMeeting (Some (Api.jd_meeting d)) a).

(** [handleJoinMeeting] from the answers of [checkAdmissionRequired] and,
    when admission is required, of [requestAdmission]. *)
Definition admission_answered (admissionCheck : Api.Result Api.AdmissionCheck)
    (admissionResult : Api.AdmissionRequest) (a : State) : State :=
  if Api.success admissionCheck
     && from_option Api.required false (Api.data admissionCheck)
  then
    if Api.ar_success admissionResult then
      set_waitingPosition (Some (position_or_1 (Api.position admissionResult)))
        (set_isWaiting true a)
    else a
  else set_shouldAutoJoin true a.

(** [handleJoinMeeting]; [result], [admissionCheck] and [admissionResult]
    are the answers of [joinMeeting], [checkAdmissionRequired] and
    [requestAdmission].  The component renders, with the meeting selected,
    while the admission check is awaited. *)
Definition handleJoinMeeting (result : Api.Result Api.JoinData)
    (admissionCheck : Api.Result Api.AdmissionCheck)
    (admissionResult : Api.AdmissionRequest) (a : State) : State :=
  if blank (meetingCode a) then a
  else
    match (if Api.success result then Api.data result else None) with
    | None => a
    | Some d =>
        if negb (Api.canJoin d) then a
        else
          admission_answered admissionCheck admissionResult
            (autoJoinEffect (join_answered d a))
    end.

(** *** Turns *)

(** The events of the component that belong to a call: the socket's call
    events, the call buttons, and the connection test, which takes up an
    active call. *)
Inductive CallEvent :=
| InitiateCall (type : CallType) (result : Api.Result Api.CallRef)
| CancelCall
| IncomingCallEv (data : IncomingCall)
| RejectCall
| CallAccepted (meetingId : string) (meetingResult : Api.Result Api.Meeting)
| CallRejected
| CallMissed
| CallEnded
| CallCancelled
| ClearCallStatus
| EndCall
| AnswerCall (result : Api.Result unit) (meetingResult : Api.Result Api.Meeting)
| TestConnection (result : Api.Result unit) (activeCallResult : Api.Result Api.Call)
    (meetingResult : Api.Result Api.Meeting).

Definition handle (e : CallEvent) (a : State) : State :=
  match e with
  | InitiateCall type result => handleInitiateCall type result a
  | CancelCall => handleCancelCall a
  | IncomingCallEv data => incoming_call data a
  | RejectCall => handleRejectCall a
  | CallAccepted meetingId meetingResult => call_accepted meetingId meetingResult a
  | CallRejected => call_rejected a
  | CallMissed => call_missed a
  | CallEnded => call_ended a
  | CallCancelled => call_cancelled a
  | ClearCallStatus => clear_call_status a
  | EndCall => handleEndCall a
  | AnswerCall result meetingResult => handleAnswerCall result meetingResult a
  | TestConnection result activeCallResult meetingResult =>
      handleTestConnection result activeCallResult meetingResult a
  end.

(** One turn: the handler, then the render's effect. *)
Definition turn (e : CallEvent) (a : State) : State := autoJoinEffect (handle e a).

(** A sequence of turns, first event first. *)
Definition run (es : list CallEvent) (a : State) : State :=
  foldl (fun acc e => turn e acc) a es.

(** The events by which a call is accepted, remotely or locally. *)
Definition is_acceptance (e : CallEvent) : bool :=
  match e with
  | CallAccepted _ _ | AnswerCall _ _ => true
  | _ => false
  end.




(** Whether a render would join the media session. *)
Definition join_pending (a : State) : bool :=
  match currentMeeting a with
  | Some _ => shouldAutoJoin a && negb (isWaiting a)
  | None => false
  end.

(** *** A sample session *)

Definition sample_idle : State :=
  {| currentMeeting := None; meetingCode := "abc-defg"; showJoinDialog := true;
     shouldAutoJoin := false; calleeId := "u2"; activeCallId := None;
     incomingCall := None; isInCall := false; callStatus := "";
     waitingRoom := []; isWaiting := false; waitingPosition := None;
     isHost := false; calls := [] |}.

(** [joinMeeting] answers that the meeting can be joined. *)
Definition sample_join : Api.Result Api.JoinData :=
  {| Api.success := true;
     Api.data := Some {| Api.jd_meeting := WebRTC.sample_meeting;
                         Api.canJoin := true; Api.joinError := None;
                         Api.webrtcConfig :=
                           {| Api.iceServers := []; Api.rtpCapabilities := Some "caps";
                              Api.routerError := None |} |};
     Api.error := None |}.

(** [checkAdmissionRequired] caught a failed request. *)
Definition sample_check_failed : Api.Result Api.AdmissionCheck :=
  {| Api.success := false; Api.data := None;
     Api.error := Some "TypeError: Failed to fetch" |}.

(** [requestAdmission] is not reached when the check fails; any answer
    stands in for it. *)
Definition sample_request : Api.AdmissionRequest :=
  {| Api.ar_success := true; Api.position := Some 1%Z; Api.ar_error := None |}.

(** [initiateCall] answers with the new call. *)
Definition sample_call : Api.Result Api.CallRef :=
  {| Api.success := true;
     Api.data := Some {| Api.cr_callId := "call-1"; Api.cr_meetingId := "m1" |};
     Api.error := None |}.

(** [getMeetingById] answers with meeting [m]. *)
Definition found (m : Api.Meeting) : Api.Result Api.Meeting :=
  {| Api.success := true; Api.data := Some m; Api.error := None |}.


(** [checkAdmissionRequired] answers that the meeting has a waiting room. *)
Definition sample_check_required : Api.Result Api.AdmissionCheck :=
  {| Api.success := true; Api.data := Some {| Api.required := true |};
     Api.error := None |}.

(** What [sample_join] carries. *)
Definition sample_join_data : Api.JoinData :=
  {| Api.jd_meeting := WebRTC.sample_meeting;
     Api.canJoin := true; Api.joinError := None;
     Api.webrtcConfig :=
       {| Api.iceServers := []; Api.rtpCapabilities := Some "caps";
          Api.routerError := None |} |}.

(** [testConnection] reaches the API. *)
Definition sample_reachable : Api.Result unit :=
  {| Api.success := true; Api.data := None; Api.error := None |}.

(** [getActiveCall] answers with the call of [sample_call], still ringing. *)
Definition sample_ringing : Api.Result Api.Call :=
  {| Api.success := true;
     Api.data := Some {| Api.call_callId := "call-1"; Api.call_meetingId := "m1";
                         Api.call_status := Api.cs_ringing |};
     Api.error := None |}.

End App.

(** * Properties *)

Local Open Scope list_scope.

(** Reading a field of an updated state. *)
Ltac hook_simpl :=
  cbn [
    WebRTC.meeting WebRTC.socketRef WebRTC.deviceRef WebRTC.localStreamRef
    WebRTC.screenStreamRef WebRTC.sendTransportRef WebRTC.recvTransportRef
    WebRTC.producersRef WebRTC.consumersRef WebRTC.consumedProducersRef
    WebRTC.producerAppDataRef WebRTC.remoteStreamsRef WebRTC.remoteParticipants
    WebRTC.isConnected WebRTC.isAudioEnabled WebRTC.isVideoEnabled
    WebRTC.isScreenSharing WebRTC.connectionStatus WebRTC.optimization
    WebRTC.meetingTier WebRTC.error WebRTC.heap WebRTC.effects WebRTC.set_meeting
    WebRTC.set_socketRef WebRTC.set_deviceRef WebRTC.set_localStreamRef
    WebRTC.set_screenStreamRef WebRTC.set_sendTransportRef WebRTC.set_recvTransportRef
    WebRTC.set_producersRef WebRTC.set_consumersRef WebRTC.set_consumedProducersRef
    WebRTC.set_producerAppDataRef WebRTC.set_remoteStreamsRef
    WebRTC.set_remoteParticipants WebRTC.set_isConnected WebRTC.set_isAudioEnabled
    WebRTC.set_isVideoEnabled WebRTC.set_isScreenSharing WebRTC.set_connectionStatus
    WebRTC.set_optimization WebRTC.set_meetingTier WebRTC.set_error WebRTC.set_heap
    WebRTC.set_effects WebRTC.perform WebRTC.emit WebRTC.sk_set_pendingProducers
    WebRTC.sk_set_transportConnected WebRTC.sk_set_produced WebRTC.sk_meetingId
    WebRTC.sk_pendingProducers WebRTC.sk_transportConnected WebRTC.sk_produced WebRTC.drain_stream
    WebRTC.st_camera WebRTC.st_screen WebRTC.st_audio ].

Tactic Notation "hook_simpl" "in" hyp(H) :=
  cbn [
    WebRTC.meeting WebRTC.socketRef WebRTC.deviceRef WebRTC.localStreamRef
    WebRTC.screenStreamRef WebRTC.sendTransportRef WebRTC.recvTransportRef
    WebRTC.producersRef WebRTC.consumersRef WebRTC.consumedProducersRef
    WebRTC.producerAppDataRef WebRTC.remoteStreamsRef WebRTC.remoteParticipants
    WebRTC.isConnected WebRTC.isAudioEnabled WebRTC.isVideoEnabled
    WebRTC.isScreenSharing WebRTC.connectionStatus WebRTC.optimization
    WebRTC.meetingTier WebRTC.error WebRTC.heap WebRTC.effects WebRTC.set_meeting
    WebRTC.set_socketRef WebRTC.set_deviceRef WebRTC.set_localStreamRef
    WebRTC.set_screenStreamRef WebRTC.set_sendTransportRef WebRTC.set_recvTransportRef
    WebRTC.set_producersRef WebRTC.set_consumersRef WebRTC.set_consumedProducersRef
    WebRTC.set_producerAppDataRef WebRTC.set_remoteStreamsRef
    WebRTC.set_remoteParticipants WebRTC.set_isConnected WebRTC.set_isAudioEnabled
    WebRTC.set_isVideoEnabled WebRTC.set_isScreenSharing WebRTC.set_connectionStatus
    WebRTC.set_optimization WebRTC.set_meetingTier WebRTC.set_error WebRTC.set_heap
    WebRTC.set_effects WebRTC.perform WebRTC.emit WebRTC.sk_set_pendingProducers
    WebRTC.sk_set_transportConnected WebRTC.sk_set_produced WebRTC.sk_meetingId
    WebRTC.sk_pendingProducers WebRTC.sk_transportConnected WebRTC.sk_produced WebRTC.drain_stream
    WebRTC.st_camera WebRTC.st_screen WebRTC.st_audio ] in H.

(** ** The persisted authentication token *)

Lemma truthy_false_empty (s : string) : Api.truthy s = false -> s = "".
Proof.
  unfold Api.truthy. intros H. apply negb_false_iff in H.
  by apply String.eqb_eq in H.
Qed.

Lemma or_else_empty (o : option string) : Api.or_else o "" = default "" o.
Proof.
  destruct o as [s|]; simpl; [|done].
  destruct (Api.truthy s) eqn:E; [done|].
  by rewrite (truthy_false_empty s E).
Qed.

(** C10. For every token [t], [getAuthToken()] after [setAuthToken(t)]
    returns [t]; and with no token in memory, [getAuthToken()] returns the
    token persisted in local storage, or the empty string when none is
    persisted. *)
Theorem auth_token_round_trip (t : string) (st : Api.Store)
    (persisted : gmap string string) :
  fst (Api.getAuthToken (Api.setAuthToken t st)) = t
  /\ fst (Api.getAuthToken {| Api.authToken := ""; Api.localStorage := persisted |})
     = default "" (persisted !! "authToken").
Proof.
  split.
  - unfold Api.getAuthToken, Api.setAuthToken; simpl.
    destruct (Api.truthy t) eqn:E; simpl; [done|].
    rewrite lookup_insert_eq. simpl. rewrite E.
    symmetry. by apply truthy_false_empty.
  - unfold Api.getAuthToken; simpl. apply or_else_empty.
Qed.

(** ** Teardown *)

Section Teardown.
Import WebRTC.

Lemma Hook_eta (s : Hook) :
  s = {| meeting := meeting s; socketRef := socketRef s; deviceRef := deviceRef s;
         localStreamRef := localStreamRef s; screenStreamRef := screenStreamRef s;
         sendTransportRef := sendTransportRef s;
         recvTransportRef := recvTransportRef s;
         producersRef := producersRef s; consumersRef := consumersRef s;
         consumedProducersRef := consumedProducersRef s;
         producerAppDataRef := producerAppDataRef s;
         remoteStreamsRef := remoteStreamsRef s;
         remoteParticipants := remoteParticipants s;
         isConnected := isConnected s; isAudioEnabled := isAudioEnabled s;
         isVideoEnabled := isVideoEnabled s; isScreenSharing := isScreenSharing s;
         connectionStatus := connectionStatus s; optimization := optimization s;
         meetingTier := meetingTier s; error := error s;
         heap := heap s; effects := effects s |}.
Proof. by destruct s. Qed.

Lemma leaveMeeting_normal (s : Hook) :
  leaveMeeting s =
  {| meeting := meeting s; socketRef := None; deviceRef := None;
     localStreamRef := None; screenStreamRef := None;
     sendTransportRef := None; recvTransportRef := None;
     producersRef := []; consumersRef := [];
     consumedProducersRef := ∅; producerAppDataRef := producerAppDataRef s;
     remoteStreamsRef := ∅; remoteParticipants := ∅;
     isConnected := false; isAudioEnabled := false; isVideoEnabled := false;
     isScreenSharing := false; connectionStatus := disconnected;
     optimization := optimization s; meetingTier := meetingTier s; error := error s;
     heap := heap s; effects := effects s ++ teardown_effects s |}.
Proof.
  rewrite (Hook_eta (leaveMeeting s)).
  unfold leaveMeeting, teardown_effects, getTracks. cbn.
  f_equal. by rewrite <- ?app_assoc.
Qed.








End Teardown.

(** ** The effect log *)

Section EffectLog.
Import WebRTC.

Lemma effects_perform (es : list Effect) (s : Hook) :
  effects (perform es s) = effects s ++ es.
Proof. reflexivity. Qed.

Lemma effects_emit (m : ClientMsg) (s : Hook) :
  effects (emit m s) = effects s ++ [Emit m].
Proof. reflexivity. Qed.

Lemma performed_app (s s' : Hook) (es : list Effect) :
  effects s' = effects s ++ es -> performed s s' = es.
Proof. unfold performed. intros ->. by rewrite drop_app_length. Qed.

End EffectLog.

(** ** Publishing into an occupied slot *)

Section JsMapFacts.
Context {V : Type}.
Implicit Types (m : list (string * V)) (k : string) (v : V).

Lemma JsMap_get_set_eq m k v : JsMap.get k (JsMap.set k v m) = Some v.
Proof.
  induction m as [|[k' v'] m IH]; simpl.
  - by rewrite String.eqb_refl.
  - destruct (String.eqb k k') eqn:E; simpl; rewrite ?String.eqb_refl, ?E; done.
Qed.

Lemma JsMap_get_set_ne m k k' v :
  k <> k' -> JsMap.get k (JsMap.set k' v m) = JsMap.get k m.
Proof.
  intros Hne. apply String.eqb_neq in Hne.
  induction m as [|[k0 v0] m IH]; simpl.
  - by rewrite Hne.
  - destruct (String.eqb k' k0) eqn:E; simpl.
    + apply String.eqb_eq in E. subst k0. by rewrite Hne.
    + by rewrite IH.
Qed.

Lemma JsMap_keys_set m k v :
  JsMap.keys (JsMap.set k v m) = JsMap.keys m
  \/ ((k ∉ JsMap.keys m) /\ JsMap.keys (JsMap.set k v m) = JsMap.keys m ++ [k]).
Proof.
  unfold JsMap.keys. induction m as [|[k' v'] m IH]; simpl.
  - right. split; [apply not_elem_of_nil|done].
  - destruct (String.eqb k k') eqn:E; simpl.
    + apply String.eqb_eq in E. subst k'. by left.
    + apply String.eqb_neq in E.
      destruct IH as [-> | [Hnin ->]]; [by left|].
      right. split; [|done]. rewrite not_elem_of_cons. by split.
Qed.

Lemma JsMap_set_NoDup m k v :
  NoDup (JsMap.keys m) -> NoDup (JsMap.keys (JsMap.set k v m)).
Proof.
  intros Hnd. destruct (JsMap_keys_set m k v) as [-> | [Hnin ->]]; [done|].
  apply NoDup_app. split; [done|]. split.
  - intros x Hx Hk. apply list_elem_of_singleton in Hk. by subst x.
  - apply NoDup_singleton.
Qed.

Lemma JsMap_occurrences_absent m k :
  k ∉ JsMap.keys m -> JsMap.occurrences k m = 0.
Proof.
  unfold JsMap.occurrences, JsMap.keys.
  induction m as [|[k' v'] m IH]; simpl; [done|].
  rewrite not_elem_of_cons. intros [Hne Hnin].
  rewrite filter_cons. simpl. apply String.eqb_neq in Hne.
  rewrite decide_False by (rewrite Hne; done). by apply IH.
Qed.

Lemma JsMap_occurrences_NoDup m k :
  NoDup (JsMap.keys m) -> is_Some (JsMap.get k m) -> JsMap.occurrences k m = 1.
Proof.
  unfold JsMap.occurrences, JsMap.keys.
  induction m as [|[k' v'] m IH]; simpl; intros Hnd Hget.
  - by destruct Hget.
  - apply NoDup_cons in Hnd as [Hnin Hnd]. rewrite filter_cons. simpl.
    destruct (String.eqb k k') eqn:E.
    + rewrite decide_True by done. simpl. f_equal.
      apply String.eqb_eq in E. subst k'.
      by apply (JsMap_occurrences_absent m k).
    + rewrite decide_False by done. by apply IH.
Qed.

End JsMapFacts.

Section Publishing.
Import WebRTC.

Lemma head_video_kind (l : list MediaStreamTrack) (t : MediaStreamTrack) :
  head (getVideoTracks l) = Some t -> track_kind t = video.
Proof.
  intros H. apply head_Some_elem_of in H.
  by apply list_elem_of_filter in H as [? _].
Qed.

Lemma head_audio_kind (l : list MediaStreamTrack) (t : MediaStreamTrack) :
  head (getAudioTracks l) = Some t -> track_kind t = audio.
Proof.
  intros H. apply head_Some_elem_of in H.
  by apply list_elem_of_filter in H as [? _].
Qed.

Lemma addTrack_elem_of (t : MediaStreamTrack) (l : list MediaStreamTrack) :
  t ∈ addTrack t l.
Proof.
  unfold addTrack. case_decide; [done|]. apply elem_of_app. right.
  by apply list_elem_of_singleton.
Qed.

Lemma head_video_of_member (l : list MediaStreamTrack) (t : MediaStreamTrack) :
  t ∈ l -> track_kind t = video -> is_Some (head (getVideoTracks l)).
Proof.
  intros Hin Hkind. apply head_is_Some. intros Hnil.
  assert (Ht : t ∈ getVideoTracks l) by (by apply list_elem_of_filter).
  rewrite Hnil in Ht. by apply not_elem_of_nil in Ht.
Qed.

Lemma head_audio_of_member (l : list MediaStreamTrack) (t : MediaStreamTrack) :
  t ∈ l -> track_kind t = audio -> is_Some (head (getAudioTracks l)).
Proof.
  intros Hin Hkind. apply head_is_Some. intros Hnil.
  assert (Ht : t ∈ getAudioTracks l) by (by apply list_elem_of_filter).
  rewrite Hnil in Ht. by apply not_elem_of_nil in Ht.
Qed.

(** The one outstanding request is completed by its acknowledgment. *)
Lemma acknowledge_single (s : Hook) (sk : Socket) (w : ProduceWait)
    (producerId next : string) :
  socketRef s = Some sk ->
  sk_produced sk = [w] ->
  acknowledge (pw_requestId w) producerId next s
  = produce_resumes producerId next
      (perform [ProduceCallback (pw_requestId w) producerId]
         (set_socketRef (Some (sk_set_produced [] sk)) s)) w.
Proof.
  intros Hsk Hw. unfold acknowledge, produced, on_socket. rewrite Hsk. cbv zeta.
  rewrite Hw.
  assert (Hacc : produced_accepts
                   {| pr_producerId := producerId;
                      pr_requestId := Some (pw_requestId w) |} w = true).
  { unfold produced_accepts. simpl. rewrite String.eqb_refl. apply orb_true_r. }
  rewrite !filter_cons, !filter_nil, decide_True, decide_False by (by rewrite Hacc).
  reflexivity.
Qed.

Lemma produce_acknowledged (sl : Slot) (track : MediaStreamTrack)
    (requestId producerId next : string) (s : Hook) (sk : Socket) :
  socketRef s = Some sk ->
  sk_produced sk = [] ->
  stores sl {| producer_id := producerId; producer_track := track;
               producer_appData := slot_appData sl |} sk s
    (acknowledge requestId producerId next
       (transport_on_produce sl track None requestId s)).
Proof.
  intros Hsk Hnone. unfold transport_on_produce. rewrite Hsk, Hnone. simpl app.
  set (w := {| pw_requestId := requestId; pw_slot := sl; pw_track := track;
               pw_then := None |}).
  rewrite (acknowledge_single _ (sk_set_produced [w] sk) w producerId next)
    by reflexivity.
  unfold produce_resumes, stores. hook_simpl. simpl pw_then. cbv iota.
  hook_simpl. split; [|do 3 (split; [done|])].
  - destruct sk; simpl in *; by subst.
  - eexists [_; _]. rewrite <- app_assoc. split; [reflexivity|].
    repeat constructor; simpl; tauto.
Qed.

(** The screen's two requests, acknowledged one after the other. *)
Lemma screen_acknowledged (v a : MediaStreamTrack)
    (requestId producerId audioRequestId audioProducerId next : string)
    (s : Hook) (sk : Socket) :
  socketRef s = Some sk ->
  sk_produced sk = [] ->
  is_Some (sendTransportRef s) ->
  exists mid,
    stores screenVideo {| producer_id := producerId; producer_track := v;
                          producer_appData := slot_appData screenVideo |} sk s mid
    /\ stores screenAudio {| producer_id := audioProducerId; producer_track := a;
                             producer_appData := slot_appData screenAudio |} sk mid
         (acknowledge audioRequestId audioProducerId next
            (acknowledge requestId producerId audioRequestId
               (transport_on_produce screenVideo v (Some a) requestId s))).
Proof.
  intros Hsk Hnone [tr Htr]. unfold transport_on_produce at 1. rewrite Hsk, Hnone.
  simpl app.
  set (w := {| pw_requestId := requestId; pw_slot := screenVideo; pw_track := v;
               pw_then := Some a |}).
  rewrite (acknowledge_single _ (sk_set_produced [w] sk) w producerId audioRequestId)
    by reflexivity.
  unfold produce_resumes. simpl pw_then. hook_simpl. rewrite Htr.
  set (mid := set_producersRef _ _).
  assert (Hmid : socketRef mid = Some sk).
  { subst mid. hook_simpl. destruct sk; simpl in *; by subst. }
  exists mid. split.
  - unfold stores. subst mid. hook_simpl. split; [|do 3 (split; [done|])].
    + destruct sk; simpl in *; by subst.
    + eexists [_; _]. rewrite <- app_assoc. split; [reflexivity|].
      repeat constructor; simpl; tauto.
  - by apply produce_acknowledged.
Qed.

Lemma stores_can_publish (sl : Slot) (p : Producer) (sk : Socket) (s s' : Hook) :
  can_publish sk s -> stores sl p sk s s' -> can_publish sk s'.
Proof.
  intros (_ & Hnone & Htr & Hm) (Hsk & Htr' & Hm' & _).
  unfold can_publish. by rewrite Hsk, Htr', Hm'.
Qed.

(** One publish, for every slot: the slot's key is bound to the producer of
    this publish, the keys of the registry stay distinct, and nothing is
    closed. *)
Lemma publish_step (sl : Slot) (stream : list MediaStreamTrack) (k : Tokens)
    (s : Hook) (sk : Socket) :
  can_publish sk s ->
  captures sl stream ->
  NoDup (JsMap.keys (producersRef s)) ->
  can_publish sk (publish sl stream k s)
  /\ NoDup (JsMap.keys (producersRef (publish sl stream k s)))
  /\ (exists track,
        JsMap.get (slot_key sl) (producersRef (publish sl stream k s))
          = Some {| producer_id := slot_producer sl k; producer_track := track;
                    producer_appData := slot_appData sl |}
        /\ (sl = screenVideo \/ sl = screenAudio -> captured sl stream = Some track))
  /\ exists es,
       effects (publish sl stream k s) = effects s ++ es
       /\ Forall (fun e => ~ is_close e) es.
Proof.
  intros Hcan [[t Ht] Hscreen] Hnd.
  pose proof Hcan as (Hsk & Hnone & [tr Htr] & [m Hm]).
  destruct sl; unfold publish.
  - (* camera *)
    simpl in Ht. unfold startCamera.
    set (merged := match localStreamRef s with Some _ => _ | None => _ end).
    assert (Hmerged : exists ls' track,
              merged = Some ls' /\ head (getVideoTracks ls') = Some track).
    { subst merged. destruct (localStreamRef s) as [ls|].
      - rewrite Ht. simpl.
        destruct (head_video_of_member (addTrack t ls) t (addTrack_elem_of t ls)
                    (head_video_kind _ _ Ht)) as [track Htrack].
        by exists (addTrack t ls), track.
      - by exists stream, t. }
    destruct Hmerged as (ls' & track & -> & Htrack).
    hook_simpl. rewrite Htr, Hm, Htrack.
    set (s1 := set_isVideoEnabled _ _).
    pose proof (produce_acknowledged camera track (tk_request k) (tk_producer k)
                  (tk_audioRequest k) s1 sk Hsk Hnone) as Hst.
    split; [by apply (stores_can_publish _ _ _ s1 _ Hcan Hst)|].
    destruct Hst as (_ & _ & _ & -> & es & -> & Hes).
    split; [by apply JsMap_set_NoDup|]. split; [|by exists es].
    exists track. split; [apply JsMap_get_set_eq|]. by intros [|].
  - (* microphone *)
    simpl in Ht. unfold startMicrophone.
    set (merged := match localStreamRef s with Some _ => _ | None => _ end).
    assert (Hmerged : exists ls' track,
              merged = Some ls' /\ head (getAudioTracks ls') = Some track).
    { subst merged. destruct (localStreamRef s) as [ls|].
      - rewrite Ht. simpl.
        destruct (head_audio_of_member (addTrack t ls) t (addTrack_elem_of t ls)
                    (head_audio_kind _ _ Ht)) as [track Htrack].
        by exists (addTrack t ls), track.
      - by exists stream, t. }
    destruct Hmerged as (ls' & track & -> & Htrack).
    hook_simpl. rewrite Htr, Hm, Htrack.
    set (s1 := set_isAudioEnabled _ _).
    pose proof (produce_acknowledged microphone track (tk_request k) (tk_producer k)
                  (tk_audioRequest k) s1 sk Hsk Hnone) as Hst.
    split; [by apply (stores_can_publish _ _ _ s1 _ Hcan Hst)|].
    destruct Hst as (_ & _ & _ & -> & es & -> & Hes).
    split; [by apply JsMap_set_NoDup|]. split; [|by exists es].
    exists track. split; [apply JsMap_get_set_eq|]. by intros [|].
  - (* screen video *)
    simpl in Ht. unfold startScreenShare. rewrite Ht. hook_simpl. rewrite Htr, Hm.
    set (s1 := set_isScreenSharing _ _).
    destruct (head (getAudioTracks stream)) as [a|].
    + destruct (screen_acknowledged t a (tk_request k) (tk_producer k)
                  (tk_audioRequest k) (tk_audioProducer k) (tk_audioRequest k)
                  s1 sk Hsk Hnone) as (mid & Hv & Ha); [by exists tr|].
      pose proof (stores_can_publish _ _ _ s1 _ Hcan Hv) as Hcan'.
      split; [by apply (stores_can_publish _ _ _ mid _ Hcan' Ha)|].
      destruct Ha as (_ & _ & _ & -> & es2 & -> & Hes2).
      destruct Hv as (_ & _ & _ & -> & es1 & -> & Hes1).
      split; [by do 2 apply JsMap_set_NoDup|]. split.
      * exists t. split; [|done].
        rewrite JsMap_get_set_ne by done. apply JsMap_get_set_eq.
      * exists (es1 ++ es2). rewrite <- app_assoc. split; [done|].
        by apply Forall_app.
    + pose proof (produce_acknowledged screenVideo t (tk_request k) (tk_producer k)
                    (tk_audioRequest k) s1 sk Hsk Hnone) as Hst.
      split; [by apply (stores_can_publish _ _ _ s1 _ Hcan Hst)|].
      destruct Hst as (_ & _ & _ & -> & es & -> & Hes).
      split; [by apply JsMap_set_NoDup|]. split; [|by exists es].
      exists t. split; [apply JsMap_get_set_eq|done].
  - (* screen audio *)
    simpl in Ht. destruct (Hscreen eq_refl) as [v Hv]. simpl in Hv.
    unfold startScreenShare. rewrite Hv. hook_simpl. rewrite Htr, Hm, Ht.
    set (s1 := set_isScreenSharing _ _).
    destruct (screen_acknowledged v t (tk_request k) (tk_producer k)
                (tk_audioRequest k) (tk_audioProducer k) (tk_audioRequest k)
                s1 sk Hsk Hnone) as (mid & Hvid & Ha); [by exists tr|].
    pose proof (stores_can_publish _ _ _ s1 _ Hcan Hvid) as Hcan'.
    split; [by apply (stores_can_publish _ _ _ mid _ Hcan' Ha)|].
    destruct Ha as (_ & _ & _ & -> & es2 & -> & Hes2).
    destruct Hvid as (_ & _ & _ & -> & es1 & -> & Hes1).
    split; [by do 2 apply JsMap_set_NoDup|]. split.
    + exists t. split; [apply JsMap_get_set_eq|done].
    + exists (es1 ++ es2). rewrite <- app_assoc. split; [done|].
      by apply Forall_app.
Qed.

(** The claim as stated fails on the sample session: a second camera
    publish sends no close notification for the producer of the first. *)
Lemma republish_sends_no_close :
  ~ republish_closes_previous camera [sample_camera_track] [sample_camera_track']
      sample_tokens sample_tokens' sample_ready.
Proof.
  intros (_ & _ & meetingId & kind & appData & Hin).
  vm_compute in Hin.
  repeat (apply elem_of_cons in Hin as [Hin|Hin]; [discriminate Hin|]).
  by apply not_elem_of_nil in Hin.
Qed.

(** C1 (amended). For every slot, publishing into the slot and then
    publishing into it again leaves the registry with exactly one producer
    under the slot's key, the producer created by the second publish; for
    the two screen slots that producer carries the track of the second
    capture.  The two publishes close no producer and send no close
    notification: the producer of the first publish is replaced in the
    registry and left open. *)
Theorem republish_replaces_without_close (sl : Slot)
    (stream1 stream2 : list MediaStreamTrack) (k1 k2 : Tokens) (s : Hook) (sk : Socket) :
  can_publish sk s ->
  NoDup (JsMap.keys (producersRef s)) ->
  captures sl stream1 ->
  captures sl stream2 ->
  JsMap.occurrences (slot_key sl)
    (producersRef (publish sl stream2 k2 (publish sl stream1 k1 s))) = 1
  /\ (producer_id
        <$> JsMap.get (slot_key sl)
              (producersRef (publish sl stream2 k2 (publish sl stream1 k1 s))))
     = Some (slot_producer sl k2)
  /\ match sl with
     | camera | microphone => True
     | screenVideo | screenAudio =>
         (producer_track
            <$> JsMap.get (slot_key sl)
                  (producersRef (publish sl stream2 k2 (publish sl stream1 k1 s))))
         = captured sl stream2
     end
  /\ Forall (fun e => ~ is_close e)
       (performed s (publish sl stream2 k2 (publish sl stream1 k1 s))).
Proof.
  intros Hcan Hnd Hc1 Hc2.
  destruct (publish_step sl stream1 k1 s sk Hcan Hc1 Hnd)
    as (Hcan1 & Hnd1 & _ & es1 & Heff1 & Hes1).
  destruct (publish_step sl stream2 k2 _ sk Hcan1 Hc2 Hnd1)
    as (_ & Hnd2 & (track & Hget & Htrack) & es2 & Heff2 & Hes2).
  split; [|split; [|split]].
  - apply JsMap_occurrences_NoDup; [done|]. by rewrite Hget.
  - by rewrite Hget.
  - destruct sl; try done; rewrite Hget; simpl; symmetry; apply Htrack; auto.
  - rewrite (performed_app s _ (es1 ++ es2)); [by apply Forall_app|].
    by rewrite Heff2, Heff1, <- app_assoc.
Qed.

Lemma republish_replaces_without_close_witness :
  can_publish {| sk_meetingId := "m1"; sk_pendingProducers := [];
                 sk_transportConnected := []; sk_produced := [] |} sample_ready
  /\ NoDup (JsMap.keys (producersRef sample_ready))
  /\ captures camera [sample_camera_track]
  /\ captures camera [sample_camera_track']
  /\ JsMap.occurrences "video"
       (producersRef
          (publish camera [sample_camera_track'] sample_tokens'
             (publish camera [sample_camera_track] sample_tokens sample_ready))) = 1.
Proof.
  assert (Hcan : can_publish {| sk_meetingId := "m1"; sk_pendingProducers := [];
                                sk_transportConnected := []; sk_produced := [] |}
                   sample_ready).
  { split; [reflexivity|]. split; [reflexivity|]. split; vm_compute; eauto. }
  assert (Hnd : NoDup (JsMap.keys (producersRef sample_ready))) by apply NoDup_nil_2.
  assert (Hc1 : captures camera [sample_camera_track]).
  { split; [vm_compute; eauto | discriminate]. }
  assert (Hc2 : captures camera [sample_camera_track']).
  { split; [vm_compute; eauto | discriminate]. }
  do 4 (split; [assumption|]).
  apply (republish_replaces_without_close camera _ _ sample_tokens sample_tokens'
           _ _ Hcan Hnd Hc1 Hc2).
Defined.

End Publishing.

(** ** Remote producers: announcement and consumption *)

Section Announcements.
Import WebRTC.

Lemma consume_requests_app (p : string) (es fs : list Effect) :
  consume_requests p (es ++ fs) = consume_requests p es + consume_requests p fs.
Proof. unfold consume_requests. by rewrite filter_app, length_app. Qed.

Lemma consume_requests_one (p : string) (e : Effect) :
  consume_requests p [e] <= 1.
Proof.
  unfold consume_requests. rewrite filter_cons, filter_nil.
  case_decide; simpl; lia.
Qed.

(** An announcement is either dropped, leaving the state as it was, or
    answered by one request, emitted from a state in which the producer is
    already marked as consumed. *)
Lemma new_producer_cases (data : NewProducer) (s : Hook) :
  new_producer data s = s
  \/ exists sk d marked,
       socketRef s = Some sk
       /\ (np_producerId data ∉ consumedProducersRef s)
       /\ (np_producerId data ∈ consumedProducersRef marked)
       /\ socketRef marked = Some sk
       /\ effects marked = effects s
       /\ new_producer data s = emit (request_of sk d data) marked.
Proof.
  unfold new_producer, on_socket.
  destruct (socketRef s) as [sk|] eqn:Hsk; [|by left].
  destruct (decide (np_producerId data ∈ consumedProducersRef s)) as [Hin|Hnin];
    [by left|].
  destruct (recvTransportRef s) as [tr|]; [|by left].
  destruct (deviceRef s) as [d|]; [|by left].
  right. eexists sk, d, _. split; [done|]. split; [done|].
  split; [|split; [|split; [|reflexivity]]].
  - cbn. set_solver.
  - by destruct (np_appData data).
  - by destruct (np_appData data).
Qed.

(** An announcement of a producer that is marked as consumed is ignored. *)
Lemma new_producer_marked (data : NewProducer) (s : Hook) :
  np_producerId data ∈ consumedProducersRef s -> new_producer data s = s.
Proof.
  intros Hin. unfold new_producer, on_socket.
  destruct (socketRef s); [|done]. by rewrite decide_True.
Qed.

Ltac same_marks :=
  repeat match goal with
         | |- context [match ?x with _ => _ end] => destruct x
         | |- context [if ?x then _ else _] => destruct x
         end;
  try reflexivity.

Lemma produce_resumes_fold_marks producerId requestId (ws : list ProduceWait) :
  forall s : Hook,
    consumedProducersRef (foldl (produce_resumes producerId requestId) s ws)
    = consumedProducersRef s.
Proof.
  induction ws as [|w ws IH]; intros s; [done|]. simpl foldl. rewrite IH.
  unfold produce_resumes, transport_on_produce. same_marks.
Qed.

(** A producer stays marked as consumed until it is closed or the meeting
    is left. *)
Lemma step_keeps_mark (p : string) (s : Hook) (e : Event) :
  forgets p e = false ->
  p ∈ consumedProducersRef s ->
  p ∈ consumedProducersRef (step s e).
Proof.
  intros He Hin.
  assert (Hsame : forall s', consumedProducersRef s' = consumedProducersRef s ->
                             p ∈ consumedProducersRef s')
    by (by intros s' ->).
  destruct e; simpl step; try discriminate He.
  - by apply Hsame.
  - apply Hsame. destruct a; simpl act;
      unfold toggleVideo, toggleAudio, toggleScreenShare, startCamera,
        startMicrophone, startScreenShare, stopCamera, stopMicrophone,
        stopScreenShare, unpublish, transport_on_produce;
      same_marks.
  - apply Hsame. unfold joinMeeting, joinMeeting_settled, joinMeeting_called. same_marks.
  - apply Hsame. unfold joinMeeting_called. same_marks.
  - apply Hsame. unfold joinMeeting_settled. same_marks.
  - apply Hsame. unfold socket_connect, on_socket. same_marks.
  - apply Hsame. unfold socket_connect_error, on_socket. same_marks.
  - apply Hsame. unfold meeting_joined, on_socket. same_marks.
  - apply Hsame. unfold transport_created, on_socket. same_marks.
  - apply Hsame. unfold transport_on_connect, on_socket. same_marks.
  - apply Hsame. unfold transport_connected, on_socket. same_marks.
  - apply Hsame. unfold produced, on_socket.
    destruct (socketRef s); [|done]. cbv zeta.
    by rewrite produce_resumes_fold_marks.
  - apply Hsame. unfold produce_timeout, on_socket. same_marks.
  - unfold new_producer, on_socket. destruct (socketRef s); [|done].
    case_decide; [done|].
    destruct (recvTransportRef s), (deviceRef s); try done.
    hook_simpl. destruct (np_appData data); hook_simpl;
      apply elem_of_union; by right.
  - apply Hsame. unfold consumed, on_socket.
    destruct (socketRef s); [|done]. destruct (recvTransportRef s); [|done].
    destruct consumer; [|done]. destruct resumed; simpl negb; cbv iota; [|done].
    cbv zeta. repeat case_match; reflexivity.
  - apply Hsame. unfold participant_joined, on_socket. same_marks.
  - apply Hsame. unfold participant_left, on_socket. same_marks.
  - simpl in He. apply String.eqb_neq in He.
    unfold producer_closed, on_socket. destruct (socketRef s); [|done].
    cbv zeta. set (s2 := set_producerAppDataRef _ _).
    assert (Hin2 : p ∈ consumedProducersRef s2).
    { subst s2. hook_simpl. set_solver. }
    assert (Hs3 : consumedProducersRef (close_consumer_of (pc_producerId data) s2)
                  = consumedProducersRef s2).
    { unfold close_consumer_of. same_marks. }
    set (s3 := close_consumer_of _ s2) in *.
    rewrite <- Hs3 in Hin2. clearbody s3. clear Hs3.
    assert (Hdrain : forall r, consumedProducersRef (drain_stream r s3)
                               = consumedProducersRef s3) by done.
    destruct (remoteStreamsRef s3 !! pc_participantId data) as [b|]; [|done].
    set (isScreen := is_type _ _).
    destruct (pc_kind data), isScreen, b as [[c|] [sc|] [a|]];
      cbv beta iota; hook_simpl;
      destruct (remoteParticipants _ !! _); hook_simpl; done.
  - apply Hsame. unfold config_updated, on_socket. same_marks.
  - apply Hsame. unfold socket_error, on_socket. same_marks.
  - apply Hsame. unfold socket_disconnect, on_socket. same_marks.
Qed.

Lemma run_keeps_mark (p : string) (es : list Event) :
  forall s : Hook,
    Forall (fun e => forgets p e = false) es ->
    p ∈ consumedProducersRef s ->
    p ∈ consumedProducersRef (foldl step s es).
Proof.
  induction es as [|e es IH]; intros s Hes Hin; [done|].
  apply Forall_cons in Hes as [He Hes]. simpl foldl.
  apply IH; [done|]. by apply step_keeps_mark.
Qed.

(** C2. When ['new-producer'] is delivered twice for the same producer
    identifier, the two deliveries together emit at most one [consume]
    request for it.  A delivery is either dropped or answered by one
    request, which is emitted from a state in which the producer is already
    marked as consumed.  After a delivery that was answered, a second
    delivery leaves the whole state, its [error] included, as it was, and
    so does a second delivery after any turns in between that neither close
    the producer nor leave the meeting. *)
Theorem duplicate_announcement_consumed_once (first second : NewProducer) (s : Hook)
    (between : list Event) :
  np_producerId first = np_producerId second ->
  Forall (fun e => forgets (np_producerId first) e = false) between ->
  consume_requests (np_producerId first)
    (effects (new_producer second (new_producer first s)))
  <= S (consume_requests (np_producerId first) (effects s))
  /\ (new_producer first s = s
      \/ (exists sk d marked,
            (np_producerId first ∈ consumedProducersRef marked)
            /\ effects marked = effects s
            /\ new_producer first s = emit (request_of sk d first) marked)
         /\ new_producer second (new_producer first s) = new_producer first s
         /\ new_producer second (foldl step (new_producer first s) between)
            = foldl step (new_producer first s) between).
Proof.
  intros Hsame Hbetween.
  destruct (new_producer_cases first s)
    as [Hdrop | (sk & d & marked & Hsk & Hnin & Hin & Hsk' & Heff & Hemit)].
  - split; [|by left]. rewrite Hdrop.
    destruct (new_producer_cases second s)
      as [Hdrop2 | (sk & d & marked & _ & _ & _ & _ & Heff & Hemit)].
    + rewrite Hdrop2. lia.
    + rewrite Hemit, effects_emit, Heff, consume_requests_app.
      pose proof (consume_requests_one (np_producerId first)
                    (Emit (request_of sk d second))). lia.
  - assert (Hmarked : np_producerId first ∈ consumedProducersRef (new_producer first s))
      by (by rewrite Hemit).
    assert (Hignored : new_producer second (new_producer first s) = new_producer first s).
    { apply new_producer_marked. by rewrite <- Hsame. }
    split.
    + rewrite Hignored, Hemit, effects_emit, Heff, consume_requests_app.
      pose proof (consume_requests_one (np_producerId first)
                    (Emit (request_of sk d first))). lia.
    + right. split; [by exists sk, d, marked|]. split; [done|].
      apply new_producer_marked. rewrite <- Hsame. by apply run_keeps_mark.
Qed.

Lemma duplicate_announcement_witness :
  np_producerId dup_first = np_producerId dup_second
  /\ Forall (fun e => forgets "P1" e = false)
       [OnParticipantJoined; OnTransportConnected "T-recv"]
  /\ consume_requests "P1"
       (effects (new_producer dup_second (new_producer dup_first sample_ready)))
     <= S (consume_requests "P1" (effects sample_ready)).
Proof.
  assert (Hbetween : Forall (fun e => forgets "P1" e = false)
                       [OnParticipantJoined; OnTransportConnected "T-recv"])
    by (by repeat constructor).
  split; [reflexivity|]. split; [exact Hbetween|].
  apply (duplicate_announcement_consumed_once dup_first dup_second sample_ready
           _ eq_refl Hbetween).
Defined.


(** An announcement that arrives before the receive transport exists is
    dropped: nothing of it is kept for later. *)
Lemma new_producer_before_transport (data : NewProducer) (s : Hook) :
  recvTransportRef s = None -> new_producer data s = s.
Proof.
  intros Hrecv. unfold new_producer, on_socket.
  destruct (socketRef s); [|done]. case_decide; [done|]. by rewrite Hrecv.
Qed.

(** C5. The two arrival orders of an announcement and of the receive
    transport's creation, evaluated on the sample session: announced first,
    the producer is never requested; announced second, it is requested and
    marked.  The two orders do not converge. *)
Theorem announcement_order_evaluated :
  let recv := {| tc_direction := "recv"; tc_id := "T-recv" |} in
  let announced_first := transport_created recv (new_producer dup_first sample_sending) in
  let announced_second := new_producer dup_first (transport_created recv sample_sending) in
  consume_requests "P1" (effects announced_first) = 0
  /\ consumedProducersRef announced_first = ∅
  /\ (sk_pendingProducers <$> socketRef announced_first) = Some []
  /\ consume_requests "P1" (effects announced_second) = 1
  /\ consumedProducersRef announced_second = {["P1"]}.
Proof.
  cbv zeta. repeat split; reflexivity.
Qed.
End Announcements.

(** ** Negotiation acknowledgments *)

Section Negotiation.
Import WebRTC.

(** The publishers that resume after an acknowledgment only emit
    ['produce'] requests and only add handlers. *)
Lemma produce_resumes_fold (producerId requestId : string) (ws : list ProduceWait) :
  forall (s : Hook) (sk : Socket),
    socketRef s = Some sk ->
    exists publishes started,
      Forall is_produce_request publishes
      /\ effects (foldl (produce_resumes producerId requestId) s ws)
         = effects s ++ publishes
      /\ socketRef (foldl (produce_resumes producerId requestId) s ws)
         = Some (sk_set_produced (sk_produced sk ++ started) sk).
Proof.
  induction ws as [|w ws IH]; intros s sk Hsk.
  - exists [], []. simpl foldl. rewrite !app_nil_r. split; [done|]. split; [done|].
    rewrite Hsk. by destruct sk.
  - simpl foldl.
    assert (Hstep : exists publishes started,
              Forall is_produce_request publishes
              /\ effects (produce_resumes producerId requestId s w)
                 = effects s ++ publishes
              /\ socketRef (produce_resumes producerId requestId s w)
                 = Some (sk_set_produced (sk_produced sk ++ started) sk)).
    { unfold produce_resumes.
      destruct (pw_then w) as [a|]; hook_simpl;
        [destruct (sendTransportRef s)|].
      - unfold transport_on_produce. hook_simpl. rewrite Hsk. hook_simpl.
        eexists [_], [_]. split; [|split; reflexivity].
        by repeat constructor.
      - exists [], []. hook_simpl. rewrite !app_nil_r. do 2 (split; [done|]).
        rewrite Hsk. by destruct sk.
      - exists [], []. hook_simpl. rewrite !app_nil_r. do 2 (split; [done|]).
        rewrite Hsk. by destruct sk. }
    destruct Hstep as (p1 & st1 & Hp1 & Heff1 & Hsk1).
    destruct (IH _ _ Hsk1) as (p2 & st2 & Hp2 & Heff2 & Hsk2).
    exists (p1 ++ p2), (st1 ++ st2). split; [by apply Forall_app|].
    split.
    + by rewrite Heff2, Heff1, <- app_assoc.
    + rewrite Hsk2. hook_simpl. by rewrite <- app_assoc.
Qed.

Lemma produced_accepts_spec (response : Produced) (w : ProduceWait) :
  produced_accepts response w = true
  <-> pr_requestId response = None
      \/ pr_requestId response = Some ""
      \/ pr_requestId response = Some (pw_requestId w).
Proof.
  unfold produced_accepts, Api.truthy.
  destruct (pr_requestId response) as [r|].
  - rewrite orb_true_iff, negb_true_iff, negb_false_iff, !String.eqb_eq. split.
    + intros [->| ->]; [right; by left | by right; right].
    + intros [H|[H|H]]; [discriminate | left; congruence | right; congruence].
  - split; [by left | done].
Qed.

(** The claim as stated fails on the sample session: the acknowledgment
    without a request identifier completes the publish that waits for
    [req-1]. *)
Lemma untagged_ack_completes : ~ completes_only_matching untagged_ack "req-2" sample_publishing.
Proof.
  intros Hclaim.
  specialize (Hclaim "req-1" "PX").
  assert (Hin : ProduceCallback "req-1" "PX"
                ∈ performed sample_publishing
                    (produced untagged_ack "req-2" sample_publishing)).
  { vm_compute. apply list_elem_of_here. }
  specialize (Hclaim Hin). discriminate Hclaim.
Qed.

(** C6 (amended). A ['transport-connected'] acknowledgment completes exactly
    the connect negotiations registered for the acknowledged transport
    identifier and leaves the others registered.  A ['produced']
    acknowledgment completes exactly the produce negotiations it is accepted
    by, and leaves the others registered; it is accepted when it carries no
    request identifier, an empty one, or the negotiation's own. *)
Theorem acknowledgments_complete_by_token (s : Hook) (sk : Socket) :
  socketRef s = Some sk ->
  (forall transportId,
     effects (transport_connected transportId s)
       = effects s
         ++ (ConnectCallback
               <$> filter (fun h => h = transportId) (sk_transportConnected sk))
     /\ (sk_transportConnected <$> socketRef (transport_connected transportId s))
        = Some (filter (fun h => h ≠ transportId) (sk_transportConnected sk)))
  /\ (forall response requestId,
        exists publishes started,
          Forall is_produce_request publishes
          /\ effects (produced response requestId s)
             = effects s
               ++ ((fun w => ProduceCallback (pw_requestId w) (pr_producerId response))
                     <$> filter (fun w => produced_accepts response w = true)
                           (sk_produced sk))
               ++ publishes
          /\ (sk_produced <$> socketRef (produced response requestId s))
             = Some (filter (fun w => produced_accepts response w = false)
                       (sk_produced sk) ++ started))
  /\ (forall response w,
        produced_accepts response w = true
        <-> pr_requestId response = None
            \/ pr_requestId response = Some ""
            \/ pr_requestId response = Some (pw_requestId w)).
Proof.
  intros Hsk. split; [|split].
  - intros transportId. unfold transport_connected, on_socket. rewrite Hsk.
    by hook_simpl.
  - intros response requestId. unfold produced, on_socket. rewrite Hsk. cbv zeta.
    set (s1 := perform _ _).
    destruct (produce_resumes_fold (pr_producerId response) requestId
                (filter (fun w => produced_accepts response w = true) (sk_produced sk))
                s1 _ eq_refl) as (publishes & started & Hp & Heff & Hsock).
    exists publishes, started. split; [done|]. split.
    + rewrite Heff. subst s1. hook_simpl. by rewrite <- app_assoc.
    + rewrite Hsock. by hook_simpl.
  - apply produced_accepts_spec.
Qed.

Lemma acknowledgments_complete_by_token_witness :
  socketRef sample_publishing
    = Some {| sk_meetingId := "m1"; sk_pendingProducers := [];
              sk_transportConnected := [];
              sk_produced := [ {| pw_requestId := "req-1"; pw_slot := camera;
                                  pw_track := sample_camera_track;
                                  pw_then := None |} ] |}
  /\ effects (transport_connected "T-send" sample_publishing)
     = effects sample_publishing.
Proof.
  split; [reflexivity|].
  destruct (acknowledgments_complete_by_token sample_publishing _ eq_refl)
    as (Hconnect & _).
  destruct (Hconnect "T-send") as (Heff & _).
  rewrite Heff. apply app_nil_r.
Defined.

End Negotiation.

(** ** Remote streams are distinct objects *)

Section Streams.
Import WebRTC.

Lemma keeps_streams_wf (s s' : Hook) :
  keeps_streams s s' -> streams_wf s -> streams_wf s'.
Proof. intros [Hst Hh] Hwf pid b. rewrite Hst, Hh. apply Hwf. Qed.

Lemma keeps_streams_refl (s : Hook) : keeps_streams s s.
Proof. done. Qed.

Lemma keeps_streams_trans (s1 s2 s3 : Hook) :
  keeps_streams s1 s2 -> keeps_streams s2 s3 -> keeps_streams s1 s3.
Proof. intros [H1 H2] [H3 H4]. split; congruence. Qed.

Ltac keeps :=
  repeat match goal with
         | |- context [match ?x with _ => _ end] => destruct x
         | |- context [if ?x then _ else _] => destruct x
         end;
  try (split; reflexivity).

Lemma transport_on_produce_keeps sl t next requestId (s : Hook) :
  keeps_streams s (transport_on_produce sl t next requestId s).
Proof. unfold transport_on_produce. keeps. Qed.

Lemma unpublish_keeps sl kind appData (s : Hook) :
  keeps_streams s (unpublish sl kind appData s).
Proof. unfold unpublish. keeps. Qed.

Lemma act_keeps (s : Hook) (a : MediaAction) : keeps_streams s (act s a).
Proof.
  destruct a; simpl act;
    unfold toggleVideo, toggleAudio, toggleScreenShare, startCamera,
      startMicrophone, startScreenShare, stopCamera, stopMicrophone,
      stopScreenShare, unpublish, transport_on_produce;
    keeps.
Qed.

Lemma produce_resumes_keeps producerId requestId (s : Hook) (w : ProduceWait) :
  keeps_streams s (produce_resumes producerId requestId s w).
Proof. unfold produce_resumes, transport_on_produce. keeps. Qed.

Lemma produce_resumes_fold_keeps producerId requestId (ws : list ProduceWait) :
  forall s : Hook,
    keeps_streams s (foldl (produce_resumes producerId requestId) s ws).
Proof.
  induction ws as [|w ws IH]; intros s; [done|]. simpl foldl.
  eapply keeps_streams_trans; [apply produce_resumes_keeps | apply IH].
Qed.

Lemma produced_keeps response requestId (s : Hook) :
  keeps_streams s (produced response requestId s).
Proof.
  unfold produced, on_socket. destruct (socketRef s) as [sk|]; [|done].
  cbv zeta. eapply keeps_streams_trans; [|apply produce_resumes_fold_keeps].
  done.
Qed.

Lemma close_consumer_of_keeps producerId (s : Hook) :
  keeps_streams s (close_consumer_of producerId s).
Proof. unfold close_consumer_of. keeps. Qed.

(** A new [MediaStream] is an object that no slot holds yet. *)
Lemma attach_fresh (track : MediaStreamTrack) (h : gmap nat (list MediaStreamTrack)) :
  h !! (attach None track h).1 = None.
Proof. simpl. apply not_elem_of_dom, is_fresh. Qed.

Lemma attach_allocates (slot : option nat) (track : MediaStreamTrack)
    (h : gmap nat (list MediaStreamTrack)) (r : nat) :
  is_Some (h !! r) -> is_Some ((attach slot track h).2 !! r).
Proof.
  intros Hr. unfold attach. destruct slot as [r0|]; simpl.
  - by rewrite lookup_alter_is_Some.
  - destruct (decide (fresh (dom h) = r)) as [<-|Hne].
    + rewrite lookup_insert_eq. eauto.
    + by rewrite lookup_insert_ne.
Qed.

Lemma attach_allocated (slot : option nat) (track : MediaStreamTrack)
    (h : gmap nat (list MediaStreamTrack)) :
  (forall r, slot = Some r -> is_Some (h !! r)) ->
  is_Some ((attach slot track h).2 !! (attach slot track h).1).
Proof.
  intros Hslot. unfold attach. destruct slot as [r0|]; simpl.
  - rewrite lookup_alter_is_Some. by apply Hslot.
  - rewrite lookup_insert_eq. eauto.
Qed.

Lemma bundle_ok_alter (b : Streams) (h : gmap nat (list MediaStreamTrack))
    (f : list MediaStreamTrack -> list MediaStreamTrack) (r : nat) :
  bundle_ok b h -> bundle_ok b (alter f r h).
Proof.
  intros [Hnd Halloc]. split; [done|]. intros x Hx.
  rewrite lookup_alter_is_Some. by apply Halloc.
Qed.

(** A bundle that is good in a heap is good with one more stream in it. *)
Lemma bundle_ok_insert (b : Streams) (h : gmap nat (list MediaStreamTrack))
    (r : nat) (ms : list MediaStreamTrack) :
  bundle_ok b h -> bundle_ok b (<[r := ms]> h).
Proof.
  intros [Hnd Halloc]. split; [done|]. intros x Hx.
  apply lookup_insert_is_Some'. right. by apply Halloc.
Qed.

(** A good bundle with one more, newly allocated stream is good. *)
Lemma bundle_ok_fill (b b' : Streams) (h : gmap nat (list MediaStreamTrack))
    (ms : list MediaStreamTrack) :
  bundle_ok b h ->
  slot_refs b' ≡ₚ fresh (dom h) :: slot_refs b ->
  bundle_ok b' (<[fresh (dom h) := ms]> h).
Proof.
  intros [Hnd Halloc] Hperm. split.
  - rewrite Hperm. apply NoDup_cons. split; [|done].
    intros Hin. apply Halloc, elem_of_dom in Hin. by apply is_fresh in Hin.
  - intros x Hx. rewrite Hperm in Hx. apply lookup_insert_is_Some'.
    apply elem_of_cons in Hx as [->|Hx]; [by left | right; by apply Halloc].
Qed.

(** Filling a slot of a good bundle gives a good bundle. *)
Lemma attach_camera_ok (b : Streams) (track : MediaStreamTrack)
    (h : gmap nat (list MediaStreamTrack)) :
  bundle_ok b h ->
  bundle_ok {| st_camera := Some (attach (st_camera b) track h).1;
               st_screen := st_screen b; st_audio := st_audio b |}
    (attach (st_camera b) track h).2.
Proof.
  intros Hok. destruct b as [[c|] scr aud]; simpl.
  - by apply bundle_ok_alter.
  - by apply (bundle_ok_fill _ _ _ _ Hok).
Qed.

Lemma attach_screen_ok (b : Streams) (track : MediaStreamTrack)
    (h : gmap nat (list MediaStreamTrack)) :
  bundle_ok b h ->
  bundle_ok {| st_camera := st_camera b;
               st_screen := Some (attach (st_screen b) track h).1;
               st_audio := st_audio b |}
    (attach (st_screen b) track h).2.
Proof.
  intros Hok. destruct b as [cam [sc|] aud]; simpl.
  - by apply bundle_ok_alter.
  - apply (bundle_ok_fill _ _ _ _ Hok). unfold slot_refs. simpl.
    destruct cam as [c|]; simpl; [|done]. apply Permutation_swap.
Qed.

Lemma attach_audio_ok (b : Streams) (track : MediaStreamTrack)
    (h : gmap nat (list MediaStreamTrack)) :
  bundle_ok b h ->
  bundle_ok {| st_camera := st_camera b; st_screen := st_screen b;
               st_audio := Some (attach (st_audio b) track h).1 |}
    (attach (st_audio b) track h).2.
Proof.
  intros Hok. destruct b as [cam scr [a|]]; simpl.
  - by apply bundle_ok_alter.
  - apply (bundle_ok_fill _ _ _ _ Hok). unfold slot_refs. simpl.
    destruct cam as [c|], scr as [sc|]; simpl; symmetry.
    + apply (Permutation_cons_append [c; sc]).
    + apply (Permutation_cons_append [c]).
    + apply (Permutation_cons_append [sc]).
    + done.
Qed.

Lemma bundle_ok_empty (h : gmap nat (list MediaStreamTrack)) :
  bundle_ok empty_streams h.
Proof.
  split; [apply NoDup_nil_2|]. intros r Hr. by apply not_elem_of_nil in Hr.
Qed.

(** Replacing a participant's bundle by a good one, in a heap in which the
    other bundles stay good. *)
Lemma streams_wf_update (s s' : Hook) (participantId : string) (b' : Streams) :
  streams_wf s ->
  remoteStreamsRef s' = <[participantId := b']> (remoteStreamsRef s) ->
  bundle_ok b' (heap s') ->
  (forall b, bundle_ok b (heap s) -> bundle_ok b (heap s')) ->
  streams_wf s'.
Proof.
  intros Hwf Hst Hb' Hothers q b. rewrite Hst.
  destruct (decide (participantId = q)) as [<-|Hne].
  - rewrite lookup_insert_eq. by intros [= <-].
  - rewrite lookup_insert_ne by done. intros Hq. by apply Hothers, (Hwf q).
Qed.

Lemma consumed_wf data consumer resumed (s : Hook) :
  streams_wf s -> streams_wf (consumed data consumer resumed s).
Proof.
  intros Hwf. unfold consumed, on_socket.
  destruct (socketRef s) as [sk|]; [|done].
  destruct (recvTransportRef s); [|done].
  destruct consumer as [track|]; [|done].
  set (s1 := emit _ _).
  destruct resumed; simpl negb; cbv iota; [|by apply (keeps_streams_wf s)].
  cbv zeta.
  change (remoteStreamsRef s1) with (remoteStreamsRef s).
  change (heap s1) with (heap s).
  set (streams := default empty_streams _).
  assert (Hok : bundle_ok streams (heap s)).
  { subst streams.
    destruct (remoteStreamsRef s !! cd_producerParticipantId data) as [b|] eqn:Hb;
      simpl; [by apply (Hwf _ _ Hb) | apply bundle_ok_empty]. }
  destruct (cd_kind data); [|destruct (is_type _ _)].
  - pose proof (attach_audio_ok _ track _ Hok) as Hnew.
    destruct (attach (st_audio streams) track (heap s)) as [r h'] eqn:Hatt.
    eapply (streams_wf_update s _ (cd_producerParticipantId data));
      [done | by hook_simpl | exact Hnew |].
    intros b Hb. unfold attach in Hatt.
    destruct (st_audio streams); injection Hatt as <- <-;
      [by apply bundle_ok_alter | by apply bundle_ok_insert].
  - pose proof (attach_screen_ok _ track _ Hok) as Hnew.
    destruct (attach (st_screen streams) track (heap s)) as [r h'] eqn:Hatt.
    eapply (streams_wf_update s _ (cd_producerParticipantId data));
      [done | by hook_simpl | exact Hnew |].
    intros b Hb. unfold attach in Hatt.
    destruct (st_screen streams); injection Hatt as <- <-;
      [by apply bundle_ok_alter | by apply bundle_ok_insert].
  - pose proof (attach_camera_ok _ track _ Hok) as Hnew.
    destruct (attach (st_camera streams) track (heap s)) as [r h'] eqn:Hatt.
    eapply (streams_wf_update s _ (cd_producerParticipantId data));
      [done | by hook_simpl | exact Hnew |].
    intros b Hb. unfold attach in Hatt.
    destruct (st_camera streams); injection Hatt as <- <-;
      [by apply bundle_ok_alter | by apply bundle_ok_insert].
Qed.

(** Emptying a slot of a good bundle gives a good bundle. *)
Lemma bundle_ok_clear (b : Streams) (h : gmap nat (list MediaStreamTrack)) :
  bundle_ok b h ->
  bundle_ok {| st_camera := None; st_screen := st_screen b; st_audio := st_audio b |} h
  /\ bundle_ok {| st_camera := st_camera b; st_screen := None;
                  st_audio := st_audio b |} h
  /\ bundle_ok {| st_camera := st_camera b; st_screen := st_screen b;
                  st_audio := None |} h.
Proof.
  intros [Hnd Halloc]. unfold bundle_ok, slot_refs in *.
  destruct b as [[c|] [sc|] [a|]]; simpl in *;
    rewrite ?NoDup_cons, ?not_elem_of_cons in *;
    repeat split; try tauto; try apply NoDup_nil_2; try apply not_elem_of_nil;
    intros r Hr; apply Halloc; rewrite ?elem_of_cons in *; tauto.
Qed.

Lemma producer_closed_wf data (s : Hook) :
  streams_wf s -> streams_wf (producer_closed data s).
Proof.
  intros Hwf. unfold producer_closed, on_socket.
  destruct (socketRef s) as [sk|]; [|done]. cbv zeta.
  set (s2 := set_producerAppDataRef _ _).
  destruct (close_consumer_of_keeps (pc_producerId data) s2) as [Hst Hheap].
  change (remoteStreamsRef s2) with (remoteStreamsRef s) in Hst.
  change (heap s2) with (heap s) in Hheap.
  set (s3 := close_consumer_of _ s2) in *.
  assert (Hwf3 : streams_wf s3) by (by apply (keeps_streams_wf s)).
  destruct (remoteStreamsRef s3 !! pc_participantId data) as [b|] eqn:Hb; [|done].
  pose proof (Hwf3 _ _ Hb) as Hok.
  destruct (bundle_ok_clear _ _ Hok) as (Hcam & Hscr & Haud).
  assert (Hfinal : forall b' s4,
            bundle_ok b' (heap s4) ->
            remoteStreamsRef s4 = remoteStreamsRef s3 ->
            (forall b0, bundle_ok b0 (heap s3) -> bundle_ok b0 (heap s4)) ->
            streams_wf
              (let s5 := set_remoteStreamsRef
                           (<[pc_participantId data := b']> (remoteStreamsRef s4)) s4 in
               match remoteParticipants s5 !! pc_participantId data with
               | Some existing =>
                   set_remoteParticipants
                     (<[pc_participantId data :=
                          {| odId := odId existing; userName := userName existing;
                             cameraStream := st_camera b';
                             screenStream := st_screen b';
                             audioStream := st_audio b' |}]> (remoteParticipants s5))
                     s5
               | None => s5
               end)).
  { intros b' s4 Hb' Hst4 Hothers. cbv zeta.
    apply (streams_wf_update s3 _ (pc_participantId data) b'); [done| | |].
    - destruct (remoteParticipants _ !! _); hook_simpl; by rewrite Hst4.
    - by destruct (remoteParticipants _ !! _).
    - intros b0 Hb0. destruct (remoteParticipants _ !! _); hook_simpl;
        by apply Hothers. }
  set (isScreen := is_type _ _).
  destruct (pc_kind data), isScreen, b as [[c|] [sc|] [a|]];
    cbv beta iota; simpl st_camera in *; simpl st_screen in *; simpl st_audio in *;
    apply Hfinal; try done;
    try (intros b0 Hb0; by apply bundle_ok_alter);
    by apply bundle_ok_alter.
Qed.

Lemma participant_left_wf participantId (s : Hook) :
  streams_wf s -> streams_wf (participant_left participantId s).
Proof.
  intros Hwf. unfold participant_left, on_socket.
  destruct (socketRef s); [|done]. intros q b. hook_simpl.
  intros Hq%lookup_delete_Some. by apply (Hwf q), Hq.
Qed.

Lemma leaveMeeting_wf (s : Hook) : streams_wf (leaveMeeting s).
Proof. rewrite leaveMeeting_normal. by intros q b. Qed.

Lemma step_wf (s : Hook) (e : Event) : streams_wf s -> streams_wf (step s e).
Proof.
  intros Hwf.
  destruct e; simpl step;
    try (by apply consumed_wf);
    try (by apply producer_closed_wf);
    try (by apply participant_left_wf);
    try (by apply leaveMeeting_wf);
    try (apply (keeps_streams_wf s); [|done]).
  - done.
  - apply act_keeps.
  - unfold joinMeeting, joinMeeting_settled, joinMeeting_called. keeps.
  - unfold joinMeeting_called. keeps.
  - unfold joinMeeting_settled. keeps.
  - unfold socket_connect, on_socket. keeps.
  - unfold socket_connect_error, on_socket. keeps.
  - unfold meeting_joined, on_socket. keeps.
  - unfold transport_created, on_socket. keeps.
  - unfold transport_on_connect, on_socket. keeps.
  - unfold transport_connected, on_socket. keeps.
  - apply produced_keeps.
  - unfold produce_timeout, on_socket. keeps.
  - unfold new_producer, on_socket. keeps.
  - unfold participant_joined, on_socket. keeps.
  - unfold config_updated, on_socket. keeps.
  - unfold socket_error, on_socket. keeps.
  - unfold socket_disconnect, on_socket. keeps.
Qed.

(** In every state that the hook can reach, the bundles hold distinct,
    allocated streams. *)
Lemma reachable_streams_wf (s : Hook) : reachable s -> streams_wf s.
Proof.
  intros (m & es & ->).
  induction es as [|e es IH] using rev_ind.
  - by intros q b.
  - rewrite foldl_snoc. by apply step_wf.
Qed.

(** In particular the camera slot and the screen slot of a participant
    never hold the same stream. *)
Lemma reachable_camera_not_screen (s : Hook) (participantId : string) (b : Streams)
    (c : nat) :
  reachable s ->
  remoteStreamsRef s !! participantId = Some b ->
  st_camera b = Some c ->
  st_screen b <> Some c.
Proof.
  intros Hr Hb Hc Hs. destruct (reachable_streams_wf s Hr _ _ Hb) as [Hnd _].
  unfold slot_refs in Hnd. rewrite Hc, Hs in Hnd. simpl in Hnd.
  apply NoDup_cons in Hnd as [Hnin _]. apply Hnin, list_elem_of_here.
Qed.

End Streams.

(** ** Remote producers: closing *)

Section Closing.
Import WebRTC.

(** Closing the consumer of a producer touches the consumer registry and
    nothing else; it performs at most one [consumer.close()]. *)
Lemma close_consumer_of_frame (p : string) (s : Hook) :
  socketRef (close_consumer_of p s) = socketRef s
  /\ remoteStreamsRef (close_consumer_of p s) = remoteStreamsRef s
  /\ remoteParticipants (close_consumer_of p s) = remoteParticipants s
  /\ heap (close_consumer_of p s) = heap s
  /\ exists closes,
       effects (close_consumer_of p s) = effects s ++ closes
       /\ Forall is_consumer_close closes.
Proof.
  unfold close_consumer_of.
  destruct (List.find _ (consumersRef s)) as [[cid c]|].
  - repeat split; try reflexivity.
    exists [ConsumerClose (consumer_id c)]. split; [reflexivity|].
    by constructor.
  - repeat split; try reflexivity.
    exists []. by rewrite app_nil_r.
Qed.

(** What ['producer-closed'] does to the registry of bundles: nothing, or it
    overwrites the bundle that the participant already has.  Likewise for
    the participants shown. *)
Lemma producer_closed_registry (data : ProducerClosed) (s : Hook) :
  (remoteStreamsRef (producer_closed data s) = remoteStreamsRef s
   \/ exists b b',
        remoteStreamsRef s !! pc_participantId data = Some b
        /\ remoteStreamsRef (producer_closed data s)
           = <[pc_participantId data := b']> (remoteStreamsRef s))
  /\ (remoteParticipants (producer_closed data s) = remoteParticipants s
      \/ exists e e',
           remoteParticipants s !! pc_participantId data = Some e
           /\ remoteParticipants (producer_closed data s)
              = <[pc_participantId data := e']> (remoteParticipants s)).
Proof.
  unfold producer_closed, on_socket.
  destruct (socketRef s) as [sk|]; [|by split; left].
  cbv zeta.
  set (s2 := set_producerAppDataRef _ _).
  destruct (close_consumer_of_frame (pc_producerId data) s2)
    as (_ & Hst & Hrp & _ & _).
  change (remoteStreamsRef s2) with (remoteStreamsRef s) in Hst.
  change (remoteParticipants s2) with (remoteParticipants s) in Hrp.
  set (s3 := close_consumer_of _ s2) in *.
  set (isScreen := is_type _ _).
  rewrite Hst.
  destruct (remoteStreamsRef s !! pc_participantId data) as [b|] eqn:Hb;
    [|by rewrite Hst, Hrp; split; left].
  assert (Hdrain : forall r, remoteStreamsRef (drain_stream r s3) = remoteStreamsRef s
                          /\ remoteParticipants (drain_stream r s3) = remoteParticipants s).
  { intros r. by rewrite <- Hst, <- Hrp. }
  destruct b as [cam scr aud].
  destruct (pc_kind data), isScreen, cam as [c|], scr as [sc|], aud as [a|];
    hook_simpl; rewrite ?Hst, ?Hrp;
    (destruct (remoteParticipants s !! pc_participantId data) as [e|] eqn:He;
     hook_simpl; rewrite ?Hst, ?Hrp;
     (split; [right; by eexists _, _|]);
     [right; by eexists _, _ | by left]).
Qed.

(** The claim as stated fails on the sample session: alice's only producer
    closes, and her bundle stays in the registry with every slot empty. *)
Lemma emptied_bundle_stays : ~ emptied_bundle_removed sample_closed sample_viewing.
Proof.
  intros Hclaim.
  specialize (Hclaim empty_streams eq_refl). discriminate Hclaim.
Qed.

(** What ['producer-closed'] does to the bundle of the participant it
    names: the slot it closes is cleared, the two others are kept. *)
Lemma producer_closed_bundle (data : ProducerClosed) (s : Hook) (b : Streams) :
  is_Some (socketRef s) ->
  remoteStreamsRef s !! pc_participantId data = Some b ->
  exists b',
    remoteStreamsRef (producer_closed data s)
    = <[pc_participantId data := b']> (remoteStreamsRef s)
    /\ slot_of (closed_slot data s) b' = None
    /\ forall sl, sl <> closed_slot data s -> slot_of sl b' = slot_of sl b.
Proof.
  intros [sk Hsk] Hb. unfold producer_closed, on_socket, closed_slot.
  rewrite Hsk. cbv zeta.
  set (s2 := set_producerAppDataRef _ _).
  destruct (close_consumer_of_frame (pc_producerId data) s2)
    as (_ & Hst & _ & _ & _).
  change (remoteStreamsRef s2) with (remoteStreamsRef s) in Hst.
  set (s3 := close_consumer_of _ s2) in *.
  change (effective_appData (pc_appData data) (pc_producerId data)
            (set_consumedProducersRef
               (consumedProducersRef s ∖ {[pc_producerId data]}) s))
    with (effective_appData (pc_appData data) (pc_producerId data) s).
  set (isScreen := is_type _ _).
  rewrite Hst, Hb.
  assert (Hdrain : forall r, remoteStreamsRef (drain_stream r s3) = remoteStreamsRef s)
    by (intros r; by rewrite <- Hst).
  destruct b as [cam scr aud].
  destruct (pc_kind data), isScreen, cam as [c|], scr as [sc|], aud as [a|];
    hook_simpl; rewrite ?Hst;
    (destruct (remoteParticipants _ !! pc_participantId data) as [e|];
     hook_simpl; rewrite ?Hst;
     eexists; (split; [reflexivity|]); (split; [reflexivity|]);
     by intros []).
Qed.

(** C8 (amended). ['producer-closed'] never removes a bundle: a participant
    has a bundle in the registry, and an entry among the participants
    shown, after the event exactly when they had one before, whether or not
    a slot remains populated.  In the bundle of the participant that the
    event names it clears the slot of the closed producer and keeps the two
    other slots; the bundles of the other participants stay as they are.
    ['participant-left'] removes the bundle and the entry, and
    [leaveMeeting] removes all of them. *)
Theorem producer_closed_keeps_bundle (data : ProducerClosed) (s : Hook) (q : string) :
  is_Some (socketRef s) ->
  (is_Some (remoteStreamsRef (producer_closed data s) !! q)
   <-> is_Some (remoteStreamsRef s !! q))
  /\ (is_Some (remoteParticipants (producer_closed data s) !! q)
      <-> is_Some (remoteParticipants s !! q))
  /\ (forall b, remoteStreamsRef s !! pc_participantId data = Some b ->
        exists b',
          remoteStreamsRef (producer_closed data s) !! pc_participantId data = Some b'
          /\ slot_of (closed_slot data s) b' = None
          /\ forall sl, sl <> closed_slot data s -> slot_of sl b' = slot_of sl b)
  /\ (q <> pc_participantId data ->
      remoteStreamsRef (producer_closed data s) !! q = remoteStreamsRef s !! q)
  /\ remoteStreamsRef (participant_left q s) !! q = None
  /\ remoteParticipants (participant_left q s) !! q = None
  /\ remoteStreamsRef (leaveMeeting s) = ∅
  /\ remoteParticipants (leaveMeeting s) = ∅.
Proof.
  intros Hsocket. pose proof Hsocket as [sk Hsk].
  destruct (producer_closed_registry data s) as [Hst Hrp].
  split; [|split; [|split; [|split; [|split; [|split;
    [|by rewrite leaveMeeting_normal]]]]]].
  - destruct Hst as [-> | (b & b' & Hb & ->)]; [done|].
    destruct (decide (pc_participantId data = q)) as [<-|Hne].
    + rewrite lookup_insert_eq, Hb. split; eauto.
    + by rewrite lookup_insert_ne.
  - destruct Hrp as [-> | (e & e' & He & ->)]; [done|].
    destruct (decide (pc_participantId data = q)) as [<-|Hne].
    + rewrite lookup_insert_eq, He. split; eauto.
    + by rewrite lookup_insert_ne.
  - intros b Hb.
    destruct (producer_closed_bundle data s b Hsocket Hb) as (b' & -> & Hc & Hk).
    exists b'. by rewrite lookup_insert_eq.
  - intros Hne. destruct Hst as [-> | (b & b' & Hb & ->)]; [done|].
    by rewrite lookup_insert_ne.
  - unfold participant_left, on_socket. rewrite Hsk. hook_simpl.
    apply lookup_delete_eq.
  - unfold participant_left, on_socket. rewrite Hsk. hook_simpl.
    apply lookup_delete_eq.
Qed.

Lemma producer_closed_keeps_bundle_witness :
  is_Some (socketRef sample_viewing)
  /\ is_Some (remoteStreamsRef (producer_closed sample_closed sample_viewing) !! "alice").
Proof.
  assert (Hsk : is_Some (socketRef sample_viewing)) by (vm_compute; eauto).
  split; [exact Hsk|].
  apply (producer_closed_keeps_bundle sample_closed sample_viewing "alice" Hsk).
  vm_compute; eauto.
Defined.

(** C9. When the event closes a screen-video producer (kind video,
    discriminator [screen], given by the event or remembered from the
    announcement) of a participant whose camera slot is populated, the
    bundle keeps its camera slot and its audio slot and loses its screen
    slot; the camera stream keeps its tracks; the participant shown keeps
    the camera stream; and the only tracks stopped are those of the screen
    stream.  The two slots hold different streams in every state the hook
    can reach ([reachable_camera_not_screen]). *)
Theorem screen_close_leaves_camera (data : ProducerClosed) (s : Hook) (b : Streams)
    (c : nat) :
  is_Some (socketRef s) ->
  pc_kind data = video ->
  is_type "screen" (effective_appData (pc_appData data) (pc_producerId data) s) = true ->
  remoteStreamsRef s !! pc_participantId data = Some b ->
  st_camera b = Some c ->
  st_screen b <> Some c ->
  remoteStreamsRef (producer_closed data s) !! pc_participantId data
    = Some {| st_camera := Some c; st_screen := None; st_audio := st_audio b |}
  /\ heap (producer_closed data s) !! c = heap s !! c
  /\ (cameraStream <$> remoteParticipants (producer_closed data s) !! pc_participantId data)
     = ((fun _ => Some c) <$> remoteParticipants s !! pc_participantId data)
  /\ exists closes,
       Forall is_consumer_close closes
       /\ effects (producer_closed data s)
          = effects s ++ closes ++ (TrackStop <$> slot_tracks (st_screen b) s).
Proof.
  intros [sk Hsk] Hkind Hscreen Hb Hcam Hdistinct.
  unfold producer_closed, on_socket. rewrite Hsk. cbv zeta.
  set (s2 := set_producerAppDataRef _ _).
  destruct (close_consumer_of_frame (pc_producerId data) s2)
    as (_ & Hst & Hrp & Hheap & closes & Heff & Hcloses).
  change (remoteStreamsRef s2) with (remoteStreamsRef s) in Hst.
  change (remoteParticipants s2) with (remoteParticipants s) in Hrp.
  change (heap s2) with (heap s) in Hheap.
  change (effects s2) with (effects s) in Heff.
  set (s3 := close_consumer_of _ s2) in *.
  change (effective_appData (pc_appData data) (pc_producerId data) _)
    with (effective_appData (pc_appData data) (pc_producerId data) s).
  rewrite Hscreen, Hkind, Hst, Hb.
  destruct b as [cam scr aud]. simpl in Hcam, Hdistinct. subst cam.
  destruct scr as [r|]; hook_simpl; rewrite ?Hst, ?Hrp.
  - destruct (remoteParticipants s !! pc_participantId data) as [e|] eqn:He;
      hook_simpl; rewrite ?Hst, ?Hrp, ?Hheap, ?Heff, ?He;
      rewrite ?lookup_insert_eq;
      (split; [done|]);
      (split; [apply lookup_alter_ne; congruence|]);
      (split; [done|]);
      exists closes; (split; [done|]); by rewrite <- app_assoc.
  - destruct (remoteParticipants s !! pc_participantId data) as [e|] eqn:He;
      hook_simpl; rewrite ?Hst, ?Hrp, ?Hheap, ?Heff, ?He;
      rewrite ?lookup_insert_eq;
      (split; [done|]); (split; [done|]); (split; [done|]);
      exists closes; (split; [done|]); by rewrite app_nil_r.
Qed.

Lemma screen_close_leaves_camera_witness :
  is_Some (socketRef sample_sharing)
  /\ pc_kind sample_screen_closed = video
  /\ remoteStreamsRef (producer_closed sample_screen_closed sample_sharing) !! "alice"
     = Some {| st_camera := Some 0; st_screen := None; st_audio := None |}
  /\ heap (producer_closed sample_screen_closed sample_sharing) !! 0
     = Some [sample_track].
Proof.
  assert (Hsk : is_Some (socketRef sample_sharing)) by (vm_compute; eauto).
  assert (Hb : remoteStreamsRef sample_sharing !! pc_participantId sample_screen_closed
               = Some {| st_camera := Some 0; st_screen := Some 1; st_audio := None |})
    by reflexivity.
  destruct (screen_close_leaves_camera sample_screen_closed sample_sharing _ 0
              Hsk eq_refl eq_refl Hb eq_refl) as (Hst & Hheap & _).
  { discriminate. }
  split; [exact Hsk|]. split; [reflexivity|]. split; [exact Hst|].
  rewrite Hheap. reflexivity.
Defined.

End Closing.

(** ** Call lifecycle and admission gate *)

Section Calls.
Import App.

Lemma autoJoinEffect_idle (a : State) :
  join_pending a = false -> autoJoinEffect a = a.
Proof.
  unfold join_pending, autoJoinEffect.
  destruct (currentMeeting a); [|done]. by intros ->.
Qed.

(** After a render nothing is left to join. *)
Lemma autoJoinEffect_settles (a : State) :
  join_pending (autoJoinEffect a) = false.
Proof.
  unfold join_pending, autoJoinEffect.
  destruct (currentMeeting a) as [m|] eqn:Hm; [|by rewrite Hm].
  destruct (shouldAutoJoin a && negb (isWaiting a)) eqn:Hc; simpl.
  - by rewrite Hm.
  - by rewrite Hm, Hc.
Qed.






(** *** The hook before it is joined *)

Import WebRTC.






Lemma track_stops_silent (ts : list MediaStreamTrack) :
  Forall (fun e => ~ is_traffic e) (TrackStop <$> ts).
Proof. apply Forall_fmap, Forall_forall. intros t _. simpl. tauto. Qed.











(** C3. The call lifecycle evaluated where the connection test runs while
    the outgoing call rings.  Initiating the call records its identifier
    and joins nothing.  The connection test then finds the call, which is
    still ringing, takes it for the call the user is in and selects its
    meeting, and the render joins the media session: the component calls
    [joinMeeting] of the hook although no call was accepted. *)
Theorem ringing_call_joined_evaluated :
  activeCallId (run [InitiateCall video_call sample_call] sample_idle) = Some "call-1"
  /\ isInCall (run [InitiateCall video_call sample_call] sample_idle) = false
  /\ calls (run [InitiateCall video_call sample_call] sample_idle) = []
  /\ Forall (fun e => is_acceptance e = false)
       [InitiateCall video_call sample_call;
        TestConnection sample_reachable sample_ringing (found WebRTC.sample_meeting)]
  /\ calls (run [InitiateCall video_call sample_call;
                 TestConnection sample_reachable sample_ringing
                   (found WebRTC.sample_meeting)] sample_idle)
     = [webRTCJoin WebRTC.sample_meeting]
  /\ callStatus (run [InitiateCall video_call sample_call;
                      TestConnection sample_reachable sample_ringing
                        (found WebRTC.sample_meeting)] sample_idle)
     = "In call - ringing".
Proof.
  split; [reflexivity|]. split; [reflexivity|]. split; [reflexivity|].
  split; [by repeat constructor|]. split; reflexivity.
Qed.

End Calls.

Section Admission.
Import App.

(** When the admission check does not succeed, [handleJoinMeeting] takes the
    branch of a meeting without waiting room and the next render joins the
    media session. *)
Lemma unanswered_check_joins (result : Api.Result Api.JoinData) (d : Api.JoinData)
    (admissionCheck : Api.Result Api.AdmissionCheck)
    (admissionResult : Api.AdmissionRequest) (a : State) :
  blank (meetingCode a) = false ->
  Api.success result = true ->
  Api.data result = Some d ->
  Api.canJoin d = true ->
  Api.success admissionCheck = false ->
  shouldAutoJoin a = false ->
  isWaiting a = false ->
  calls (autoJoinEffect (handleJoinMeeting result admissionCheck admissionResult a))
  = calls a ++ [webRTCJoin (Api.jd_meeting d)].
Proof.
  intros Hcode Hok Hdata Hcan Hcheck Hauto Hwait.
  unfold handleJoinMeeting. rewrite Hcode, Hok, Hdata, Hcan. simpl negb. cbv iota.
  rewrite (autoJoinEffect_idle (join_answered d a))
    by (unfold join_pending, join_answered; simpl; by rewrite Hauto).
  unfold admission_answered. rewrite Hcheck. simpl.
  unfold autoJoinEffect. simpl. by rewrite Hwait.
Qed.

(** C7. The join flow evaluated where the admission check fails: the
    component neither waits nor reports; it joins the media session. *)
Theorem failed_admission_check_evaluated :
  calls (autoJoinEffect
           (handleJoinMeeting sample_join sample_check_failed sample_request sample_idle))
  = [webRTCJoin WebRTC.sample_meeting]
  /\ isWaiting (autoJoinEffect
                  (handleJoinMeeting sample_join sample_check_failed sample_request
                     sample_idle))
     = false.
Proof. split; reflexivity. Qed.

End Admission.

(** ** Invariants of the hook *)

Section MoreJsMapFacts.
Context {V : Type}.
Implicit Types (m : list (string * V)) (k : string) (v : V).

Lemma JsMap_elem_of_set m k v k0 v0 :
  (k, v) ∈ JsMap.set k0 v0 m -> (k, v) = (k0, v0) \/ (k, v) ∈ m.
Proof.
  induction m as [|[k' v'] m IH]; simpl.
  - intros H%list_elem_of_singleton. by left.
  - destruct (String.eqb k0 k'); rewrite !elem_of_cons; intros [H|H]; auto.
    destruct (IH H); auto.
Qed.

Lemma JsMap_elem_of_delete m k v k0 :
  (k, v) ∈ JsMap.delete k0 m -> (k, v) ∈ m.
Proof.
  induction m as [|[k' v'] m IH]; simpl; [done|].
  destruct (String.eqb k0 k'); rewrite ?elem_of_cons; intros H; auto.
  destruct H as [H|H]; auto.
Qed.

Lemma JsMap_keys_delete_subseteq m k0 k :
  k ∈ JsMap.keys (JsMap.delete k0 m) -> k ∈ JsMap.keys m.
Proof.
  unfold JsMap.keys. induction m as [|[k' v'] m IH]; simpl; [done|].
  destruct (String.eqb k0 k'); simpl; rewrite ?elem_of_cons; intros H; auto.
  destruct H as [H|H]; auto.
Qed.

Lemma JsMap_delete_NoDup m k0 :
  NoDup (JsMap.keys m) -> NoDup (JsMap.keys (JsMap.delete k0 m)).
Proof.
  unfold JsMap.keys. induction m as [|[k' v'] m IH]; simpl; [done|].
  intros [Hnin Hnd]%NoDup_cons.
  destruct (String.eqb k0 k'); simpl; [done|].
  apply NoDup_cons. split; [|by apply IH].
  intros Hin. by apply Hnin, (JsMap_keys_delete_subseteq m k0).
Qed.

Lemma JsMap_get_None m k : JsMap.get k m = None <-> k ∉ JsMap.keys m.
Proof.
  unfold JsMap.keys. induction m as [|[k' v'] m IH]; simpl.
  - split; [intros _; apply not_elem_of_nil | done].
  - rewrite not_elem_of_cons. destruct (String.eqb k k') eqn:E.
    + apply String.eqb_eq in E. split; [done | by intros [? _]].
    + apply String.eqb_neq in E. rewrite IH. tauto.
Qed.

Lemma JsMap_get_delete_eq m k :
  NoDup (JsMap.keys m) -> JsMap.get k (JsMap.delete k m) = None.
Proof.
  unfold JsMap.keys. induction m as [|[k' v'] m IH]; simpl; [done|].
  intros [Hnin Hnd]%NoDup_cons. destruct (String.eqb k k') eqn:E; simpl.
  - apply String.eqb_eq in E. subst k'. by apply JsMap_get_None.
  - rewrite E. by apply IH.
Qed.

Lemma JsMap_get_delete_ne m k k0 :
  k <> k0 -> JsMap.get k (JsMap.delete k0 m) = JsMap.get k m.
Proof.
  intros Hne. induction m as [|[k' v'] m IH]; simpl; [done|].
  destruct (String.eqb k0 k') eqn:E; simpl.
  - apply String.eqb_eq in E. subst k'.
    apply String.eqb_neq in Hne. by rewrite Hne.
  - by rewrite IH.
Qed.

Lemma JsMap_get_Some_elem_of m k v : JsMap.get k m = Some v -> (k, v) ∈ m.
Proof.
  induction m as [|[k' v'] m IH]; simpl; [done|].
  destruct (String.eqb k k') eqn:E.
  - apply String.eqb_eq in E. intros [= ->]. subst. apply list_elem_of_here.
  - intros H. apply list_elem_of_further. by apply IH.
Qed.

End MoreJsMapFacts.

Section Registries.
Import WebRTC.

Lemma producers_ok_nil : producers_ok [].
Proof.
  split; [apply NoDup_nil_2|]. intros k p H. by apply not_elem_of_nil in H.
Qed.

Lemma producers_ok_set (m : list (string * Producer)) (sl : Slot) (p : Producer) :
  producer_appData p = slot_appData sl ->
  producers_ok m -> producers_ok (JsMap.set (slot_key sl) p m).
Proof.
  intros Hp [Hnd Hall]. split; [by apply JsMap_set_NoDup|].
  intros k q [[= -> ->]|Hin]%JsMap_elem_of_set; [by exists sl | by apply Hall].
Qed.

Lemma producers_ok_delete (m : list (string * Producer)) (k0 : string) :
  producers_ok m -> producers_ok (JsMap.delete k0 m).
Proof.
  intros [Hnd Hall]. split; [by apply JsMap_delete_NoDup|].
  intros k q Hin%JsMap_elem_of_delete. by apply Hall.
Qed.

Lemma consumers_ok_nil : consumers_ok [].
Proof.
  split; [apply NoDup_nil_2|]. intros k p H. by apply not_elem_of_nil in H.
Qed.

Lemma consumers_ok_set (m : list (string * Consumer)) (c : Consumer) :
  consumers_ok m -> consumers_ok (JsMap.set (consumer_id c) c m).
Proof.
  intros [Hnd Hall]. split; [by apply JsMap_set_NoDup|].
  intros k q [[= -> ->]|Hin]%JsMap_elem_of_set; [done | by apply Hall].
Qed.

Lemma consumers_ok_delete (m : list (string * Consumer)) (k0 : string) :
  consumers_ok m -> consumers_ok (JsMap.delete k0 m).
Proof.
  intros [Hnd Hall]. split; [by apply JsMap_delete_NoDup|].
  intros k q Hin%JsMap_elem_of_delete. by apply Hall.
Qed.


Ltac cases :=
  repeat match goal with
         | |- context [match ?x with _ => _ end] => destruct x
         | |- context [if ?x then _ else _] => destruct x
         end.

Ltac unchanged := cases; try reflexivity.

Lemma unpublish_producers_ok sl kind appData (s : Hook) :
  producers_ok (producersRef s) ->
  producers_ok (producersRef (unpublish sl kind appData s)).
Proof.
  intros Hok. unfold unpublish.
  destruct (JsMap.get _ _), (socketRef s), (meeting s); try done.
  hook_simpl. by apply producers_ok_delete.
Qed.

Lemma act_producers_ok (s : Hook) (a : MediaAction) :
  producers_ok (producersRef s) -> producers_ok (producersRef (act s a)).
Proof.
  intros Hok.
  assert (Hstart : forall s', producersRef s' = producersRef s ->
                              producers_ok (producersRef s'))
    by (by intros s' ->).
  assert (Hcam : producers_ok (producersRef (stopCamera s))).
  { unfold stopCamera. apply unpublish_producers_ok. by destruct (localStreamRef s). }
  assert (Hmic : producers_ok (producersRef (stopMicrophone s))).
  { unfold stopMicrophone. apply unpublish_producers_ok.
    by destruct (localStreamRef s). }
  assert (Hscr : producers_ok (producersRef (stopScreenShare s))).
  { unfold stopScreenShare. do 2 apply unpublish_producers_ok.
    by destruct (screenStreamRef s). }
  destruct a; simpl act; unfold toggleVideo, toggleAudio, toggleScreenShare;
    try done;
    try destruct (isVideoEnabled s); try destruct (isAudioEnabled s);
    try destruct (isScreenSharing s); try done;
    apply Hstart;
    unfold startCamera, startMicrophone, startScreenShare, transport_on_produce;
    unchanged.
Qed.

Lemma produce_resumes_producers_ok producerId requestId (s : Hook) (w : ProduceWait) :
  producers_ok (producersRef s) ->
  producers_ok (producersRef (produce_resumes producerId requestId s w)).
Proof.
  intros Hok. unfold produce_resumes, transport_on_produce.
  cases; hook_simpl; by apply producers_ok_set.
Qed.

Lemma produce_resumes_fold_producers_ok producerId requestId (ws : list ProduceWait) :
  forall s : Hook,
    producers_ok (producersRef s) ->
    producers_ok (producersRef (foldl (produce_resumes producerId requestId) s ws)).
Proof.
  induction ws as [|w ws IH]; intros s Hok; [done|]. simpl foldl.
  by apply IH, produce_resumes_producers_ok.
Qed.

Lemma step_producers_ok (s : Hook) (e : Event) :
  producers_ok (producersRef s) -> producers_ok (producersRef (step s e)).
Proof.
  intros Hok.
  assert (Hsame : forall s', producersRef s' = producersRef s ->
                             producers_ok (producersRef s'))
    by (by intros s' ->).
  destruct e; simpl step.
  - done.
  - by apply act_producers_ok.
  - apply Hsame. unfold joinMeeting, joinMeeting_settled, joinMeeting_called. unchanged.
  - apply Hsame. unfold joinMeeting_called. unchanged.
  - apply Hsame. unfold joinMeeting_settled. unchanged.
  - rewrite leaveMeeting_normal. apply producers_ok_nil.
  - apply Hsame. unfold socket_connect, on_socket. unchanged.
  - apply Hsame. unfold socket_connect_error, on_socket. unchanged.
  - apply Hsame. unfold meeting_joined, on_socket. unchanged.
  - apply Hsame. unfold transport_created, on_socket. unchanged.
  - apply Hsame. unfold transport_on_connect, on_socket. unchanged.
  - apply Hsame. unfold transport_connected, on_socket. unchanged.
  - unfold produced, on_socket. destruct (socketRef s); [|done]. cbv zeta.
    by apply produce_resumes_fold_producers_ok.
  - apply Hsame. unfold produce_timeout, on_socket. unchanged.
  - apply Hsame. unfold new_producer, on_socket. unchanged.
  - apply Hsame. unfold consumed, on_socket.
    destruct (socketRef s); [|done]. destruct (recvTransportRef s); [|done].
    destruct consumer; [|done]. destruct resumed; simpl negb; cbv iota; [|done].
    cbv zeta. repeat case_match; reflexivity.
  - apply Hsame. unfold participant_joined, on_socket. unchanged.
  - apply Hsame. unfold participant_left, on_socket. unchanged.
  - apply Hsame. unfold producer_closed, on_socket.
    destruct (socketRef s); [|done]. cbv zeta.
    set (s2 := set_producerAppDataRef _ _).
    assert (Hs3 : producersRef (close_consumer_of (pc_producerId data) s2)
                  = producersRef s).
    { unfold close_consumer_of. unchanged. }
    set (s3 := close_consumer_of _ s2) in *. clearbody s3.
    destruct (remoteStreamsRef s3 !! pc_participantId data) as [b|]; [|done].
    set (isScreen := is_type _ _).
    destruct (pc_kind data), isScreen, b as [[c|] [sc|] [a|]];
      cbv beta iota; hook_simpl;
      destruct (remoteParticipants _ !! _); hook_simpl; done.
  - apply Hsame. unfold config_updated, on_socket. unchanged.
  - apply Hsame. unfold socket_error, on_socket. unchanged.
  - apply Hsame. unfold socket_disconnect, on_socket. unchanged.
Qed.

Lemma close_consumer_of_consumers_ok producerId (s : Hook) :
  consumers_ok (consumersRef s) ->
  consumers_ok (consumersRef (close_consumer_of producerId s)).
Proof.
  intros Hok. unfold close_consumer_of.
  destruct (List.find _ _) as [[cid c]|]; [|done].
  hook_simpl. by apply consumers_ok_delete.
Qed.

Lemma produce_resumes_fold_consumers producerId requestId (ws : list ProduceWait) :
  forall s : Hook,
    consumersRef (foldl (produce_resumes producerId requestId) s ws) = consumersRef s.
Proof.
  induction ws as [|w ws IH]; intros s; [done|]. simpl foldl. rewrite IH.
  unfold produce_resumes, transport_on_produce. unchanged.
Qed.

Lemma step_consumers_ok (s : Hook) (e : Event) :
  consumers_ok (consumersRef s) -> consumers_ok (consumersRef (step s e)).
Proof.
  intros Hok.
  assert (Hsame : forall s', consumersRef s' = consumersRef s ->
                             consumers_ok (consumersRef s'))
    by (by intros s' ->).
  destruct e; simpl step.
  - done.
  - apply Hsame. destruct a; simpl act;
      unfold toggleVideo, toggleAudio, toggleScreenShare, startCamera,
        startMicrophone, startScreenShare, stopCamera, stopMicrophone,
        stopScreenShare, unpublish, transport_on_produce;
      unchanged.
  - apply Hsame. unfold joinMeeting, joinMeeting_settled, joinMeeting_called. unchanged.
  - apply Hsame. unfold joinMeeting_called. unchanged.
  - apply Hsame. unfold joinMeeting_settled. unchanged.
  - rewrite leaveMeeting_normal. apply consumers_ok_nil.
  - apply Hsame. unfold socket_connect, on_socket. unchanged.
  - apply Hsame. unfold socket_connect_error, on_socket. unchanged.
  - apply Hsame. unfold meeting_joined, on_socket. unchanged.
  - apply Hsame. unfold transport_created, on_socket. unchanged.
  - apply Hsame. unfold transport_on_connect, on_socket. unchanged.
  - apply Hsame. unfold transport_connected, on_socket. unchanged.
  - apply Hsame. unfold produced, on_socket. destruct (socketRef s); [|done].
    cbv zeta. by rewrite produce_resumes_fold_consumers.
  - apply Hsame. unfold produce_timeout, on_socket. unchanged.
  - apply Hsame. unfold new_producer, on_socket. unchanged.
  - unfold consumed, on_socket.
    destruct (socketRef s); [|done]. destruct (recvTransportRef s); [|done].
    destruct consumer as [track|]; [|done].
    set (c := {| consumer_id := cd_id data; consumer_producerId := _;
                 consumer_track := track |}).
    pose proof (consumers_ok_set _ c Hok) as Hset.
    destruct resumed; simpl negb; cbv iota; [|done].
    cbv zeta. repeat case_match; exact Hset.
  - apply Hsame. unfold participant_joined, on_socket. unchanged.
  - apply Hsame. unfold participant_left, on_socket. unchanged.
  - unfold producer_closed, on_socket.
    destruct (socketRef s); [|done]. cbv zeta.
    set (s2 := set_producerAppDataRef _ _).
    assert (Hs3 : consumers_ok (consumersRef (close_consumer_of (pc_producerId data) s2)))
      by (by apply close_consumer_of_consumers_ok).
    set (s3 := close_consumer_of _ s2) in *. clearbody s3.
    destruct (remoteStreamsRef s3 !! pc_participantId data) as [b|]; [|done].
    set (isScreen := is_type _ _).
    destruct (pc_kind data), isScreen, b as [[c|] [sc|] [a|]];
      cbv beta iota; hook_simpl;
      destruct (remoteParticipants _ !! _); hook_simpl; done.
  - apply Hsame. unfold config_updated, on_socket. unchanged.
  - apply Hsame. unfold socket_error, on_socket. unchanged.
  - apply Hsame. unfold socket_disconnect, on_socket. unchanged.
Qed.

(** X1. In every state the hook can reach, the registry of local producers
    holds at most one producer per slot: its keys are distinct, every key is
    the key of a slot (so there are at most four), and every producer
    carries the discriminator of the slot it is stored under. *)
Theorem reachable_one_producer_per_slot (s : Hook) :
  reachable s ->
  NoDup (JsMap.keys (producersRef s))
  /\ (forall k p, (k, p) ∈ producersRef s ->
        exists sl, k = slot_key sl /\ producer_appData p = slot_appData sl)
  /\ length (producersRef s) <= 4.
Proof.
  intros (m & es & ->).
  assert (Hok : producers_ok (producersRef (foldl step (initial m) es))).
  { induction es as [|e es IH] using rev_ind; [apply producers_ok_nil|].
    rewrite foldl_snoc. by apply step_producers_ok. }
  destruct Hok as [Hnd Hall]. split; [done|]. split; [done|].
  assert (Hsub : JsMap.keys (producersRef (foldl step (initial m) es))
                 ⊆ slot_key <$> [camera; microphone; screenVideo; screenAudio]).
  { intros k Hk. unfold JsMap.keys in Hk.
    apply list_elem_of_fmap in Hk as ([k' p] & -> & Hin).
    destruct (Hall _ _ Hin) as (sl & -> & _).
    destruct sl; simpl; rewrite !elem_of_cons; auto. }
  pose proof (submseteq_length _ _ (NoDup_submseteq _ _ Hnd Hsub)) as Hlen.
  unfold JsMap.keys in Hlen. rewrite !length_fmap in Hlen. exact Hlen.
Qed.

Lemma sample_published_reachable : reachable sample_published.
Proof.
  exists (Some sample_meeting), sample_published_turns. vm_compute. reflexivity.
Qed.

Lemma reachable_one_producer_per_slot_witness :
  reachable sample_published /\ length (producersRef sample_published) <= 4.
Proof.
  split; [exact sample_published_reachable|].
  apply (reachable_one_producer_per_slot _ sample_published_reachable).
Defined.

(** X2. In every state the hook can reach, the registry of consumers has
    distinct keys and stores every consumer under the consumer's own
    identifier. *)
Theorem reachable_consumers_keyed_by_id (s : Hook) :
  reachable s ->
  NoDup (JsMap.keys (consumersRef s))
  /\ forall k c, (k, c) ∈ consumersRef s -> consumer_id c = k.
Proof.
  intros (m & es & ->).
  induction es as [|e es IH] using rev_ind; [apply consumers_ok_nil|].
  rewrite foldl_snoc. by apply step_consumers_ok.
Qed.

Lemma reachable_consumers_keyed_by_id_witness :
  reachable sample_published /\ NoDup (JsMap.keys (consumersRef sample_published)).
Proof.
  split; [exact sample_published_reachable|].
  apply (reachable_consumers_keyed_by_id _ sample_published_reachable).
Defined.

End Registries.

(** ** The session through a ['producer-closed'] *)

Section Session.
Import WebRTC.

Ltac cases :=
  repeat match goal with
         | |- context [match ?x with _ => _ end] => destruct x
         | |- context [if ?x then _ else _] => destruct x
         end.

(** ['producer-closed'] touches neither the socket, the transports nor the
    device, and sends nothing. *)
Lemma producer_closed_session (data : ProducerClosed) (s : Hook) :
  socketRef (producer_closed data s) = socketRef s
  /\ recvTransportRef (producer_closed data s) = recvTransportRef s
  /\ sendTransportRef (producer_closed data s) = sendTransportRef s
  /\ deviceRef (producer_closed data s) = deviceRef s
  /\ producersRef (producer_closed data s) = producersRef s
  /\ Forall (fun e => ~ is_traffic e) (performed s (producer_closed data s)).
Proof.
  unfold producer_closed, on_socket.
  destruct (socketRef s) as [sk|] eqn:Hsk.
  2:{ rewrite Hsk. repeat split; try done.
      rewrite (performed_app s s []); [done | by rewrite app_nil_r]. }
  cbv zeta. set (s2 := set_producerAppDataRef _ _).
  destruct (close_consumer_of_frame (pc_producerId data) s2)
    as (Hs & _ & _ & _ & closes & Heff & Hcloses).
  assert (Hfields : recvTransportRef (close_consumer_of (pc_producerId data) s2)
                    = recvTransportRef s
                    /\ sendTransportRef (close_consumer_of (pc_producerId data) s2)
                       = sendTransportRef s
                    /\ deviceRef (close_consumer_of (pc_producerId data) s2)
                       = deviceRef s
                    /\ producersRef (close_consumer_of (pc_producerId data) s2)
                       = producersRef s).
  { unfold close_consumer_of. by cases. }
  destruct Hfields as (Hr & Hsd & Hd & Hp).
  change (socketRef s2) with (socketRef s) in Hs.
  change (effects s2) with (effects s) in Heff.
  set (s3 := close_consumer_of _ s2) in *. clearbody s3.
  assert (Hquiet : Forall (fun e => ~ is_traffic e) closes).
  { eapply Forall_impl; [exact Hcloses|].
    intros e Hc Ht. destruct e; simpl in *; tauto. }
  destruct (remoteStreamsRef s3 !! pc_participantId data) as [b|].
  2:{ rewrite Hs, Hr, Hsd, Hd, Hp, Hsk. repeat split; try done.
      by rewrite (performed_app s s3 closes). }
  set (isScreen := is_type _ _).
  destruct (pc_kind data), isScreen, b as [[c|] [sc|] [a|]];
    cbv beta iota; hook_simpl;
    destruct (remoteParticipants _ !! _); hook_simpl;
    rewrite ?Hs, ?Hr, ?Hsd, ?Hd, ?Hp, ?Hsk; (repeat split; try done);
    (erewrite performed_app;
       [|hook_simpl; rewrite Heff, <- ?app_assoc; reflexivity]);
    first [ exact Hquiet
          | apply Forall_app; split; [done|]; apply track_stops_silent ].
Qed.

Lemma unpublish_socketRef (sl : Slot) (kind : MediaKind)
    (appData : option AppData) (s : Hook) :
  socketRef (unpublish sl kind appData s) = socketRef s.
Proof.
  unfold unpublish. destruct (JsMap.get _ _); [|done].
  destruct (socketRef s) eqn:Hsk; [|done]. destruct (meeting s); [|done].
  by hook_simpl.
Qed.

End Session.

Section Display.
Import WebRTC.

Ltac cases :=
  repeat match goal with
         | |- context [match ?x with _ => _ end] => destruct x
         | |- context [if ?x then _ else _] => destruct x
         end.

Lemma produce_resumes_fold_display producerId requestId (ws : list ProduceWait) :
  forall s : Hook,
    remoteParticipants (foldl (produce_resumes producerId requestId) s ws)
    = remoteParticipants s
    /\ remoteStreamsRef (foldl (produce_resumes producerId requestId) s ws)
       = remoteStreamsRef s.
Proof.
  induction ws as [|w ws IH]; intros s; [done|]. simpl foldl.
  destruct (IH (produce_resumes producerId requestId s w)) as [-> ->].
  unfold produce_resumes, transport_on_produce. by cases.
Qed.

Lemma display_update (s s' : Hook) (participantId : string) (b : Streams)
    (e : RemoteParticipant) :
  display_in_sync s ->
  remoteStreamsRef s' = <[participantId := b]> (remoteStreamsRef s) ->
  remoteParticipants s' = <[participantId := e]> (remoteParticipants s) ->
  shown e = b ->
  display_in_sync s'.
Proof.
  intros Hsync Hs Hp <- q. rewrite Hs, Hp.
  destruct (decide (participantId = q)) as [<-|Hne].
  - by rewrite !lookup_insert_eq.
  - rewrite !lookup_insert_ne by done. apply Hsync.
Qed.

Lemma step_display (s : Hook) (e : Event) :
  display_in_sync s -> display_in_sync (step s e).
Proof.
  intros Hsync.
  assert (Hsame : forall s', remoteParticipants s' = remoteParticipants s
                             /\ remoteStreamsRef s' = remoteStreamsRef s ->
                             display_in_sync s').
  { intros s' [Hp Hs] q. rewrite Hp, Hs. apply Hsync. }
  destruct e; simpl step.
  - by apply Hsame.
  - apply Hsame. destruct a; simpl act;
      unfold toggleVideo, toggleAudio, toggleScreenShare, startCamera,
        startMicrophone, startScreenShare, stopCamera, stopMicrophone,
        stopScreenShare, unpublish, transport_on_produce;
      by cases.
  - apply Hsame. unfold joinMeeting, joinMeeting_settled, joinMeeting_called. by cases.
  - apply Hsame. unfold joinMeeting_called. by cases.
  - apply Hsame. unfold joinMeeting_settled. by cases.
  - rewrite leaveMeeting_normal. intros q. hook_simpl. by rewrite !lookup_empty.
  - apply Hsame. unfold socket_connect, on_socket. by cases.
  - apply Hsame. unfold socket_connect_error, on_socket. by cases.
  - apply Hsame. unfold meeting_joined, on_socket. by cases.
  - apply Hsame. unfold transport_created, on_socket. by cases.
  - apply Hsame. unfold transport_on_connect, on_socket. by cases.
  - apply Hsame. unfold transport_connected, on_socket. by cases.
  - apply Hsame. unfold produced, on_socket. destruct (socketRef s); [|done].
    cbv zeta.
    match goal with
    | |- context [foldl _ ?s1 ?ws] =>
        destruct (produce_resumes_fold_display (pr_producerId response) requestId
                    ws s1) as [-> ->]
    end.
    done.
  - apply Hsame. unfold produce_timeout, on_socket. by cases.
  - apply Hsame. unfold new_producer, on_socket. by cases.
  - unfold consumed, on_socket.
    destruct (socketRef s); [|done]. destruct (recvTransportRef s); [|done].
    destruct consumer as [track|]; [|done].
    destruct resumed; simpl negb; cbv iota; [|by apply Hsame].
    cbv zeta.
    repeat case_match;
      (eapply (display_update s _ (cd_producerParticipantId data));
       [done | by hook_simpl | by hook_simpl
       | match goal with |- shown _ = ?b => by destruct b end]).
  - apply Hsame. unfold participant_joined, on_socket. by cases.
  - unfold participant_left, on_socket. destruct (socketRef s); [|done].
    intros q. hook_simpl. destruct (decide (participantId = q)) as [<-|Hne].
    + by rewrite !lookup_delete_eq.
    + rewrite !lookup_delete_ne by done. apply Hsync.
  - unfold producer_closed, on_socket.
    destruct (socketRef s); [|done]. cbv zeta.
    set (s2 := set_producerAppDataRef _ _).
    destruct (close_consumer_of_frame (pc_producerId data) s2)
      as (_ & Hst & Hrp & _).
    change (remoteStreamsRef s2) with (remoteStreamsRef s) in Hst.
    change (remoteParticipants s2) with (remoteParticipants s) in Hrp.
    set (s3 := close_consumer_of _ s2) in *. clearbody s3.
    assert (Hsync3 : display_in_sync s3).
    { intros q. rewrite Hst, Hrp. apply Hsync. }
    destruct (remoteStreamsRef s3 !! pc_participantId data) as [b|] eqn:Hb; [|done].
    pose proof (Hsync3 (pc_participantId data)) as Hq. rewrite Hb in Hq.
    destruct (remoteParticipants s3 !! pc_participantId data) as [ex|] eqn:Hex;
      [|done].
    set (isScreen := is_type _ _).
    destruct (pc_kind data), isScreen, b as [[c|] [sc|] [a|]];
      cbv beta iota; hook_simpl; rewrite Hex;
      (eapply (display_update s3 _ (pc_participantId data));
       [done | by hook_simpl | by hook_simpl | done]).
  - apply Hsame. unfold config_updated, on_socket. by cases.
  - apply Hsame. unfold socket_error, on_socket. by cases.
  - apply Hsame. unfold socket_disconnect, on_socket. by cases.
Qed.

(** X4. In every state the hook can reach, what is displayed is what the
    registry holds: a remote participant is displayed exactly when the
    registry has a bundle for them, and the displayed camera, screen and
    audio streams are the streams of that bundle.  Every bundle holds
    pairwise different streams, each of them allocated. *)
Theorem reachable_display_in_sync (s : Hook) (participantId : string) :
  reachable s ->
  (shown <$> remoteParticipants s !! participantId)
  = remoteStreamsRef s !! participantId
  /\ (forall b, remoteStreamsRef s !! participantId = Some b ->
        NoDup (slot_refs b) /\ forall r, r ∈ slot_refs b -> is_Some (heap s !! r)).
Proof.
  intros Hr. split.
  - destruct Hr as (m & es & ->). revert participantId.
    induction es as [|e es IH] using rev_ind.
    + intros q. simpl. by rewrite !lookup_empty.
    + rewrite foldl_snoc. by apply step_display.
  - intros b Hb. by apply (reachable_streams_wf s Hr participantId).
Qed.

Lemma reachable_display_in_sync_witness :
  reachable sample_published
  /\ (shown <$> remoteParticipants sample_published !! "alice")
     = Some {| st_camera := Some 0; st_screen := Some 1; st_audio := None |}.
Proof.
  split; [exact sample_published_reachable|].
  destruct (reachable_display_in_sync sample_published "alice"
              sample_published_reachable) as [-> _].
  vm_compute. reflexivity.
Defined.

End Display.

(** ** Unpublishing *)

Section Unpublishing.
Import WebRTC.

Lemma track_stops_only (ts : list MediaStreamTrack) :
  Forall is_track_stop (TrackStop <$> ts).
Proof. apply Forall_fmap, Forall_forall. by intros t _. Qed.

(** What the common tail of the stop functions does to a slot that holds a
    producer. *)
Lemma unpublish_held (sl : Slot) (s : Hook) (sk : Socket) (m : Api.Meeting)
    (p : Producer) :
  socketRef s = Some sk ->
  meeting s = Some m ->
  JsMap.get (slot_key sl) (producersRef s) = Some p ->
  unpublish sl (slot_kind sl) (close_appData sl) s
  = set_producersRef (JsMap.delete (slot_key sl) (producersRef s))
      (perform (unpublishing m sl p) s).
Proof. intros Hsk Hm Hp. unfold unpublish. by rewrite Hp, Hsk, Hm. Qed.

Lemma unpublish_free (sl : Slot) (kind : MediaKind) (appData : option AppData)
    (s : Hook) :
  JsMap.get (slot_key sl) (producersRef s) = None ->
  unpublish sl kind appData s = s.
Proof. intros Hp. unfold unpublish. by rewrite Hp. Qed.

Lemma tracks_stopped_frame (sl : Slot) (s : Hook) :
  socketRef (tracks_stopped sl s) = socketRef s
  /\ meeting (tracks_stopped sl s) = meeting s
  /\ sendTransportRef (tracks_stopped sl s) = sendTransportRef s
  /\ producersRef (tracks_stopped sl s) = producersRef s
  /\ exists ts, effects (tracks_stopped sl s) = effects s ++ (TrackStop <$> ts).
Proof.
  destruct sl; simpl;
    [destruct (localStreamRef s) as [ls|] | destruct (localStreamRef s) as [ls|]
    | destruct (screenStreamRef s) as [ls|] | destruct (screenStreamRef s) as [ls|]];
    (repeat split; try reflexivity);
    first [ by eexists | exists []; by rewrite app_nil_r ].
Qed.

Lemma stop_unfold (sl : Slot) (s : Hook) :
  stop sl s
  = match sl with
    | camera | microphone =>
        unpublish sl (slot_kind sl) (close_appData sl) (tracks_stopped sl s)
    | screenVideo | screenAudio =>
        unpublish screenAudio audio (Some (slot_appData screenAudio))
          (unpublish screenVideo video (Some (slot_appData screenVideo))
             (tracks_stopped sl s))
    end.
Proof. by destruct sl. Qed.

Lemma unpublish_cases (sl : Slot) (s : Hook) (sk : Socket) (m : Api.Meeting) :
  socketRef s = Some sk ->
  meeting s = Some m ->
  let s' := unpublish sl (slot_kind sl) (close_appData sl) s in
  socketRef s' = Some sk /\ meeting s' = Some m
  /\ sendTransportRef s' = sendTransportRef s
  /\ producersRef s' = JsMap.delete (slot_key sl) (producersRef s)
  /\ effects s'
     = effects s
       ++ from_option (unpublishing m sl) [] (JsMap.get (slot_key sl) (producersRef s)).
Proof.
  intros Hsk Hm. cbv zeta.
  destruct (JsMap.get (slot_key sl) (producersRef s)) as [p|] eqn:Hp.
  - rewrite (unpublish_held sl s sk m p) by done. hook_simpl. simpl from_option.
    by repeat split.
  - rewrite unpublish_free by done. simpl from_option. rewrite app_nil_r.
    repeat split; try done.
    clear -Hp. induction (producersRef s) as [|[k v] l IH]; simpl in *; [done|].
    destruct (String.eqb (slot_key sl) k); [done|]. f_equal. by apply IH.
Qed.

Lemma slot_key_inj (sl sl' : Slot) : slot_key sl = slot_key sl' -> sl = sl'.
Proof. by destruct sl, sl'. Qed.

(** X5. With a socket and a meeting, a stop function frees every slot it is
    responsible for, and for each producer it finds there it sends
    ['close-producer'] with that producer's id and closes the producer, in
    this order; the producers of the other slots stay where they are. *)
Theorem stop_frees_and_notifies (sl sl' : Slot) (s : Hook) (sk : Socket)
    (m : Api.Meeting) :
  socketRef s = Some sk ->
  meeting s = Some m ->
  NoDup (JsMap.keys (producersRef s)) ->
  if stops sl sl'
  then JsMap.get (slot_key sl') (producersRef (stop sl s)) = None
       /\ forall p, JsMap.get (slot_key sl') (producersRef s) = Some p ->
            exists before after,
              performed s (stop sl s) = before ++ unpublishing m sl' p ++ after
  else JsMap.get (slot_key sl') (producersRef (stop sl s))
       = JsMap.get (slot_key sl') (producersRef s).
Proof.
  intros Hsk Hm Hnd. rewrite stop_unfold.
  destruct (tracks_stopped_frame sl s) as (Hsk0 & Hm0 & _ & Hp0 & ts & He0).
  rewrite <- Hsk0 in Hsk. rewrite <- Hm0 in Hm. rewrite <- Hp0 in Hnd.
  rewrite <- Hp0. revert Hsk Hm Hnd He0.
  generalize (tracks_stopped sl s). intros s0 Hsk Hm Hnd He0.
  assert (Hone : forall x, stops x sl' = true -> (x = camera \/ x = microphone) ->
            let s' := unpublish x (slot_kind x) (close_appData x) s0 in
            JsMap.get (slot_key sl') (producersRef s') = None
            /\ forall p, JsMap.get (slot_key sl') (producersRef s0) = Some p ->
                 exists before after,
                   performed s s' = before ++ unpublishing m sl' p ++ after).
  { intros x Hx Hcm. simpl.
    assert (x = sl') as -> by (destruct Hcm as [-> | ->]; by destruct sl').
    destruct (unpublish_cases sl' s0 sk m Hsk Hm) as (_ & _ & _ & Hp & He).
    rewrite Hp. split; [by apply JsMap_get_delete_eq|].
    intros p Hget. rewrite Hget in He. simpl in He.
    exists (TrackStop <$> ts), [].
    apply performed_app. rewrite He, He0, <- ?app_assoc, ?app_nil_r. reflexivity. }
  assert (Hother : forall x, stops x sl' = false -> (x = camera \/ x = microphone) ->
            JsMap.get (slot_key sl')
              (producersRef (unpublish x (slot_kind x) (close_appData x) s0))
            = JsMap.get (slot_key sl') (producersRef s0)).
  { intros x Hx Hcm.
    destruct (unpublish_cases x s0 sk m Hsk Hm) as (_ & _ & _ & Hp & _).
    rewrite Hp. apply JsMap_get_delete_ne. intros Heq%slot_key_inj. subst x.
    by destruct sl'. }
  destruct (unpublish_cases screenVideo s0 sk m Hsk Hm)
    as (Hsk1 & Hm1 & _ & Hp1 & He1).
  set (s1 := unpublish screenVideo (slot_kind screenVideo)
               (close_appData screenVideo) s0) in *.
  destruct (unpublish_cases screenAudio s1 sk m Hsk1 Hm1)
    as (_ & _ & _ & Hp2 & He2).
  set (s2 := unpublish screenAudio (slot_kind screenAudio)
               (close_appData screenAudio) s1) in *.
  assert (Hscreen : forall x, x = screenVideo \/ x = screenAudio ->
            if stops x sl'
            then JsMap.get (slot_key sl') (producersRef s2) = None
                 /\ forall p, JsMap.get (slot_key sl') (producersRef s0) = Some p ->
                      exists before after,
                        performed s s2 = before ++ unpublishing m sl' p ++ after
            else JsMap.get (slot_key sl') (producersRef s2)
                 = JsMap.get (slot_key sl') (producersRef s0)).
  { intros x Hx. rewrite Hp2, Hp1.
    assert (Hnd1 : NoDup (JsMap.keys (JsMap.delete (slot_key screenVideo)
                                        (producersRef s0))))
      by by apply JsMap_delete_NoDup.
    destruct sl'; (destruct Hx as [-> | ->]; simpl stops; cbv iota).
    1-4: by rewrite !JsMap_get_delete_ne by done.
    - split.
      + rewrite JsMap_get_delete_ne by done. by apply JsMap_get_delete_eq.
      + intros p Hget. rewrite Hget in He1. simpl from_option in He1.
        exists (TrackStop <$> ts),
          (from_option (unpublishing m screenAudio) []
             (JsMap.get (slot_key screenAudio) (producersRef s1))).
        apply performed_app. rewrite He2, He1, He0, <- ?app_assoc, ?app_nil_r.
        reflexivity.
    - split.
      + rewrite JsMap_get_delete_ne by done. by apply JsMap_get_delete_eq.
      + intros p Hget. rewrite Hget in He1. simpl from_option in He1.
        exists (TrackStop <$> ts),
          (from_option (unpublishing m screenAudio) []
             (JsMap.get (slot_key screenAudio) (producersRef s1))).
        apply performed_app. rewrite He2, He1, He0, <- ?app_assoc, ?app_nil_r.
        reflexivity.
    - split.
      + by apply JsMap_get_delete_eq.
      + intros p Hget.
        assert (Hget1 : JsMap.get (slot_key screenAudio) (producersRef s1) = Some p)
          by (by rewrite Hp1, JsMap_get_delete_ne).
        rewrite Hget1 in He2. simpl from_option in He2.
        exists ((TrackStop <$> ts)
                ++ from_option (unpublishing m screenVideo) []
                     (JsMap.get (slot_key screenVideo) (producersRef s0))), [].
        apply performed_app. rewrite He2, He1, He0, <- ?app_assoc, ?app_nil_r.
        reflexivity.
    - split.
      + by apply JsMap_get_delete_eq.
      + intros p Hget.
        assert (Hget1 : JsMap.get (slot_key screenAudio) (producersRef s1) = Some p)
          by (by rewrite Hp1, JsMap_get_delete_ne).
        rewrite Hget1 in He2. simpl from_option in He2.
        exists ((TrackStop <$> ts)
                ++ from_option (unpublishing m screenVideo) []
                     (JsMap.get (slot_key screenVideo) (producersRef s0))), [].
        apply performed_app. rewrite He2, He1, He0, <- ?app_assoc, ?app_nil_r.
        reflexivity. }
  destruct sl.
  - destruct (stops camera sl') eqn:E; [apply Hone | apply Hother]; auto.
  - destruct (stops microphone sl') eqn:E; [apply Hone | apply Hother]; auto.
  - apply (Hscreen screenVideo). auto.
  - apply (Hscreen screenAudio). auto.
Qed.

Lemma stop_frees_and_notifies_witness :
  JsMap.get (slot_key camera) (producersRef (stop camera sample_published)) = None
  /\ JsMap.get (slot_key screenVideo) (producersRef (stop camera sample_published))
     = JsMap.get (slot_key screenVideo) (producersRef sample_published).
Proof.
  assert (Hnd : NoDup (JsMap.keys (producersRef sample_published))).
  { vm_compute. apply NoDup_singleton. }
  assert (Hm : meeting sample_published = Some sample_meeting)
    by (vm_compute; reflexivity).
  destruct (socketRef sample_published) as [sk|] eqn:Hsk;
    [|vm_compute in Hsk; discriminate Hsk].
  pose proof (stop_frees_and_notifies camera camera sample_published sk
                sample_meeting Hsk Hm Hnd) as Hfreed.
  pose proof (stop_frees_and_notifies camera screenVideo sample_published sk
                sample_meeting Hsk Hm Hnd) as Hkept.
  simpl stops in Hfreed, Hkept. cbv iota in Hfreed, Hkept.
  split; [exact (proj1 Hfreed) | exact Hkept].
Defined.

Lemma unpublish_localStreamRef (sl : Slot) (kind : MediaKind)
    (appData : option AppData) (s : Hook) :
  localStreamRef (unpublish sl kind appData s) = localStreamRef s.
Proof.
  unfold unpublish.
  by destruct (JsMap.get _ _), (socketRef s), (meeting s).
Qed.

Lemma elem_of_removed (ts ls : list MediaStreamTrack) (x : MediaStreamTrack) :
  x ∈ foldl (fun acc t => removeTrack t acc) ls ts -> x ∈ ls /\ x ∉ ts.
Proof.
  revert ls. induction ts as [|t ts IH]; intros ls; simpl.
  - intros Hx. split; [done|]. apply not_elem_of_nil.
  - intros [Hin Hnin]%IH. unfold removeTrack in Hin.
    apply list_elem_of_filter in Hin as [Hne Hin]. split; [done|].
    by intros [->|Hts]%elem_of_cons.
Qed.

Lemma filter_none {A} (P : A -> Prop) `{!forall x, Decision (P x)} (l : list A) :
  (forall x, x ∈ l -> ~ P x) -> filter P l = [].
Proof.
  induction l as [|a l IH]; intros Hall; [done|].
  rewrite filter_cons. destruct (decide (P a)) as [Hp|_].
  - destruct (Hall a); [apply elem_of_cons; by left | done].
  - apply IH. intros x Hx. apply Hall, elem_of_cons. by right.
Qed.

(** A stop function leaves the hook able to publish, with distinct keys. *)
Lemma stop_can_publish (sl : Slot) (s : Hook) (sk : Socket) :
  can_publish sk s ->
  NoDup (JsMap.keys (producersRef s)) ->
  can_publish sk (stop sl s) /\ NoDup (JsMap.keys (producersRef (stop sl s))).
Proof.
  intros (Hsk & Hnone & Htr & [m Hm]) Hnd. rewrite stop_unfold.
  destruct (tracks_stopped_frame sl s) as (Hsk0 & Hm0 & Htr0 & Hp0 & _).
  rewrite <- Hsk0 in Hsk. rewrite <- Hm0 in Hm. rewrite <- Htr0 in Htr.
  rewrite <- Hp0 in Hnd. revert Hsk Hm Htr Hnd.
  generalize (tracks_stopped sl s). intros s0 Hsk Hm Htr Hnd.
  assert (Hone : forall x s1, socketRef s1 = Some sk -> meeting s1 = Some m ->
            is_Some (sendTransportRef s1) -> NoDup (JsMap.keys (producersRef s1)) ->
            let s' := unpublish x (slot_kind x) (close_appData x) s1 in
            can_publish sk s' /\ NoDup (JsMap.keys (producersRef s'))).
  { intros x s1 Hsk1 Hm1 Htr1 Hnd1. simpl.
    destruct (unpublish_cases x s1 sk m Hsk1 Hm1) as (Hsk' & Hm' & Htr' & Hp' & _).
    unfold can_publish. rewrite Hsk', Hm', Htr', Hp'.
    split; [by repeat split|]. by apply JsMap_delete_NoDup. }
  assert (Hscreen : can_publish sk
            (unpublish screenAudio audio (Some (slot_appData screenAudio))
               (unpublish screenVideo video (Some (slot_appData screenVideo)) s0))
          /\ NoDup (JsMap.keys (producersRef
               (unpublish screenAudio audio (Some (slot_appData screenAudio))
                  (unpublish screenVideo video (Some (slot_appData screenVideo)) s0))))).
  { destruct (Hone screenVideo s0 Hsk Hm Htr Hnd) as ((Hsk1 & _ & Htr1 & _) & Hnd1).
    destruct (unpublish_cases screenVideo s0 sk m Hsk Hm) as (_ & Hm1 & _).
    by apply (Hone screenAudio). }
  destruct sl; [by apply (Hone camera) | by apply (Hone microphone) | done | done].
Qed.

(** After [stopCamera] the local stream holds no video track, after
    [stopMicrophone] no audio track. *)
Lemma stopCamera_no_video (s : Hook) (ls : list MediaStreamTrack) :
  localStreamRef (stopCamera s) = Some ls -> getVideoTracks ls = [].
Proof.
  unfold stopCamera. rewrite unpublish_localStreamRef.
  destruct (localStreamRef s) as [ls0|] eqn:Hls; [|by rewrite Hls].
  unfold stop_and_remove. hook_simpl. rewrite Hls. simpl. intros [= <-].
  apply filter_none. intros x [Hin Hnin]%elem_of_removed Hk.
  apply Hnin. unfold getVideoTracks. by apply list_elem_of_filter.
Qed.

Lemma stopMicrophone_no_audio (s : Hook) (ls : list MediaStreamTrack) :
  localStreamRef (stopMicrophone s) = Some ls -> getAudioTracks ls = [].
Proof.
  unfold stopMicrophone. rewrite unpublish_localStreamRef.
  destruct (localStreamRef s) as [ls0|] eqn:Hls; [|by rewrite Hls].
  unfold stop_and_remove. hook_simpl. rewrite Hls. simpl. intros [= <-].
  apply filter_none. intros x [Hin Hnin]%elem_of_removed Hk.
  apply Hnin. unfold getAudioTracks. by apply list_elem_of_filter.
Qed.

Lemma head_video_added (ls : list MediaStreamTrack) (t : MediaStreamTrack) :
  track_kind t = video -> getVideoTracks ls = [] ->
  head (getVideoTracks (addTrack t ls)) = Some t.
Proof.
  intros Hk Hnone. unfold addTrack. destruct (decide (t ∈ ls)) as [Hin|_].
  - assert (Hv : t ∈ getVideoTracks ls) by (by apply list_elem_of_filter).
    rewrite Hnone in Hv. by apply not_elem_of_nil in Hv.
  - unfold getVideoTracks in *. rewrite filter_app, Hnone. simpl.
    rewrite filter_cons. by destruct (decide (track_kind t = video)).
Qed.

Lemma head_audio_added (ls : list MediaStreamTrack) (t : MediaStreamTrack) :
  track_kind t = audio -> getAudioTracks ls = [] ->
  head (getAudioTracks (addTrack t ls)) = Some t.
Proof.
  intros Hk Hnone. unfold addTrack. destruct (decide (t ∈ ls)) as [Hin|_].
  - assert (Hv : t ∈ getAudioTracks ls) by (by apply list_elem_of_filter).
    rewrite Hnone in Hv. by apply not_elem_of_nil in Hv.
  - unfold getAudioTracks in *. rewrite filter_app, Hnone. simpl.
    rewrite filter_cons. by destruct (decide (track_kind t = audio)).
Qed.

(** X6. Publishing after the slot's stop function binds the slot to the
    track of the new capture, for all four slots: the camera that is turned
    off and on again sends the new track. *)
Theorem publish_after_stop_binds_capture (sl : Slot)
    (stream : list MediaStreamTrack) (k : Tokens) (s : Hook) (sk : Socket)
    (t : MediaStreamTrack) :
  can_publish sk s ->
  NoDup (JsMap.keys (producersRef s)) ->
  captures sl stream ->
  captured sl stream = Some t ->
  JsMap.get (slot_key sl) (producersRef (publish sl stream k (stop sl s)))
  = Some {| producer_id := slot_producer sl k; producer_track := t;
            producer_appData := slot_appData sl |}.
Proof.
  intros Hcan Hnd Hcap Ht.
  destruct (stop_can_publish sl s sk Hcan Hnd) as [Hcan' Hnd'].
  assert (Hscreen : sl = screenVideo \/ sl = screenAudio ->
            JsMap.get (slot_key sl) (producersRef (publish sl stream k (stop sl s)))
            = Some {| producer_id := slot_producer sl k; producer_track := t;
                      producer_appData := slot_appData sl |}).
  { intros Hsl.
    destruct (publish_step sl stream k (stop sl s) sk Hcan' Hcap Hnd')
      as (_ & _ & (track & Hget & Htrack) & _).
    specialize (Htrack Hsl). rewrite Ht in Htrack. by injection Htrack as <-. }
  pose proof Hcan' as (Hsk & Hnone & [tr Htr] & [m Hm]).
  destruct sl; [| |by apply Hscreen; auto|by apply Hscreen; auto]; clear Hscreen.
  - simpl in Ht. simpl stop in *. unfold publish, startCamera.
    set (merged := match localStreamRef (stopCamera s) with Some _ => _ | None => _ end).
    assert (Hmerged : exists ls', merged = Some ls'
                        /\ head (getVideoTracks ls') = Some t).
    { subst merged. destruct (localStreamRef (stopCamera s)) as [ls|] eqn:Hls.
      - rewrite Ht. simpl. exists (addTrack t ls). split; [done|].
        apply head_video_added; [by apply (head_video_kind stream)|].
        by apply (stopCamera_no_video s).
      - by exists stream. }
    destruct Hmerged as (ls' & -> & Htrack).
    hook_simpl. rewrite Htr, Hm, Htrack.
    set (s1 := set_isVideoEnabled _ _).
    destruct (produce_acknowledged camera t (tk_request k) (tk_producer k)
                (tk_audioRequest k) s1 sk Hsk Hnone) as (_ & _ & _ & -> & _).
    apply JsMap_get_set_eq.
  - simpl in Ht. simpl stop in *. unfold publish, startMicrophone.
    set (merged := match localStreamRef (stopMicrophone s) with Some _ => _ | None => _ end).
    assert (Hmerged : exists ls', merged = Some ls'
                        /\ head (getAudioTracks ls') = Some t).
    { subst merged. destruct (localStreamRef (stopMicrophone s)) as [ls|] eqn:Hls.
      - rewrite Ht. simpl. exists (addTrack t ls). split; [done|].
        apply head_audio_added; [by apply (head_audio_kind stream)|].
        by apply (stopMicrophone_no_audio s).
      - by exists stream. }
    destruct Hmerged as (ls' & -> & Htrack).
    hook_simpl. rewrite Htr, Hm, Htrack.
    set (s1 := set_isAudioEnabled _ _).
    destruct (produce_acknowledged microphone t (tk_request k) (tk_producer k)
                (tk_audioRequest k) s1 sk Hsk Hnone) as (_ & _ & _ & -> & _).
    apply JsMap_get_set_eq.
Qed.

Lemma publish_after_stop_binds_capture_witness :
  producer_track
    <$> JsMap.get (slot_key camera)
          (producersRef (publish camera [sample_camera_track'] sample_tokens'
                           (stop camera sample_published)))
  = Some sample_camera_track'.
Proof.
  erewrite (publish_after_stop_binds_capture camera [sample_camera_track']
              sample_tokens' sample_published _ sample_camera_track').
  - reflexivity.
  - split; [vm_compute; reflexivity|]. split; [reflexivity|].
    split; vm_compute; by eexists.
  - vm_compute. apply NoDup_singleton.
  - split; [by eexists | done].
  - reflexivity.
Defined.
End Unpublishing.

(** ** The media flags and the references behind them *)

Section Flags.
Import WebRTC.

Ltac cases :=
  repeat match goal with
         | |- context [match ?x with _ => _ end] => destruct x
         | |- context [if ?x then _ else _] => destruct x
         end.

Lemma transport_on_produce_media sl t next r s :
  local_media (transport_on_produce sl t next r s) = local_media s.
Proof. unfold transport_on_produce. by cases. Qed.

Lemma unpublish_media sl k a s :
  local_media (unpublish sl k a s) = local_media s.
Proof. unfold unpublish. by cases. Qed.

Lemma produce_resumes_media p r s w :
  local_media (produce_resumes p r s w) = local_media s.
Proof.
  unfold produce_resumes. destruct (pw_then w); [|done].
  hook_simpl. destruct (sendTransportRef s); [|done].
  by rewrite transport_on_produce_media.
Qed.

Lemma produce_resumes_fold_media p r ws : forall s,
  local_media (foldl (produce_resumes p r) s ws) = local_media s.
Proof.
  induction ws as [|w ws IH]; intros s; [done|]. simpl foldl.
  rewrite IH. apply produce_resumes_media.
Qed.

Lemma producer_closed_media data s :
  local_media (producer_closed data s) = local_media s.
Proof.
  unfold producer_closed, on_socket. destruct (socketRef s); [|done]. cbv zeta.
  set (s2 := set_producerAppDataRef _ _).
  assert (H3 : local_media (close_consumer_of (pc_producerId data) s2)
               = local_media s).
  { unfold close_consumer_of. by cases. }
  set (s3 := close_consumer_of _ s2) in *. clearbody s3. clear s2.
  destruct (remoteStreamsRef s3 !! pc_participantId data) as [b|]; [|done].
  set (isScreen := is_type _ _).
  destruct (pc_kind data), isScreen, b as [[c|] [sc|] [a|]];
    cbv beta iota; hook_simpl;
    destruct (remoteParticipants _ !! _); hook_simpl; exact H3.
Qed.

Lemma consumed_media data consumer resumed s :
  local_media (consumed data consumer resumed s) = local_media s.
Proof.
  unfold consumed, on_socket. destruct (socketRef s); [|done].
  destruct (recvTransportRef s); [|done]. destruct consumer; [|done].
  destruct resumed; simpl negb; cbv iota; [|done].
  cbv zeta. by repeat case_match.
Qed.

Lemma flags_ok_from (s s' : Hook) :
  local_media s' = local_media s -> flags_ok s -> flags_ok s'.
Proof.
  intros Hm Hok. unfold local_media in Hm.
  injection Hm as Hv Ha Hs Hl Hsc.
  destruct Hok as (H1 & H2 & H3). unfold flags_ok.
  rewrite Hv, Ha, Hs, Hl, Hsc. by repeat split; try apply H1.
Qed.

Lemma unpublish_flags sl k a s : flags_ok s -> flags_ok (unpublish sl k a s).
Proof. apply flags_ok_from, unpublish_media. Qed.

Lemma transport_on_produce_flags sl t next r s :
  flags_ok s -> flags_ok (transport_on_produce sl t next r s).
Proof. apply flags_ok_from, transport_on_produce_media. Qed.

Lemma act_flags (s : Hook) (a : MediaAction) : flags_ok s -> flags_ok (act s a).
Proof.
  intros Hok.
  assert (Hstart : forall ls', flags_ok (set_isVideoEnabled true
                                 (set_localStreamRef (Some ls') s))
                               /\ flags_ok (set_isAudioEnabled true
                                    (set_localStreamRef (Some ls') s))).
  { intros ls'. destruct Hok as (H1 & H2 & H3).
    unfold flags_ok. hook_simpl. by repeat split; try done; apply H1. }
  assert (Hshare : forall ss, flags_ok (set_isScreenSharing true
                                 (set_screenStreamRef (Some ss) s))).
  { intros ss. destruct Hok as (H1 & H2 & H3).
    unfold flags_ok. hook_simpl. by repeat split. }
  assert (Herr : forall e s0, flags_ok s0 -> flags_ok (set_error e s0)).
  { intros e s0. by apply flags_ok_from. }
  assert (Hcam : flags_ok (stopCamera s)).
  { unfold stopCamera. apply unpublish_flags.
    destruct (localStreamRef s) as [ls|] eqn:Hls; [|done].
    destruct Hok as (H1 & H2 & H3). unfold flags_ok, stop_and_remove.
    hook_simpl. rewrite Hls. by repeat split; try done; apply H1. }
  assert (Hmic : flags_ok (stopMicrophone s)).
  { unfold stopMicrophone. apply unpublish_flags.
    destruct (localStreamRef s) as [ls|] eqn:Hls; [|done].
    destruct Hok as (H1 & H2 & H3). unfold flags_ok, stop_and_remove.
    hook_simpl. rewrite Hls. by repeat split; try done; apply H1. }
  assert (Hscr : flags_ok (stopScreenShare s)).
  { unfold stopScreenShare. do 2 apply unpublish_flags.
    destruct (screenStreamRef s) as [ss|] eqn:Hss; [|done].
    destruct Hok as (H1 & H2 & H3). unfold flags_ok.
    hook_simpl. repeat split; try done; by intros [? ?]. }
  assert (Hsc : forall gum r, flags_ok (startCamera gum r s)).
  { intros gum r. unfold startCamera. destruct gum as [stream|e]; [|by apply Herr].
    destruct (match localStreamRef s with Some _ => _ | None => _ end) as [ls'|];
      [|by apply Herr].
    cbv zeta. cases; try apply transport_on_produce_flags; apply Hstart. }
  assert (Hsm : forall gum r, flags_ok (startMicrophone gum r s)).
  { intros gum r. unfold startMicrophone. destruct gum as [stream|e]; [|by apply Herr].
    destruct (match localStreamRef s with Some _ => _ | None => _ end) as [ls'|];
      [|by apply Herr].
    cbv zeta. cases; try apply transport_on_produce_flags; apply Hstart. }
  assert (Hss : forall gdm r, flags_ok (startScreenShare gdm r s)).
  { intros gdm r. unfold startScreenShare. destruct gdm as [stream|e].
    - cbv zeta. cases; try apply transport_on_produce_flags; try apply Herr;
        apply Hshare.
    - cases; [done | by apply Herr]. }
  destruct a; simpl act; unfold toggleVideo, toggleAudio, toggleScreenShare;
    cases; auto.
Qed.

(** A turn keeps the flags in agreement with the references. *)
Lemma step_flags (s : Hook) (e : Event) : flags_ok s -> flags_ok (step s e).
Proof.
  intros Hok.
  assert (Hsame : forall s', local_media s' = local_media s -> flags_ok s')
    by (intros s' Hm; by apply (flags_ok_from s)).
  destruct e; simpl step.
  - by apply Hsame.
  - by apply act_flags.
  - apply Hsame. unfold joinMeeting, joinMeeting_settled, joinMeeting_called. by cases.
  - apply Hsame. unfold joinMeeting_called. by cases.
  - apply Hsame. unfold joinMeeting_settled. by cases.
  - rewrite leaveMeeting_normal. unfold flags_ok. hook_simpl.
    repeat split; try done; by intros [? ?].
  - apply Hsame. unfold socket_connect, on_socket. by cases.
  - apply Hsame. unfold socket_connect_error, on_socket. by cases.
  - apply Hsame. unfold meeting_joined, on_socket. by cases.
  - apply Hsame. unfold transport_created, on_socket. by cases.
  - apply Hsame. unfold transport_on_connect, on_socket. by cases.
  - apply Hsame. unfold transport_connected, on_socket. by cases.
  - apply Hsame. unfold produced, on_socket.
    destruct (socketRef s); [|done]. cbv zeta.
    by rewrite produce_resumes_fold_media.
  - apply Hsame. unfold produce_timeout, on_socket. by cases.
  - apply Hsame. unfold new_producer, on_socket. by cases.
  - apply Hsame. apply consumed_media.
  - apply Hsame. unfold participant_joined, on_socket. by cases.
  - apply Hsame. unfold participant_left, on_socket. by cases.
  - apply Hsame. apply producer_closed_media.
  - apply Hsame. unfold config_updated, on_socket. by cases.
  - apply Hsame. unfold socket_error, on_socket. by cases.
  - apply Hsame. unfold socket_disconnect, on_socket. by cases.
Qed.

(** X7. In every state the hook can reach, the media flags it returns
    agree with the references behind them: [isScreenSharing] is set exactly
    while a screen stream is held, [isVideoEnabled] and [isAudioEnabled]
    only while a local stream is held. *)
Theorem reachable_flags_agree (s : Hook) :
  reachable s ->
  (isScreenSharing s = true <-> is_Some (screenStreamRef s))
  /\ (isVideoEnabled s = true -> is_Some (localStreamRef s))
  /\ (isAudioEnabled s = true -> is_Some (localStreamRef s)).
Proof.
  intros (m & es & ->). change (flags_ok (foldl step (initial m) es)).
  induction es as [|e es IH] using rev_ind.
  - unfold flags_ok. simpl. repeat split; try done; by intros [? ?].
  - rewrite foldl_snoc. by apply step_flags.
Qed.

Lemma reachable_flags_agree_witness :
  reachable sample_published /\ is_Some (localStreamRef sample_published).
Proof.
  split; [exact sample_published_reachable|].
  destruct (reachable_flags_agree _ sample_published_reachable) as (_ & Hv & _).
  apply Hv. vm_compute. reflexivity.
Defined.
End Flags.

(** ** Joining, and the producers that were there before *)

Section Sessions.
Import WebRTC.

Ltac cases :=
  repeat match goal with
         | |- context [match ?x with _ => _ end] => destruct x
         | |- context [if ?x then _ else _] => destruct x
         end.


(** X9. The producers that ['meeting-joined'] lists are requested when the
    receive transport is created.  When the profile in the payload can be
    logged, ['meeting-joined'] asks for the send and the receive transport,
    ['transport-created'] for a direction other than ["send"] then sends one
    ['consume'] per listed producer, in the order of the list, and empties
    the list, so that a further ['transport-created'] sends nothing; none
    of these producers is marked as consumed.  When the profile has a
    [config] without [video], [audio] or [features], the handler stops at
    its logging: it marks the hook connected, asks for no transport and
    does not store the list. *)
Theorem existing_producers_consumed_once (s : Hook) (sk : Socket) (d : Device)
    (data : MeetingJoined) (ps : list PendingProducer) (tc tc' : TransportCreated) :
  socketRef s = Some sk ->
  deviceRef s = Some d ->
  mj_existingProducers data = Some ps ->
  ps <> [] ->
  tc_direction tc <> "send" ->
  let s1 := meeting_joined data s in
  let s2 := transport_created tc s1 in
  if describable (mj_optimization data)
  then performed s s1 = [Emit (create_transport (sk_meetingId sk) "send");
                         Emit (create_transport (sk_meetingId sk) "recv")]
       /\ performed s1 s2 = consume_pending sk d <$> ps
       /\ performed s2 (transport_created tc' s2) = []
       /\ consumedProducersRef s2 = consumedProducersRef s
  else performed s s1 = []
       /\ socketRef s1 = Some sk
       /\ isConnected s1 = true.
Proof.
  intros Hsk Hd Hps Hne Hdir. cbv zeta.
  destruct (describable (mj_optimization data)) eqn:Hlog.
  2:{ unfold meeting_joined, on_socket. rewrite Hsk, Hlog. cbv zeta.
      destruct (mj_optimization data); hook_simpl;
        (split; [apply performed_app; by rewrite app_nil_r|done]). }
  assert (Hs1 : socketRef (meeting_joined data s)
                = Some (sk_set_pendingProducers ps sk)
                /\ deviceRef (meeting_joined data s) = Some d
                /\ consumedProducersRef (meeting_joined data s)
                   = consumedProducersRef s
                /\ effects (meeting_joined data s)
                   = effects s ++ [Emit (create_transport (sk_meetingId sk) "send");
                                   Emit (create_transport (sk_meetingId sk) "recv")]).
  { unfold meeting_joined, on_socket. rewrite Hsk, Hps, Hlog. cbv zeta.
    destruct ps as [|p ps']; [done|].
    destruct (mj_optimization data); hook_simpl; rewrite ?Hd;
      by rewrite <- app_assoc. }
  destruct Hs1 as (Hsk1 & Hd1 & Hc1 & He1).
  set (s1 := meeting_joined data s) in *. clearbody s1.
  assert (Hs2 : socketRef (transport_created tc s1)
                = Some (sk_set_pendingProducers [] (sk_set_pendingProducers ps sk))
                /\ consumedProducersRef (transport_created tc s1)
                   = consumedProducersRef s1
                /\ effects (transport_created tc s1)
                   = effects s1 ++ (consume_pending sk d <$> ps)).
  { unfold transport_created, on_socket. rewrite Hsk1.
    apply String.eqb_neq in Hdir. rewrite Hdir. cbv zeta. hook_simpl.
    rewrite Hd1. destruct ps as [|p ps']; [done|]. by hook_simpl. }
  destruct Hs2 as (Hsk2 & Hc2 & He2).
  set (s2 := transport_created tc s1) in *. clearbody s2.
  split; [by apply performed_app|]. split; [by apply performed_app|].
  split; [|by rewrite Hc2].
  apply performed_app. rewrite app_nil_r.
  unfold transport_created, on_socket. rewrite Hsk2.
  destruct (String.eqb (tc_direction tc') "send"); by hook_simpl.
Qed.

Lemma existing_producers_consumed_once_witness :
  performed (meeting_joined sample_existing sample_connected)
    (transport_created {| tc_direction := "recv"; tc_id := "T-recv" |}
       (meeting_joined sample_existing sample_connected))
  = consume_pending sample_socket sample_device
      <$> [{| pp_participantId := "alice"; pp_producerId := "P1"; pp_kind := video |}].
Proof.
  assert (Hsk : socketRef sample_connected = Some sample_socket)
    by (vm_compute; reflexivity).
  assert (Hd : deviceRef sample_connected = Some sample_device)
    by (vm_compute; reflexivity).
  assert (Hdir : tc_direction {| tc_direction := "recv"; tc_id := "T-recv" |} <> "send")
    by discriminate.
  assert (Hne : [{| pp_participantId := "alice"; pp_producerId := "P1";
                    pp_kind := video |}] <> []) by discriminate.
  pose proof (existing_producers_consumed_once sample_connected sample_socket
                sample_device sample_existing _
                {| tc_direction := "recv"; tc_id := "T-recv" |}
                {| tc_direction := "send"; tc_id := "T-send" |}
                Hsk Hd eq_refl Hne Hdir) as Hflush.
  simpl describable in Hflush. cbv iota zeta in Hflush.
  exact (proj1 (proj2 Hflush)).
Defined.

(** ['producer-closed'] removes the producer's mark and nothing else from
    the set of consumed producers. *)
Lemma producer_closed_mark (data : ProducerClosed) (s : Hook) :
  is_Some (socketRef s) ->
  consumedProducersRef (producer_closed data s)
  = consumedProducersRef s ∖ {[pc_producerId data]}.
Proof.
  intros [sk Hsk]. unfold producer_closed, on_socket. rewrite Hsk. cbv zeta.
  set (s2 := set_producerAppDataRef _ _).
  assert (H3 : consumedProducersRef (close_consumer_of (pc_producerId data) s2)
               = consumedProducersRef s ∖ {[pc_producerId data]}).
  { unfold close_consumer_of. by cases. }
  set (s3 := close_consumer_of _ s2) in *. clearbody s3. clear s2.
  destruct (remoteStreamsRef s3 !! pc_participantId data) as [b|]; [|done].
  set (isScreen := is_type _ _).
  destruct (pc_kind data), isScreen, b as [[c|] [sc|] [a|]];
    cbv beta iota; hook_simpl;
    destruct (remoteParticipants _ !! _); hook_simpl; exact H3.
Qed.

(** X10. A producer that was closed is consumed again when it is announced
    again: after ['producer-closed'] for it, ['new-producer'] with the same
    producer id sends exactly one ['consume'] request for it and marks it
    as consumed. *)
Theorem closed_producer_consumed_again (s : Hook) (sk : Socket) (tr : Transport)
    (d : Device) (closed : ProducerClosed) (data : NewProducer) :
  socketRef s = Some sk ->
  recvTransportRef s = Some tr ->
  deviceRef s = Some d ->
  np_producerId data = pc_producerId closed ->
  let s1 := producer_closed closed s in
  performed s1 (new_producer data s1) = [Emit (request_of sk d data)]
  /\ np_producerId data ∈ consumedProducersRef (new_producer data s1).
Proof.
  intros Hsk Hr Hd Hid. cbv zeta.
  destruct (producer_closed_session closed s) as (Hsk1 & Hr1 & _ & Hd1 & _).
  pose proof (producer_closed_mark closed s) as Hmark.
  rewrite Hsk in Hsk1, Hmark. rewrite Hr in Hr1. rewrite Hd in Hd1.
  specialize (Hmark (ltac:(eauto))).
  set (s1 := producer_closed closed s) in *. clearbody s1.
  unfold new_producer, on_socket. rewrite Hsk1.
  destruct (decide (np_producerId data ∈ consumedProducersRef s1)) as [Hin|_].
  { rewrite Hmark, Hid in Hin. apply elem_of_difference in Hin as [_ Hnot].
    destruct Hnot. by apply elem_of_singleton. }
  rewrite Hr1, Hd1. cbv zeta. split.
  - apply performed_app. unfold request_of. by destruct (np_appData data).
  - destruct (np_appData data); hook_simpl; apply elem_of_union; left;
      by apply elem_of_singleton.
Qed.

Lemma closed_producer_consumed_again_witness :
  performed (producer_closed sample_closed sample_viewing)
    (new_producer dup_first (producer_closed sample_closed sample_viewing))
  = [Emit (request_of sample_socket sample_device dup_first)].
Proof.
  assert (Hsk : socketRef sample_viewing = Some sample_socket)
    by (vm_compute; reflexivity).
  assert (Hr : recvTransportRef sample_viewing = Some {| transport_id := "T-recv" |})
    by (vm_compute; reflexivity).
  assert (Hd : deviceRef sample_viewing = Some sample_device)
    by (vm_compute; reflexivity).
  exact (proj1 (closed_producer_consumed_again sample_viewing sample_socket _
                  sample_device sample_closed dup_first Hsk Hr Hd eq_refl)).
Defined.

Lemma attach_holds (slot : option nat) (track : MediaStreamTrack)
    (h : gmap nat (list MediaStreamTrack)) :
  (forall r, slot = Some r -> is_Some (h !! r)) ->
  exists ms, (attach slot track h).2 !! (attach slot track h).1 = Some ms
             /\ track ∈ ms.
Proof.
  intros Hslot. unfold attach. destruct slot as [r|]; simpl.
  - destruct (Hslot r eq_refl) as [ms0 Hms0]. exists (addTrack track ms0).
    split; [|apply addTrack_elem_of]. by rewrite lookup_alter_eq, Hms0.
  - exists [track]. split; [by rewrite lookup_insert_eq|].
    by apply list_elem_of_singleton.
Qed.

(** X11. In a state the hook can reach, with a socket and a receive
    transport, a ['consumed'] whose consumer is created and resumed stores
    the consumer under its id, sends ['resume-consumer'], and adds the
    track to one stream of the participant's bundle: the screen stream for
    video whose effective [appData] has type ["screen"], the camera stream
    for other video, the audio stream for audio.  That stream is allocated
    and holds the track; the two other streams of the bundle and the bundles
    of all other participants are left as they were. *)
Theorem consumed_attaches_track (s : Hook) (data : Consumed)
    (track : MediaStreamTrack) (sk : Socket) (tr : Transport) :
  reachable s ->
  socketRef s = Some sk ->
  recvTransportRef s = Some tr ->
  let s' := consumed data (resolved track) true s in
  let participantId := cd_producerParticipantId data in
  let old := default empty_streams (remoteStreamsRef s !! participantId) in
  exists b r ms,
    remoteStreamsRef s' !! participantId = Some b
    /\ slot_of (routed data s) b = Some r
    /\ heap s' !! r = Some ms
    /\ track ∈ ms
    /\ (forall sl, sl <> routed data s -> slot_of sl b = slot_of sl old)
    /\ (forall q, q <> participantId ->
          remoteStreamsRef s' !! q = remoteStreamsRef s !! q)
    /\ JsMap.get (cd_id data) (consumersRef s')
       = Some {| consumer_id := cd_id data; consumer_producerId := cd_producerId data;
                 consumer_track := track |}
    /\ performed s s' = [Emit (resume_consumer (cd_id data))].
Proof.
  intros Hreach Hsk Hr. cbv zeta.
  pose proof (reachable_streams_wf s Hreach) as Hwf.
  unfold consumed, on_socket. rewrite Hsk, Hr. simpl negb. cbv iota zeta.
  set (s1 := emit _ _).
  change (remoteStreamsRef s1) with (remoteStreamsRef s).
  change (remoteParticipants s1) with (remoteParticipants s).
  change (heap s1) with (heap s).
  unfold routed.
  change (effective_appData (cd_appData data) (cd_producerId data) s1)
    with (effective_appData (cd_appData data) (cd_producerId data) s).
  set (isScreen := is_type _ _).
  set (old := default empty_streams _).
  assert (Hold : forall sl r, slot_of sl old = Some r -> is_Some (heap s !! r)).
  { intros sl r Hsl. subst old.
    destruct (remoteStreamsRef s !! cd_producerParticipantId data) as [b|] eqn:Hb.
    - destruct (Hwf _ _ Hb) as [_ Hall]. apply Hall. unfold slot_refs. simpl in *.
      destruct sl, b as [[c|] [sc|] [a|]]; simpl in *; simplify_eq;
        rewrite ?elem_of_cons; auto.
    - by destruct sl. }
  assert (Hfinish : forall (sl : RemoteSlot) (b : Streams) (r : nat)
                      (h : gmap nat (list MediaStreamTrack)),
            attach (slot_of sl old) track (heap s) = (r, h) ->
            slot_of sl b = Some r ->
            (forall sl', sl' <> sl -> slot_of sl' b = slot_of sl' old) ->
            let s' := set_remoteParticipants
                        (<[cd_producerParticipantId data :=
                             {| odId := cd_producerParticipantId data;
                                userName := Api.or_else
                                  (userName <$> remoteParticipants s
                                                  !! cd_producerParticipantId data)
                                  "Participant";
                                cameraStream := st_camera b;
                                screenStream := st_screen b;
                                audioStream := st_audio b |}]>
                           (remoteParticipants s))
                        (set_remoteStreamsRef
                           (<[cd_producerParticipantId data := b]> (remoteStreamsRef s))
                           (set_heap h s1)) in
            exists b' r' ms,
              remoteStreamsRef s' !! cd_producerParticipantId data = Some b'
              /\ slot_of sl b' = Some r'
              /\ heap s' !! r' = Some ms
              /\ track ∈ ms
              /\ (forall sl', sl' <> sl -> slot_of sl' b' = slot_of sl' old)
              /\ (forall q, q <> cd_producerParticipantId data ->
                    remoteStreamsRef s' !! q = remoteStreamsRef s !! q)
              /\ JsMap.get (cd_id data) (consumersRef s')
                 = Some {| consumer_id := cd_id data;
                           consumer_producerId := cd_producerId data;
                           consumer_track := track |}
              /\ performed s s' = [Emit (resume_consumer (cd_id data))]).
  { intros sl b r h Hatt Hsl Hothers. cbv zeta.
    destruct (attach_holds (slot_of sl old) track (heap s) (Hold sl))
      as (ms & Hms & Hin).
    rewrite Hatt in Hms. simpl in Hms.
    exists b, r, ms. hook_simpl.
    split; [by rewrite lookup_insert_eq|]. split; [done|]. split; [done|].
    split; [done|]. split; [done|].
    split; [by intros q Hq; rewrite lookup_insert_ne|].
    split; [apply JsMap_get_set_eq|]. by apply performed_app. }
  destruct (cd_kind data); [|destruct isScreen].
  - destruct (attach (st_audio old) track (heap s)) as [r h] eqn:Hatt.
    apply (Hfinish remoteAudio _ r h Hatt); [done|]. by intros [].
  - destruct (attach (st_screen old) track (heap s)) as [r h] eqn:Hatt.
    apply (Hfinish remoteScreen _ r h Hatt); [done|]. by intros [].
  - destruct (attach (st_camera old) track (heap s)) as [r h] eqn:Hatt.
    apply (Hfinish remoteCamera _ r h Hatt); [done|]. by intros [].
Qed.

Lemma consumed_attaches_track_witness :
  exists b r ms,
    remoteStreamsRef sample_viewing !! "alice" = Some b
    /\ slot_of remoteCamera b = Some r
    /\ heap sample_viewing !! r = Some ms
    /\ sample_track ∈ ms.
Proof.
  assert (Hreach : reachable (new_producer dup_first sample_ready)).
  { exists (Some sample_meeting), (take 6 sample_turns). vm_compute. reflexivity. }
  assert (Hsk : socketRef (new_producer dup_first sample_ready) = Some sample_socket)
    by (vm_compute; reflexivity).
  assert (Hr : recvTransportRef (new_producer dup_first sample_ready)
               = Some {| transport_id := "T-recv" |})
    by (vm_compute; reflexivity).
  destruct (consumed_attaches_track (new_producer dup_first sample_ready)
              {| cd_id := "C1"; cd_producerId := "P1"; cd_kind := video;
                 cd_producerParticipantId := "alice"; cd_appData := None |}
              sample_track sample_socket _ Hreach Hsk Hr)
    as (b & r & ms & Hb & Hslot & Hms & Hin & _).
  assert (Hroute : routed {| cd_id := "C1"; cd_producerId := "P1"; cd_kind := video;
                             cd_producerParticipantId := "alice"; cd_appData := None |}
                     (new_producer dup_first sample_ready) = remoteCamera)
    by (vm_compute; reflexivity).
  rewrite Hroute in Hslot.
  exists b, r, ms. unfold sample_viewing. by repeat split.
Defined.

Lemma filter_timeout_accepts (requestId producerId : string) (ws : list ProduceWait) :
  requestId <> "" ->
  filter (fun w => produced_accepts {| pr_producerId := producerId;
                                       pr_requestId := Some requestId |} w = true)
    (filter (fun w => pw_requestId w ≠ requestId) ws) = []
  /\ filter (fun w => produced_accepts {| pr_producerId := producerId;
                                          pr_requestId := Some requestId |} w = false)
       (filter (fun w => pw_requestId w ≠ requestId) ws)
     = filter (fun w => pw_requestId w ≠ requestId) ws.
Proof.
  intros Hne.
  assert (Hacc : forall w, pw_requestId w <> requestId ->
            produced_accepts {| pr_producerId := producerId;
                                pr_requestId := Some requestId |} w = false).
  { intros w Hw. unfold produced_accepts, Api.truthy. simpl.
    apply orb_false_iff. split.
    - apply negb_false_iff, negb_true_iff. by apply String.eqb_neq.
    - apply String.eqb_neq. congruence. }
  induction ws as [|w ws [IH1 IH2]]; [done|].
  rewrite filter_cons. destruct (decide (pw_requestId w ≠ requestId)) as [Hw|_];
    [|done].
  rewrite !filter_cons, (Hacc w Hw). simpl.
  split; [exact IH1 | by rewrite IH2].
Qed.

(** X12. An acknowledgment that arrives after its request timed out is
    ignored: once the ten-second timer has removed the handler of a
    ['produce'] request, a ['produced'] response that carries that request's
    non-empty identifier changes nothing in the hook (no producer is stored,
    no callback is called). *)
Theorem late_acknowledgment_ignored (s : Hook) (requestId producerId next : string) :
  requestId <> "" ->
  acknowledge requestId producerId next (produce_timeout requestId s)
  = produce_timeout requestId s.
Proof.
  intros Hne. unfold acknowledge, produced, produce_timeout, on_socket.
  destruct (socketRef s) as [sk|] eqn:Hsk; [|by rewrite Hsk].
  hook_simpl. cbv zeta. hook_simpl.
  destruct (filter_timeout_accepts requestId producerId (sk_produced sk) Hne)
    as [-> ->].
  simpl foldl. unfold perform, set_effects, set_socketRef, sk_set_produced.
  hook_simpl. by rewrite app_nil_r.
Qed.

Lemma late_acknowledgment_ignored_witness :
  producersRef (acknowledge "req-1" "P-1" "req-1a"
                  (produce_timeout "req-1" sample_publishing))
  = producersRef (produce_timeout "req-1" sample_publishing).
Proof.
  assert (Hne : "req-1" <> "") by discriminate.
  by rewrite (late_acknowledgment_ignored sample_publishing "req-1" "P-1" "req-1a" Hne).
Defined.
End Sessions.

(** ** The waiting room *)

Section WaitingRoom.
Import App.

(** X13. When the admission check answers that admission is required and
    the request for admission succeeds, [handleJoinMeeting] puts the user
    in the waiting room, at a position that is never 0.  The media session
    is not joined, with one exception: when the auto-join flag was still
    set and the user was not waiting, the render that runs with the meeting
    selected, while the admission check is awaited, joins at once.  From
    the waiting room, updates of the waiting room join nothing;
    ['admission-granted'] makes the next render join the meeting, exactly
    once; ['admission-rejected'] joins nothing and drops the meeting. *)
Theorem admission_required_waits (result : Api.Result Api.JoinData)
    (d : Api.JoinData) (admissionCheck : Api.Result Api.AdmissionCheck)
    (admissionResult : Api.AdmissionRequest) (a : State) :
  blank (meetingCode a) = false ->
  Api.success result = true ->
  Api.data result = Some d ->
  Api.canJoin d = true ->
  Api.success admissionCheck = true ->
  (Api.required <$> Api.data admissionCheck) = Some true ->
  Api.ar_success admissionResult = true ->
  let w := autoJoinEffect
             (handleJoinMeeting result admissionCheck admissionResult a) in
  calls w
  = calls a ++ (if shouldAutoJoin a && negb (isWaiting a)
                then [webRTCJoin (Api.jd_meeting d)] else [])
  /\ isWaiting w = true
  /\ waitingPosition w = Some (position_or_1 (Api.position admissionResult))
  /\ position_or_1 (Api.position admissionResult) <> 0%Z
  /\ (forall waiting, calls (autoJoinEffect (waiting_room_update waiting w)) = calls w)
  /\ calls (autoJoinEffect (admission_granted w))
     = calls w ++ [webRTCJoin (Api.jd_meeting d)]
  /\ autoJoinEffect (autoJoinEffect (admission_granted w))
     = autoJoinEffect (admission_granted w)
  /\ calls (autoJoinEffect (admission_rejected w)) = calls w
  /\ currentMeeting (admission_rejected w) = None.
Proof.
  intros Hcode Hok Hdata Hcan Hcheck Hreq Hres. cbv zeta.
  destruct (Api.data admissionCheck) as [c|] eqn:Hc; [|discriminate Hreq].
  simpl in Hreq. injection Hreq as Hreq.
  assert (Hpos : position_or_1 (Api.position admissionResult) <> 0%Z).
  { unfold position_or_1. destruct (Api.position admissionResult) as [z|]; [|done].
    destruct (Z.eqb z 0) eqn:Hz; [done|]. by apply Z.eqb_neq. }
  assert (Hidem : forall x, autoJoinEffect (autoJoinEffect x) = autoJoinEffect x)
    by (intros x; apply autoJoinEffect_idle, autoJoinEffect_settles).
  assert (Hhj : handleJoinMeeting result admissionCheck admissionResult a
                = set_waitingPosition
                    (Some (position_or_1 (Api.position admissionResult)))
                    (set_isWaiting true (autoJoinEffect (join_answered d a)))).
  { unfold handleJoinMeeting. rewrite Hcode, Hok, Hdata, Hcan. simpl negb. cbv iota.
    unfold admission_answered. rewrite Hcheck, Hc. simpl. by rewrite Hreq, Hres. }
  rewrite Hhj. clear Hhj.
  destruct (shouldAutoJoin a) eqn:Hsa, (isWaiting a) eqn:Hw;
    (repeat split; try done; try intros waiting);
    unfold autoJoinEffect, join_answered, waiting_room_update, admission_granted,
      admission_rejected;
    repeat (progress (simpl; rewrite ?Hsa, ?Hw));
    rewrite ?app_nil_r; try done.
Qed.

Lemma admission_required_waits_witness :
  isWaiting (autoJoinEffect
               (handleJoinMeeting sample_join sample_check_required sample_request
                  sample_idle)) = true
  /\ calls (autoJoinEffect
              (admission_granted
                 (autoJoinEffect
                    (handleJoinMeeting sample_join sample_check_required
                       sample_request sample_idle))))
     = calls (autoJoinEffect
                (handleJoinMeeting sample_join sample_check_required sample_request
                   sample_idle))
       ++ [webRTCJoin (Api.jd_meeting sample_join_data)].
Proof.
  destruct (admission_required_waits sample_join sample_join_data
              sample_check_required sample_request sample_idle
              eq_refl eq_refl eq_refl eq_refl eq_refl eq_refl eq_refl)
    as (_ & Hwait & _ & _ & _ & Hjoin & _).
  split; [exact Hwait | exact Hjoin].
Defined.
End WaitingRoom.
